(** * The S3 file system adapter and its retry envelope

    A shallow embedding of
    - [tensorflow/core/platform/retrying_utils.cc]
      ([RetryingUtils::CallWithRetries], [RetryingUtils::DeleteWithRetries]),
    - [tensorflow/core/platform/s3/s3_file_system.cc]
      ([ParseS3Path], [S3RandomAccessFile], [S3WritableFile], [S3FileSystem])
      with the retry configuration of [s3_file_system.h],
    followed by the properties of the specification that these functions
    decide.

    Conventions.  C++ integers are [Z] with the wrap-around written out
    ([u64], [i64]).  Strings are [string], byte sequences are [list byte];
    a name handed to the SDK as [s.c_str()] is [c_str s], the name up to
    its first NUL.  Code that talks to the outside (the AWS SDK, the
    clock, the random generator, [sleep]) is written in state-passing
    style over a world. *)

From Stdlib Require Import ZArith List String Ascii Bool Lia.
From Stdlib Require Import Strings.Byte.
From Stdlib Require Import DecimalString.
From Stdlib Require Import Floats.SpecFloat.
Import ListNotations.

Local Open Scope string_scope.
Local Open Scope list_scope.
Local Open Scope Z_scope.

(* ================================================================== *)
(** * Part I.  Definitions                                             *)
(* ================================================================== *)

(** ** Machine integers *)

(** [uint64] / [size_t] arithmetic keeps the residue modulo 2^64. *)
Definition u64 (z : Z) : Z := z mod 2 ^ 64.

(** [int64] arithmetic in two's complement. *)
Definition i64 (z : Z) : Z := (z + 2 ^ 63) mod 2 ^ 64 - 2 ^ 63.

(** [x << k] on [int64]. *)
Definition shl64 (x k : Z) : Z := i64 (Z.shiftl x k).

(** Decimal rendering of a non-negative number, as [StrCat],
    [std::to_string] and [operator<<] print it. *)
Definition dec (z : Z) : string :=
  NilZero.string_of_uint (N.to_uint (Z.to_N z)).

(** ** Status ([tensorflow/core/lib/core/status.h], [error_codes.proto]) *)

Module error.
Inductive Code : Set :=
| OK | CANCELLED | UNKNOWN | INVALID_ARGUMENT | DEADLINE_EXCEEDED
| NOT_FOUND | ALREADY_EXISTS | PERMISSION_DENIED | UNAUTHENTICATED
| RESOURCE_EXHAUSTED | FAILED_PRECONDITION | ABORTED | OUT_OF_RANGE
| UNIMPLEMENTED | INTERNAL | UNAVAILABLE | DATA_LOSS.

Definition eq_dec (a b : Code) : {a = b} + {a <> b}.
Proof. decide equality. Defined.

Definition eqb (a b : Code) : bool := if eq_dec a b then true else false.
End error.

Record Status : Set := mkStatus { code : error.Code; error_message : string }.

Definition Status_OK : Status := mkStatus error.OK "".

Definition ok (s : Status) : bool := error.eqb (code s) error.OK.

(** ** retrying_utils.cc *)

Module RetryingUtils.

(** In case of failure, every call will be retried kMaxRetries times. *)
Definition kMaxRetries : Z := 10.
(** Maximum backoff time in microseconds. *)
Definition kMaximumBackoffMicroseconds : Z := 32000000.

(** [retriable_errors.find(code) != retriable_errors.end()]; the
    [std::set<error::Code>] is a list read through membership. *)
Definition IsRetriable (retriable_errors : list error.Code)
                       (c : error.Code) : bool :=
  existsb (error.eqb c) retriable_errors.

(** The delay computed at lines 64-70 when [initial > 0]:
    [std::min(initial << retries, kMaximumBackoffMicroseconds)
       + random::New64() % 1000000]. *)
Definition delay_micros_of (initial_delay_microseconds retries new64 : Z) : Z :=
  let random_micros := u64 new64 mod 1000000 in
  Z.min (shl64 initial_delay_microseconds retries)
        kMaximumBackoffMicroseconds + random_micros.

Section WithWorld.
(** The world the call runs in: whatever [f], the random generator and
    [sleep] read and change. *)
Context {St : Type}.
(** [Status::ToString] is declared in the host framework. *)
Variable ToString : Status -> string.
(** [random::New64()]. *)
Variable New64 : St -> Z * St.

Definition aborted (status : Status) : Status :=
  mkStatus error.ABORTED
    ("All " ++ dec kMaxRetries ++
     " retry attempts failed. The last failure: " ++ ToString status).

(** The [while (true)] loop of [CallWithRetries]; [retries] is the
    local of the same name.  The loop leaves through one of its two
    [return]s after at most [kMaxRetries + 1] rounds; [fuel] bounds
    the rounds and [None] is "fuel ran out". *)
Fixpoint retry_loop (fuel : nat)
         (f : St -> Status * St)
         (initial_delay_microseconds : Z)
         (sleep_usec : Z -> St -> St)
         (retriable_errors : list error.Code)
         (retries : Z) (s : St) : option (Status * St) :=
  match fuel with
  | O => None
  | S fuel' =>
      let '(status, s) := f s in
      if negb (IsRetriable retriable_errors (code status)) then
        Some (status, s)
      else if kMaxRetries <=? retries then
        Some (aborted status, s)
      else
        let '(delay_micros, s) :=
          if 0 <? initial_delay_microseconds then
            let '(r, s) := New64 s in
            (delay_micros_of initial_delay_microseconds retries r, s)
          else (0, s) in
        let s := sleep_usec delay_micros s in
        retry_loop fuel' f initial_delay_microseconds sleep_usec
                   retriable_errors (retries + 1) s
  end.

(** [RetryingUtils::CallWithRetries(f, initial_delay, sleep_usec,
    retriable_errors)]. *)
Definition CallWithRetries
           (f : St -> Status * St)
           (initial_delay_microseconds : Z)
           (sleep_usec : Z -> St -> St)
           (retriable_errors : list error.Code)
           (s : St) : option (Status * St) :=
  retry_loop (S (Z.to_nat kMaxRetries)) f initial_delay_microseconds
             sleep_usec retriable_errors 0 s.
End WithWorld.

Section Delete.
Context {St : Type}.
Variable ToString : Status -> string.
Variable New64 : St -> Z * St.
(** [Env::Default()->SleepForMicroseconds]. *)
Variable SleepForMicroseconds : Z -> St -> St.

(** The lambda handed to [CallWithRetries]: it owns the captured
    [is_retried], here the second component of the state. *)
Definition delete_lambda (delete_func : St -> Status * St)
           (sb : St * bool) : Status * (St * bool) :=
  let '(s, is_retried) := sb in
  let '(status, s) := delete_func s in
  if is_retried && error.eqb (code status) error.NOT_FOUND then
    (Status_OK, (s, is_retried))
  else
    (status, (s, true)).

(** [RetryingUtils::DeleteWithRetries(delete_func, initial_delay,
    retriable_errors)]. *)
Definition DeleteWithRetries
           (delete_func : St -> Status * St)
           (initial_delay_microseconds : Z)
           (retriable_errors : list error.Code)
           (s : St) : option (Status * St) :=
  let is_retried := false in
  match
    CallWithRetries ToString
      (fun sb : St * bool =>
         let '(r, s) := New64 (fst sb) in (r, (s, snd sb)))
      (delete_lambda delete_func)
      initial_delay_microseconds
      (fun micros sb => (SleepForMicroseconds micros (fst sb), snd sb))
      retriable_errors (s, is_retried)
  with
  | Some (status, (s, _)) => Some (status, s)
  | None => None
  end.
End Delete.

(** *** A scripted world

    The call sequences the retry properties quantify over: the [k]-th
    call of the wrapped function answers [script k], the [k]-th draw of
    the generator is [rand k], and every sleep is logged. *)
Record Run : Type := mkRun {
  calls : nat;          (** calls of the wrapped function so far *)
  draws : nat;          (** draws of [random::New64] so far *)
  slept : list Z        (** the arguments of [sleep_usec], oldest first *)
}.

Definition start : Run := mkRun 0 0 [].

Definition scripted (script : nat -> Status) (w : Run) : Status * Run :=
  (script (calls w), mkRun (S (calls w)) (draws w) (slept w)).

Definition drawn (rand : nat -> Z) (w : Run) : Z * Run :=
  (rand (draws w), mkRun (calls w) (S (draws w)) (slept w)).

Definition logged_sleep (micros : Z) (w : Run) : Run :=
  mkRun (calls w) (draws w) (slept w ++ [micros]).

(** One round of the loop that retries, in the scripted world: the
    call, the draw (when [initial > 0]) and the sleep. *)
Definition after_retry (script : nat -> Status) (rand : nat -> Z)
           (initial : Z) (retries : Z) (w : Run) : Run :=
  let w1 := snd (scripted script w) in
  if 0 <? initial then
    logged_sleep (delay_micros_of initial retries (rand (draws w1)))
                 (snd (drawn rand w1))
  else logged_sleep 0 w1.

(** What the retried delete makes of the outcomes of [delete_func], in
    the specification's words: "on attempts after the first, a NotFound
    result is rewritten to OK". *)
Definition absorb_not_found (script : nat -> Status) (k : nat) : Status :=
  match k with
  | O => script O
  | S _ => if error.eqb (code (script k)) error.NOT_FOUND
           then Status_OK else script k
  end.

End RetryingUtils.

(** ** The AWS SDK, as far as the adapter uses it *)

Module Aws.

(** [Aws::Client::AWSError<S3Errors>]. *)
Record AWSError : Set := mkAWSError {
  GetExceptionName : string;
  GetMessage : string;
  GetResponseCode : Z          (** [Aws::Http::HttpResponseCode] *)
}.

(** [Aws::Http::HttpResponseCode::REQUESTED_RANGE_NOT_SATISFIABLE]. *)
Definition REQUESTED_RANGE_NOT_SATISFIABLE : Z := 416.

(** [Aws::Utils::Outcome<R, AWSError>]. *)
Inductive Outcome (R : Type) : Type :=
| Success (r : R)
| Failure (e : AWSError).
Arguments Success {R} r.
Arguments Failure {R} e.

Definition IsSuccess {R : Type} (o : Outcome R) : bool :=
  match o with Success _ => true | Failure _ => false end.

(** [GetObjectRequest] with its [Range] header [bytes=first-last], kept
    as the two numbers the header is printed from (the header is made of
    digits, so that its [c_str()] is all of it). *)
Record GetObjectRequest : Set := mkGetObjectRequest {
  get_Bucket : string;
  get_Key : string;
  get_RangeFirst : Z;
  get_RangeLast : Z
}.

Record GetObjectResult : Set := mkGetObjectResult {
  GetContentLength : Z;
  GetBody : list byte
}.

Record HeadObjectResult : Set := mkHeadObjectResult {
  head_GetContentLength : Z;
  head_GetLastModified : Z     (** [DateTime::Millis()] *)
}.

(** [ListObjectsRequest] with the fields [Stat] and [DeleteDir] set. *)
Record ListObjectsRequest : Set := mkListObjectsRequest {
  list_Bucket : string;
  list_Prefix : string;
  list_MaxKeys : Z
}.

(** [Aws::S3::Model::Object], an entry of [GetContents()]. *)
Record Object : Set := mkObject {
  GetKey : string;
  GetLastModified : Z          (** [DateTime::Millis()] *)
}.

Record ListObjectsResult : Set := mkListObjectsResult {
  GetContents : list Object
}.

(** [Aws::Transfer::TransferStatus]. *)
Inductive TransferStatus : Set :=
| EXACT_OBJECT_ALREADY_EXISTS | NOT_STARTED | QUEUED | IN_PROGRESS
| CANCELED | FAILED | COMPLETED | ABORTED.

Definition TransferStatus_eqb (a b : TransferStatus) : bool :=
  match a, b with
  | EXACT_OBJECT_ALREADY_EXISTS, EXACT_OBJECT_ALREADY_EXISTS
  | NOT_STARTED, NOT_STARTED | QUEUED, QUEUED | IN_PROGRESS, IN_PROGRESS
  | CANCELED, CANCELED | FAILED, FAILED | COMPLETED, COMPLETED
  | ABORTED, ABORTED => true
  | _, _ => false
  end.

(** [Aws::Transfer::TransferHandle], after [WaitUntilFinished()]. *)
Record TransferHandle : Set := mkTransferHandle {
  GetBucketName : string;
  handle_GetKey : string;
  GetStatus : TransferStatus;
  GetFailedParts_size : Z;
  GetLastError : AWSError
}.

(** [Aws::Utils::TempFile], the [std::fstream] the spill file is: its
    bytes, its put position and whether the stream is [good()]. *)
Record TempFile : Set := mkTempFile {
  contents : list byte;
  position : Z;
  good : bool
}.

(** Opened with [binary | trunc | in | out]. *)
Definition TempFile_open : TempFile := mkTempFile [] 0 true.

(** [outfile->write(data, size)]: overwrites from the put position on
    and advances it; a stream that is not good writes nothing. *)
Definition write (data : list byte) (t : TempFile) : TempFile :=
  if good t then
    let p := Z.to_nat (position t) in
    mkTempFile (firstn p (contents t) ++ data ++
                skipn (p + List.length data) (contents t))
               (position t + Z.of_nat (List.length data)) true
  else t.

(** [outfile->tellp()]: [-1] on a failed stream. *)
Definition tellp (t : TempFile) : Z :=
  if good t then position t else -1.

(** [outfile->clear()]. *)
Definition clear (t : TempFile) : TempFile :=
  mkTempFile (contents t) (position t) true.

(** [outfile->seekp(offset)]: a failed stream stays where it is, a
    negative offset fails the stream. *)
Definition seekp (offset : Z) (t : TempFile) : TempFile :=
  if good t then
    if 0 <=? offset then mkTempFile (contents t) offset true
    else mkTempFile (contents t) (position t) false
  else t.

(** The calls of [Aws::S3::S3Client] the adapter makes, over the world
    [W] the service lives in. *)
Class S3Client (W : Type) : Type := {
  HeadBucket : string -> W -> Outcome unit * W;
  HeadObject : string -> string -> W -> Outcome HeadObjectResult * W;
  ListObjects : ListObjectsRequest -> W -> Outcome ListObjectsResult * W;
  GetObject : GetObjectRequest -> W -> Outcome GetObjectResult * W;
  DeleteObject : string -> string -> W -> Outcome unit * W
}.

(** [Aws::Transfer::TransferManager]: [UploadFile] and [RetryUpload],
    each followed by [handle->WaitUntilFinished()].  The stream is
    shared with the manager, which hands it back in the state it left
    it in.  Arguments: stream, bucket, key, content type. *)
Class TransferManager (W : Type) : Type := {
  UploadFile :
    TempFile -> string -> string -> string -> W ->
    (TransferHandle * TempFile) * W;
  RetryUpload :
    TempFile -> TransferHandle -> W -> (TransferHandle * TempFile) * W
}.

(** [UploadPartCopyRequest]. *)
Record UploadPartCopyRequest : Set := mkUploadPartCopyRequest {
  upc_Bucket : string;
  upc_Key : string;
  upc_CopySource : string;
  upc_CopySourceRange : string;
  upc_PartNumber : Z;
  upc_UploadId : string
}.

(** [CompletedPart]. *)
Record CompletedPart : Set := mkCompletedPart {
  part_PartNumber : Z;
  part_ETag : string
}.

(** [CompleteMultipartUploadRequest]. *)
Record CompleteMultipartUploadRequest : Set :=
  mkCompleteMultipartUploadRequest {
    cmu_Bucket : string;
    cmu_Key : string;
    cmu_UploadId : string;
    cmu_Parts : list CompletedPart
  }.

(** The multipart calls; [CreateMultipartUpload] answers the upload
    id, [UploadPartCopy] the [ETag] of the copied part. *)
Class MultipartClient (W : Type) : Type := {
  URLEncode : string -> string;
  CreateMultipartUpload : string -> string -> W -> Outcome string * W;
  UploadPartCopy : UploadPartCopyRequest -> W -> Outcome string * W;
  CompleteMultipartUpload :
    CompleteMultipartUploadRequest -> W -> Outcome unit * W
}.

End Aws.


(** ** s3_file_system.cc *)

Module S3.
Import Aws.

Definition kS3ReadAppendableFileBufferSize : Z := 1024 * 1024.
(** 5 MB chosen similar to default size of AWS CPP SDK's Transfer Manager *)
Definition kS3MultiPartCopyPartSize : Z := 5 * 1024 * 1024.
Definition kS3GetChildrenMaxKeys : Z := 100.
Definition kExecutorPoolSize : Z := 5.
Definition kUploadRetries : nat := 5.

(** [errors::Unknown(args...)] and its siblings concatenate their
    arguments into the message. *)
Definition errors_Unknown (msg : string) : Status := mkStatus error.UNKNOWN msg.
Definition errors_Internal (msg : string) : Status := mkStatus error.INTERNAL msg.
Definition errors_NotFound (msg : string) : Status := mkStatus error.NOT_FOUND msg.
Definition errors_InvalidArgument (msg : string) : Status :=
  mkStatus error.INVALID_ARGUMENT msg.
Definition errors_FailedPrecondition (msg : string) : Status :=
  mkStatus error.FAILED_PRECONDITION msg.

(** *** Strings *)

(** [s.back()], [None] on the empty string. *)
Fixpoint back (s : string) : option ascii :=
  match s with
  | EmptyString => None
  | String c EmptyString => Some c
  | String _ rest => back rest
  end.

Definition slash : ascii := "/"%char.

(** [s.back() != '/']. *)
Definition back_is_not_slash (s : string) : bool :=
  match back s with
  | Some c => negb (Ascii.eqb c slash)
  | None => true
  end.

(** [if (s.back() != '/') s.push_back('/')]. *)
Definition push_back_slash (s : string) : string :=
  if back_is_not_slash s then s ++ "/" else s.

(** [str_util::ConsumePrefix(&s, "/")]. *)
Definition ConsumePrefix_slash (s : string) : string :=
  match s with
  | String c rest => if Ascii.eqb c slash then rest else s
  | EmptyString => s
  end.

(** [s.c_str()] read back as a string, as the SDK does with the
    [const char*] it is handed ([WithBucket(bucket.c_str())],
    [WithKey(object.c_str())], [WithPrefix(prefix.c_str())],
    [push_back(entry.c_str())]): the characters before the first NUL. *)
Fixpoint c_str (s : string) : string :=
  match s with
  | EmptyString => EmptyString
  | String c rest => if Ascii.eqb c zero then EmptyString
                     else String c (c_str rest)
  end.

(** [strlen(s.c_str())]: the characters before the first NUL. *)
Fixpoint strlen (s : string) : nat :=
  match s with
  | EmptyString => O
  | String c rest => if Ascii.eqb c zero then O else S (strlen rest)
  end.

(** Whether a string holds no NUL. *)
Fixpoint no_nul (s : string) : bool :=
  match s with
  | EmptyString => true
  | String c rest => negb (Ascii.eqb c zero) && no_nul rest
  end.

Definition is_letter (c : ascii) : bool :=
  let n := nat_of_ascii c in
  ((65 <=? n) && (n <=? 90) || (97 <=? n) && (n <=? 122))%nat.

Definition is_letter_digit_dot (c : ascii) : bool :=
  let n := nat_of_ascii c in
  (is_letter c || (48 <=? n) && (n <=? 57) || (n =? 46))%nat.

(** The longest run of characters satisfying [p], and the rest. *)
Fixpoint span (p : ascii -> bool) (s : string) : string * string :=
  match s with
  | String c rest =>
      if p c then let '(run, rem) := span p rest in (String c run, rem)
      else (EmptyString, s)
  | EmptyString => (EmptyString, EmptyString)
  end.

(** The text before the first ['/'] and the text from it on; [None]
    when there is no ['/']. *)
Fixpoint scan_until_slash (s : string) : option (string * string) :=
  match s with
  | String c rest =>
      if Ascii.eqb c slash then Some (EmptyString, s)
      else match scan_until_slash rest with
           | Some (host, path) => Some (String c host, path)
           | None => None
           end
  | EmptyString => None
  end.

Definition strip_prefix (pre s : string) : option string :=
  if prefix pre s
  then Some (substring (String.length pre)
                       (String.length s - String.length pre) s)
  else None.

(** Modelled from the spec: [io::ParseURI] of [tensorflow/core/lib/io/path],
    which is not among the sources.  "A path is a URI
    [s3://<bucket>/<key>]": the scheme is a letter followed by letters,
    digits and dots and is followed by ["://"]; the bucket runs up to the
    next ['/'] and the rest, that ['/'] included, is the path.  Without
    a scheme the whole text is the path.  The result is (scheme, host,
    path). *)
Definition ParseURI (fname : string) : string * string * string :=
  match fname with
  | String c rest =>
      if is_letter c then
        let '(run, rem) := span is_letter_digit_dot rest in
        match strip_prefix "://" rem with
        | Some remaining =>
            match scan_until_slash remaining with
            | Some (host, path) => (String c run, host, path)
            | None => (String c run, remaining, EmptyString)
            end
        | None => (EmptyString, EmptyString, fname)
        end
      else (EmptyString, EmptyString, fname)
  | EmptyString => (EmptyString, EmptyString, EmptyString)
  end.

(** [ParseS3Path(fname, empty_object_ok, &bucket, &object)]; the two out
    parameters are the second component, in the state the function
    leaves them in ([bucket0], [object0] on entry).  Both pointers are
    taken to be non-null, as they are at every call. *)
Definition ParseS3Path (fname : string) (empty_object_ok : bool)
           (bucket0 object0 : string) : Status * (string * string) :=
  let '(scheme, bucketp, objectp) := ParseURI fname in
  if negb (String.eqb scheme "s3") then
    (errors_InvalidArgument ("S3 path doesn't start with 's3://': " ++ fname),
     (bucket0, object0))
  else
    let bucket := bucketp in
    if String.eqb bucket "" || String.eqb bucket "." then
      (errors_InvalidArgument
         ("S3 path doesn't contain a bucket name: " ++ fname),
       (bucket, object0))
    else
      let object := ConsumePrefix_slash objectp in
      if negb empty_object_ok && String.eqb object "" then
        (errors_InvalidArgument
           ("S3 path doesn't contain an object name: " ++ fname),
         (bucket, object))
      else (Status_OK, (bucket, object)).

(** *** Random-access reads *)

Record S3RandomAccessFile : Set := mkS3RandomAccessFile {
  raf_bucket_ : string;
  raf_object_ : string
}.

(** A [StringPiece]: its length, and the bytes it shows. *)
Record StringPiece : Set := mkStringPiece {
  sp_data : list byte;
  sp_size : Z
}.

(** [StringPiece(scratch, n)]. *)
Definition StringPiece_of (scratch : list byte) (n : Z) : StringPiece :=
  mkStringPiece (firstn (Z.to_nat n) scratch) n.

(** [body.read(scratch, n)]: the first [n] bytes of the body, as far as
    there are that many, over the start of [scratch].  (The source writes
    past the end of [scratch] when [n] exceeds its size; here the buffer
    grows.) *)
Definition body_read (body scratch : list byte) (n : Z) : list byte :=
  let got := firstn (Z.to_nat n) body in
  got ++ skipn (List.length got) scratch.

Section Reader.
Context {W : Type} `{S3Client W}.

(** [S3RandomAccessFile::Read(offset, n, result, scratch)]: the status,
    [*result] and the buffer [scratch] after the call. *)
Definition Read (this : S3RandomAccessFile) (offset n : Z)
           (result : StringPiece) (scratch : list byte) (w : W)
  : (Status * StringPiece * list byte) * W :=
  let getObjectRequest :=
    mkGetObjectRequest (c_str (raf_bucket_ this)) (c_str (raf_object_ this))
                       offset (u64 (offset + n - 1)) in
  let '(getObjectOutcome, w) := GetObject getObjectRequest w in
  match getObjectOutcome with
  | Failure error =>
      if GetResponseCode error =? REQUESTED_RANGE_NOT_SATISFIABLE then
        let n := 0 in
        ((mkStatus error.OUT_OF_RANGE "Read less bytes than requested",
          StringPiece_of scratch n, scratch), w)
      else
        ((errors_Unknown (GetExceptionName error ++ GetMessage error),
          result, scratch), w)
  | Success r =>
      let n := u64 (GetContentLength r) in
      let scratch := body_read (GetBody r) scratch n in
      ((Status_OK, StringPiece_of scratch n, scratch), w)
  end.
End Reader.

(** *** Writable files *)

Record S3WritableFile : Set := mkS3WritableFile {
  bucket_ : string;
  object_ : string;
  sync_needed_ : bool;
  outfile_ : option TempFile     (** [None] once [reset()] *)
}.

(** The constructor.  (The name of the spill file, drawn from
    [tmp_file_index_], plays no part in what the file does.) *)
Definition S3WritableFile_new (bucket object : string) : S3WritableFile :=
  mkS3WritableFile bucket object true (Some TempFile_open).

Definition set_outfile (this : S3WritableFile) (o : option TempFile)
  : S3WritableFile :=
  mkS3WritableFile (bucket_ this) (object_ this) (sync_needed_ this) o.

(** [S3WritableFile::Append(data)]. *)
Definition Append (this : S3WritableFile) (data : list byte)
  : Status * S3WritableFile :=
  match outfile_ this with
  | None =>
      (errors_FailedPrecondition "The internal temporary file is not writable.",
       this)
  | Some outfile =>
      let outfile := write data outfile in
      let this :=
        mkS3WritableFile (bucket_ this) (object_ this) true (Some outfile) in
      if negb (good outfile) then
        (errors_Internal "Could not append to the internal temporary file.",
         this)
      else (Status_OK, this)
  end.

Section Writer.
Context {W : Type} `{TransferManager W}.

(** The loop
    [while (handle->GetStatus() == FAILED && retries++ < kUploadRetries)]
    of [Sync], with [rounds = kUploadRetries - retries] rounds to go. *)
Fixpoint retry_upload (rounds : nat) (outfile : TempFile)
         (handle : TransferHandle) (w : W)
  : (TransferHandle * TempFile) * W :=
  if TransferStatus_eqb (GetStatus handle) FAILED then
    match rounds with
    | O => ((handle, outfile), w)
    | S rounds' =>
        let '((handle, outfile), w) := RetryUpload outfile handle w in
        retry_upload rounds' outfile handle w
    end
  else ((handle, outfile), w).

(** [S3WritableFile::Sync()]. *)
Definition Sync (this : S3WritableFile) (w : W)
  : (Status * S3WritableFile) * W :=
  match outfile_ this with
  | None =>
      ((errors_FailedPrecondition
          "The internal temporary file is not writable.", this), w)
  | Some outfile =>
      if negb (sync_needed_ this) then ((Status_OK, this), w)
      else
        let offset := tellp outfile in
        let '((handle, outfile), w) :=
          UploadFile outfile (c_str (bucket_ this)) (c_str (object_ this))
                     "application/octet-stream" w in
        let '((handle, outfile), w) :=
          retry_upload kUploadRetries outfile handle w in
        if negb (TransferStatus_eqb (GetStatus handle) COMPLETED) then
          ((errors_Unknown
              (GetExceptionName (GetLastError handle) ++ ": " ++
               dec (GetFailedParts_size handle) ++ " failed parts. " ++
               GetMessage (GetLastError handle)),
            set_outfile this (Some outfile)), w)
        else
          let outfile := seekp offset (clear outfile) in
          ((Status_OK, set_outfile this (Some outfile)), w)
  end.

(** [S3WritableFile::Flush()]. *)
Definition Flush (this : S3WritableFile) (w : W)
  : (Status * S3WritableFile) * W := Sync this w.

(** [S3WritableFile::Close()]. *)
Definition Close (this : S3WritableFile) (w : W)
  : (Status * S3WritableFile) * W :=
  match outfile_ this with
  | Some _ =>
      let '((status, this), w) := Sync this w in
      if negb (ok status) then ((status, this), w)
      else ((Status_OK, set_outfile this None), w)
  | None => ((Status_OK, this), w)
  end.
End Writer.

(** The operations of a writable file, and a file driven through a
    sequence of them. *)
Inductive Op : Set :=
| OpAppend (data : list byte)
| OpFlush
| OpSync
| OpClose.

Section Driver.
Context {W : Type} `{TransferManager W}.

Definition step (op : Op) (this : S3WritableFile) (w : W)
  : (Status * S3WritableFile) * W :=
  match op with
  | OpAppend data => (Append this data, w)
  | OpFlush => Flush this w
  | OpSync => Sync this w
  | OpClose => Close this w
  end.

(** The file and the world after the operations, and their statuses. *)
Fixpoint drive (ops : list Op) (this : S3WritableFile) (w : W)
  : (list Status * S3WritableFile) * W :=
  match ops with
  | [] => (([], this), w)
  | op :: ops =>
      let '((status, this), w) := step op this w in
      let '((statuses, this), w) := drive ops this w in
      ((status :: statuses, this), w)
  end.
End Driver.

(** *** File statistics *)

(** [FileStatistics] of the host framework. *)
Record FileStatistics : Set := mkFileStatistics {
  stat_length : Z;             (** [length] *)
  stat_mtime_nsec : Z;         (** [mtime_nsec] *)
  stat_is_directory : bool     (** [is_directory] *)
}.

(** A default-constructed [FileStatistics]. *)
Definition FileStatistics_default : FileStatistics :=
  mkFileStatistics (-1) 0 false.

(** The conversion of an [int64] to [double]. *)
Definition double_of_int64 (z : Z) : spec_float :=
  binary_normalize 53 1024 z 0 false.

(** The conversion of a [double] to [int64]: truncation toward zero.
    For a value that does not fit in an [int64] (and for an infinity or
    a NaN) the language leaves the result open; the conversion
    instruction of x86-64 ([cvttsd2si]) gives [INT64_MIN] then, and that
    is the value here. *)
Definition int64_of_double (x : spec_float) : Z :=
  match x with
  | S754_zero _ => 0
  | S754_finite s m e =>
      let v := if 0 <=? e then Z.pos m * 2 ^ e else Z.pos m / 2 ^ (- e) in
      let z := if s then - v else v in
      if (- 2 ^ 63 <=? z) && (z <? 2 ^ 63) then z else - 2 ^ 63
  | _ => - 2 ^ 63
  end.

(** [t.Millis() * 1e6] assigned to the [int64] [mtime_nsec]: the
    [int64] is converted to [double], the product is taken in double
    precision and converted back. *)
Definition Millis_times_1e6 (millis : Z) : Z :=
  int64_of_double
    (SFmul 53 1024 (double_of_int64 millis) (double_of_int64 1000000)).

(** [S3ReadOnlyMemoryRegion]: the buffer it owns and [length()]. *)
Record S3ReadOnlyMemoryRegion : Set := mkS3ReadOnlyMemoryRegion {
  data_ : list byte;
  length_ : Z
}.

(** [new char[size]]; the contents are indeterminate in the source and
    zero here. *)
Definition new_char_array (size : Z) : list byte :=
  repeat x00 (Z.to_nat size).

(** [int] arithmetic in two's complement. *)
Definition i32 (z : Z) : Z := (z + 2 ^ 31) mod 2 ^ 32 - 2 ^ 31.

(** *** The file system *)

Section FileSystem.
Context {W : Type} `{S3Client W} `{TransferManager W}.

(** [S3FileSystem::NewRandomAccessFile(fname, result)]. *)
Definition NewRandomAccessFile (fname : string)
           (result : option S3RandomAccessFile)
  : Status * option S3RandomAccessFile :=
  let '(status, (bucket, object)) := ParseS3Path fname false "" "" in
  if negb (ok status) then (status, result)
  else (Status_OK, Some (mkS3RandomAccessFile bucket object)).

(** [S3FileSystem::NewWritableFile(fname, result)]. *)
Definition NewWritableFile (fname : string) (result : option S3WritableFile)
  : Status * option S3WritableFile :=
  let '(status, (bucket, object)) := ParseS3Path fname false "" "" in
  if negb (ok status) then (status, result)
  else (Status_OK, Some (S3WritableFile_new bucket object)).

(** [S3FileSystem::Stat(fname, stats)]. *)
Definition Stat (fname : string) (stats : FileStatistics) (w : W)
  : (Status * FileStatistics) * W :=
  let '(status, (bucket, object)) := ParseS3Path fname true "" "" in
  if negb (ok status) then ((status, stats), w)
  else if String.eqb object "" then
    let '(headBucketOutcome, w) := HeadBucket (c_str bucket) w in
    match headBucketOutcome with
    | Failure e =>
        ((errors_Unknown (GetExceptionName e ++ ": " ++ GetMessage e),
          stats), w)
    | Success _ =>
        ((Status_OK, mkFileStatistics 0 (stat_mtime_nsec stats) true), w)
    end
  else
    let found := false in
    let '(headObjectOutcome, w) :=
      HeadObject (c_str bucket) (c_str object) w in
    let '(stats, found) :=
      match headObjectOutcome with
      | Success r =>
          (mkFileStatistics (head_GetContentLength r)
             (Millis_times_1e6 (head_GetLastModified r)) false, true)
      | Failure _ => (stats, found)
      end in
    let prefix := push_back_slash object in
    let listObjectsRequest :=
      mkListObjectsRequest (c_str bucket) (c_str prefix) 1 in
    let '(listObjectsOutcome, w) := ListObjects listObjectsRequest w in
    let '(stats, found) :=
      match listObjectsOutcome with
      | Success r =>
          match GetContents r with
          | first :: _ =>
              (mkFileStatistics 0 (Millis_times_1e6 (GetLastModified first))
                                true, true)
          | [] => (stats, found)
          end
      | Failure _ => (stats, found)
      end in
    if negb found then
      ((errors_NotFound ("Object " ++ fname ++ " does not exist"), stats), w)
    else ((Status_OK, stats), w).

(** [S3FileSystem::FileExists(fname)]. *)
Definition FileExists (fname : string) (w : W) : Status * W :=
  let '((status, _), w) := Stat fname FileStatistics_default w in
  if negb (ok status) then (status, w) else (Status_OK, w).

(** [S3FileSystem::GetFileSize(fname, file_size)]. *)
Definition GetFileSize (fname : string) (file_size : Z) (w : W)
  : (Status * Z) * W :=
  let '((status, stats), w) := Stat fname FileStatistics_default w in
  if negb (ok status) then ((status, file_size), w)
  else ((Status_OK, u64 (stat_length stats)), w).

(** [S3FileSystem::NewReadOnlyMemoryRegionFromFile(fname, result)]. *)
Definition NewReadOnlyMemoryRegionFromFile (fname : string)
           (result : option S3ReadOnlyMemoryRegion) (w : W)
  : (Status * option S3ReadOnlyMemoryRegion) * W :=
  let '((status, size), w) := GetFileSize fname 0 w in
  if negb (ok status) then ((status, result), w)
  else
    let data := new_char_array size in
    let '(status, file) := NewRandomAccessFile fname None in
    if negb (ok status) then ((status, result), w)
    else
      match file with
      | None => ((status, result), w)
      | Some file =>
          let '((status, piece, data), w) :=
            Read file 0 size (mkStringPiece [] 0) data w in
          if negb (ok status) then ((status, result), w)
          else ((Status_OK, Some (mkS3ReadOnlyMemoryRegion data size)), w)
      end.

(** [S3FileSystem::DeleteFile(fname)]. *)
Definition DeleteFile (fname : string) (w : W) : Status * W :=
  let '(status, (bucket, object)) := ParseS3Path fname false "" "" in
  if negb (ok status) then (status, w)
  else
    let '(deleteObjectOutcome, w) :=
      DeleteObject (c_str bucket) (c_str object) w in
    match deleteObjectOutcome with
    | Failure e =>
        (errors_Unknown (GetExceptionName e ++ ": " ++ GetMessage e), w)
    | Success _ => (Status_OK, w)
    end.

(** [S3FileSystem::CreateDir(dirname)]. *)
Definition CreateDir (dirname : string) (w : W) : Status * W :=
  let '(status, (bucket, object)) := ParseS3Path dirname true "" "" in
  if negb (ok status) then (status, w)
  else if String.eqb object "" then
    let '(headBucketOutcome, w) := HeadBucket (c_str bucket) w in
    if negb (IsSuccess headBucketOutcome) then
      (errors_NotFound ("The bucket " ++ bucket ++ " was not found."), w)
    else (Status_OK, w)
  else
    let filename := push_back_slash dirname in
    let '(exists_, w) := FileExists filename w in
    if negb (ok exists_) then
      let '(status, file) := NewWritableFile filename None in
      if negb (ok status) then (status, w)
      else
        match file with
        | None => (status, w)
        | Some file =>
            let '((status, _), w) := Close file w in
            if negb (ok status) then (status, w) else (Status_OK, w)
        end
    else (Status_OK, w).

(** [S3FileSystem::DeleteDir(dirname)]. *)
Definition DeleteDir (dirname : string) (w : W) : Status * W :=
  let '(status, (bucket, object)) := ParseS3Path dirname false "" "" in
  if negb (ok status) then (status, w)
  else
    let prefix := push_back_slash object in
    let listObjectsRequest :=
      mkListObjectsRequest (c_str bucket) (c_str prefix) 2 in
    let '(listObjectsOutcome, w) := ListObjects listObjectsRequest w in
    match listObjectsOutcome with
    | Success r =>
        let contents := GetContents r in
        let size := Z.of_nat (List.length contents) in
        let first_is_prefix :=
          match contents with
          | first :: _ => String.eqb (GetKey first) (c_str prefix)
          | [] => false
          end in
        if (1 <? size) || ((size =? 1) && negb first_is_prefix) then
          (errors_Internal "Cannot delete a non-empty directory.", w)
        else if (size =? 1) && first_is_prefix then
          let filename := push_back_slash dirname in
          DeleteFile filename w
        else (Status_OK, w)
    | Failure _ => (Status_OK, w)
    end.
End FileSystem.

(** *** Multipart copy *)

Section MultiPart.
Context {W : Type} `{S3Client W} `{MultipartClient W}.

(** The loop [while (retryCount > 0)] around one [UploadPartCopy], with
    [retryCount] as it stands at the loop test.  The result is the status
    of an early [return] if there is one, [source_path] and the parts
    recorded so far. *)
Fixpoint copy_part (retryCount : nat) (partNumber : Z)
         (source_path target_bucket target_key uploadID : string)
         (parts : list CompletedPart) (w : W)
  : (option Status * string * list CompletedPart) * W :=
  match retryCount with
  | O => ((None, source_path, parts), w)
  | S retryCount =>
      let startPos := u64 ((partNumber - 1) * kS3MultiPartCopyPartSize) in
      let endPos := u64 (startPos + kS3MultiPartCopyPartSize - 1) in
      let range :=
        ("bytes=" ++ dec startPos ++ dec startPos ++ "-" ++ dec endPos)%string
      in
      let source_path := URLEncode (c_str source_path) in
      let uploadPartCopyRequest :=
        mkUploadPartCopyRequest target_bucket target_key (c_str source_path)
                                (c_str range) partNumber uploadID in
      let '(uploadPartCopyOutcome, w) :=
        UploadPartCopy uploadPartCopyRequest w in
      let record (sETag : string) :=
        copy_part retryCount partNumber source_path target_bucket
                  target_key uploadID
                  (parts ++ [mkCompletedPart partNumber sETag]) w in
      match uploadPartCopyOutcome with
      | Failure e =>
          match retryCount with
          | S _ => record EmptyString
          | O =>
              ((Some (errors_Unknown
                        (GetExceptionName e ++ ": " ++ GetMessage e)),
                source_path, parts), w)
          end
      | Success sETag => record sETag
      end
  end.

(** The loop [for (partNumber = 0; partNumber < numParts; partNumber++)],
    with [rounds = numParts - partNumber] rounds to go; [None] is the
    end of the loop. *)
Fixpoint copy_parts (rounds : nat) (partNumber : Z)
         (source_path target_bucket target_key uploadID : string)
         (parts : list CompletedPart) (w : W) : option Status * W :=
  match rounds with
  | O => (None, w)
  | S rounds =>
      let '((returned, source_path, parts), w) :=
        copy_part 3 partNumber source_path target_bucket target_key
                  uploadID parts w in
      match returned with
      | Some status => (Some status, w)
      | None =>
          let completeRequest :=
            mkCompleteMultipartUploadRequest target_bucket target_key
                                             uploadID parts in
          let '(completeOutcome, w) :=
            CompleteMultipartUpload completeRequest w in
          match completeOutcome with
          | Failure e =>
              (Some (errors_Unknown
                       (GetExceptionName e ++ ": " ++ GetMessage e)), w)
          | Success _ =>
              copy_parts rounds (partNumber + 1) source_path target_bucket
                         target_key uploadID parts w
          end
      end
  end.

(** [S3FileSystem::MultiPartCopy(source_path, target_bucket, target_key)].
    The source names the undeclared [fname], [num_parts], [iPartNumber]
    and [pS3Client]; they are read as the path handed to [Stat] (taken as
    a parameter), [numParts], [partNumber] and the S3 client.  The
    function has no [return] after its loop: [None] is control reaching
    the end of the function. *)
Definition MultiPartCopy (fname : string)
           (source_path target_bucket target_key : string) (w : W)
  : option Status * W :=
  let '(multipartUploadOutcome, w) :=
    CreateMultipartUpload target_bucket target_key w in
  match multipartUploadOutcome with
  | Failure e =>
      (Some (errors_Unknown (GetExceptionName e ++ ": " ++ GetMessage e)), w)
  | Success uploadID =>
      let '((status, stats), w) := Stat fname FileStatistics_default w in
      if negb (ok status) then (Some status, w)
      else
        let numParts :=
          i32 (u64 (stat_length stats) / kS3MultiPartCopyPartSize) in
        copy_parts (Z.to_nat numParts) 0 source_path target_bucket
                   target_key uploadID [] w
  end.
End MultiPart.

(** [RetryingS3FileSystem] (s3_file_system.h): the initial delay and the
    retriable codes it hands to the retrying wrapper. *)
Definition init_delay_time_us : Z := 100000.
Definition retriable_errors : list error.Code :=
  [error.UNAVAILABLE; error.DEADLINE_EXCEEDED; error.UNKNOWN;
   error.FAILED_PRECONDITION; error.INTERNAL].

End S3.


(** ** The object store

    Modelled from the spec: the S3 service behind the SDK, which is not
    part of the sources.  "A flat key -> blob namespace with HTTP
    semantics": a finite map from (bucket, key) to a blob, read by
    [HeadObject], [GetObject] and [ListObjects] and updated by the upload
    of the transfer manager and by [DeleteObject].  A ranged [GET] whose
    first byte lies at or after the end of the blob is answered with 416;
    listings are in key order. *)

Module Store.
Import Aws S3.

Record Blob : Set := mkBlob {
  blob_body : list byte;
  blob_last_modified : Z         (** milliseconds *)
}.

(** What the service was asked to change, oldest first. *)
Inductive Call : Set :=
| CallUploadFile (bucket key : string) (body : list byte)
| CallRetryUpload (bucket key : string) (body : list byte)
| CallDeleteObject (bucket key : string).

Record World : Set := mkWorld {
  buckets : list string;                       (** the buckets that exist *)
  objects : list (string * string * Blob);     (** sorted by key *)
  now : Z;                                     (** the service's clock *)
  transfers : list TransferStatus;
    (** how the coming upload attempts end; past its end they complete *)
  journal : list Call
}.

Definition same (bucket key : string) (e : string * string * Blob) : bool :=
  let '(b, k, _) := e in String.eqb b bucket && String.eqb k key.

Definition lookup (bucket key : string)
           (objs : list (string * string * Blob)) : option Blob :=
  match find (same bucket key) objs with
  | Some (_, _, blob) => Some blob
  | None => None
  end.

Definition remove (bucket key : string)
           (objs : list (string * string * Blob))
  : list (string * string * Blob) :=
  filter (fun e => negb (same bucket key e)) objs.

Fixpoint insert (e : string * string * Blob)
         (objs : list (string * string * Blob))
  : list (string * string * Blob) :=
  match objs with
  | [] => [e]
  | e' :: rest =>
      if String.ltb (snd (fst e)) (snd (fst e')) then e :: objs
      else e' :: insert e rest
  end.

Definition put (bucket key : string) (blob : Blob)
           (objs : list (string * string * Blob))
  : list (string * string * Blob) :=
  insert (bucket, key, blob) (remove bucket key objs).

(** The keys of [bucket] that start with [pre]. *)
Definition listed (bucket pre : string) (e : string * string * Blob) : bool :=
  let '(b, k, _) := e in String.eqb b bucket && prefix pre k.

Definition no_such_key : AWSError := mkAWSError "NoSuchKey" "Not Found" 404.
Definition no_such_bucket : AWSError :=
  mkAWSError "NoSuchBucket" "Not Found" 404.
Definition invalid_range : AWSError :=
  mkAWSError "InvalidRange" "The requested range is not satisfiable"
             REQUESTED_RANGE_NOT_SATISFIABLE.
Definition transfer_failed : AWSError :=
  mkAWSError "NetworkError" "The transfer failed" 0.

Definition bucket_exists (bucket : string) (w : World) : bool :=
  existsb (String.eqb bucket) (buckets w).

Definition store_HeadBucket (bucket : string) (w : World)
  : Outcome unit * World :=
  if bucket_exists bucket w then (Success tt, w)
  else (Failure no_such_bucket, w).

Definition store_HeadObject (bucket key : string) (w : World)
  : Outcome HeadObjectResult * World :=
  match lookup bucket key (objects w) with
  | Some blob =>
      (Success (mkHeadObjectResult (Z.of_nat (List.length (blob_body blob)))
                                   (blob_last_modified blob)), w)
  | None => (Failure no_such_key, w)
  end.

Definition store_ListObjects (request : ListObjectsRequest) (w : World)
  : Outcome ListObjectsResult * World :=
  let hits :=
    filter (listed (list_Bucket request) (list_Prefix request)) (objects w) in
  (Success
     (mkListObjectsResult
        (map (fun e => mkObject (snd (fst e)) (blob_last_modified (snd e)))
             (firstn (Z.to_nat (list_MaxKeys request)) hits))), w).

Definition store_GetObject (request : GetObjectRequest) (w : World)
  : Outcome GetObjectResult * World :=
  match lookup (get_Bucket request) (get_Key request) (objects w) with
  | None => (Failure no_such_key, w)
  | Some blob =>
      let body := blob_body blob in
      let len := Z.of_nat (List.length body) in
      let first := get_RangeFirst request in
      let last := get_RangeLast request in
      if len <=? first then (Failure invalid_range, w)
      else if last <? first then
        (Success (mkGetObjectResult len body), w)
      else
        let n := Z.min last (len - 1) - first + 1 in
        (Success (mkGetObjectResult n
                    (firstn (Z.to_nat n) (skipn (Z.to_nat first) body))), w)
  end.

Definition store_DeleteObject (bucket key : string) (w : World)
  : Outcome unit * World :=
  (Success tt,
   mkWorld (buckets w) (remove bucket key (objects w)) (now w)
           (transfers w) (journal w ++ [CallDeleteObject bucket key])).

(** One attempt to send the whole stream: it ends as [transfers] says
    and, when it completes, the blob is the object's new version.  The
    manager has read the stream to its end. *)
Definition attempt (call : Call) (outfile : TempFile) (bucket key : string)
           (w : World) : (TransferHandle * TempFile) * World :=
  let '(status, rest) :=
    match transfers w with
    | [] => (COMPLETED, [])
    | st :: rest => (st, rest)
    end in
  let status := if bucket_exists bucket w then status else FAILED in
  let body := contents outfile in
  let outfile := mkTempFile body (Z.of_nat (List.length body)) false in
  if TransferStatus_eqb status COMPLETED then
    ((mkTransferHandle bucket key COMPLETED 0 (mkAWSError "" "" 200), outfile),
     mkWorld (buckets w) (put bucket key (mkBlob body (now w)) (objects w))
             (now w) rest (journal w ++ [call]))
  else
    ((mkTransferHandle bucket key status 1 transfer_failed, outfile),
     mkWorld (buckets w) (objects w) (now w) rest (journal w ++ [call])).

Definition store_UploadFile (outfile : TempFile)
           (bucket key content_type : string) (w : World)
  : (TransferHandle * TempFile) * World :=
  attempt (CallUploadFile bucket key (contents outfile)) outfile bucket key w.

Definition store_RetryUpload (outfile : TempFile) (handle : TransferHandle)
           (w : World) : (TransferHandle * TempFile) * World :=
  attempt (CallRetryUpload (GetBucketName handle) (handle_GetKey handle)
                           (contents outfile))
          outfile (GetBucketName handle) (handle_GetKey handle) w.

#[export] Instance store_client : S3Client World := {
  HeadBucket := store_HeadBucket;
  HeadObject := store_HeadObject;
  ListObjects := store_ListObjects;
  GetObject := store_GetObject;
  DeleteObject := store_DeleteObject
}.

#[export] Instance store_transfer_manager : TransferManager World := {
  UploadFile := store_UploadFile;
  RetryUpload := store_RetryUpload
}.

(** The specification's [open-write(p) -> append(b) -> close] on the
    adapter: the status of [close] and the world it leaves.  A failure
    on the way is the status returned there. *)
Definition write_file (fname : string) (b : list byte) (w : World)
  : Status * World :=
  let '(status, file) := NewWritableFile fname None in
  match file with
  | None => (status, w)
  | Some file =>
      let '(status, file) := Append file b in
      if negb (ok status) then (status, w)
      else let '((status, _), w) := Close file w in (status, w)
  end.

End Store.

(** ** A service that records the part copies

    The multipart calls all succeed and are recorded; [HeadObject]
    answers an object of [source_length] bytes and listings are empty. *)

Module Recorder.
Import Aws S3.

Inductive Call : Set :=
| CallCreateMultipartUpload (bucket key : string)
| CallUploadPartCopy (request : UploadPartCopyRequest)
| CallCompleteMultipartUpload (request : CompleteMultipartUploadRequest).

Definition World : Set := list Call.

Section WithLength.
Variable source_length : Z.

Definition recorder_client : S3Client World := {|
  HeadBucket := fun _ w => (Success tt, w);
  HeadObject := fun _ _ w =>
    (Success (mkHeadObjectResult source_length 0), w);
  ListObjects := fun _ w => (Success (mkListObjectsResult []), w);
  GetObject := fun _ w => (Failure (mkAWSError "" "" 0), w);
  DeleteObject := fun _ _ w => (Success tt, w)
|}.

Definition recorder_multipart : MultipartClient World := {|
  URLEncode := fun s => s;
  CreateMultipartUpload := fun bucket key w =>
    (Success "upload-1", w ++ [CallCreateMultipartUpload bucket key]);
  UploadPartCopy := fun request w =>
    (Success "etag", w ++ [CallUploadPartCopy request]);
  CompleteMultipartUpload := fun request w =>
    (Success tt, w ++ [CallCompleteMultipartUpload request])
|}.

(** [MultiPartCopy] against the recording service. *)
Definition copy (fname source_path target_bucket target_key : string)
  : option Status * World :=
  @MultiPartCopy World recorder_client recorder_multipart
                 fname source_path target_bucket target_key [].

(** The part copies among the recorded calls: part number and range. *)
Definition part_copies (w : World) : list (Z * string) :=
  flat_map (fun c =>
              match c with
              | CallUploadPartCopy r =>
                  [(upc_PartNumber r, upc_CopySourceRange r)]
              | _ => []
              end) w.
End WithLength.

End Recorder.


(** ** A service that cannot be reached

    Every request fails; the world is the number of requests made. *)

Module Offline.
Import Aws.

Definition unreachable : AWSError :=
  mkAWSError "NetworkError" "Unable to connect to endpoint" 0.

#[export] Instance offline_client : S3Client nat := {
  HeadBucket := fun _ w => (Failure unreachable, S w);
  HeadObject := fun _ _ w => (Failure unreachable, S w);
  ListObjects := fun _ w => (Failure unreachable, S w);
  GetObject := fun _ w => (Failure unreachable, S w);
  DeleteObject := fun _ _ w => (Failure unreachable, S w)
}.

End Offline.

(** ** Scenarios *)

Module Scenario.
Import Aws S3 Store.

(** A rendering of a status, in place of [Status::ToString]. *)
Definition render (s : Status) : string := error_message s.

Definition unavailable : Status := mkStatus error.UNAVAILABLE "unavailable".
Definition not_found : Status := mkStatus error.NOT_FOUND "not found".

(** A delete that is unavailable twice and then finds nothing. *)
Definition flaky_delete (k : nat) : Status :=
  match k with
  | O | S O => unavailable
  | _ => not_found
  end.

(** A call that is unavailable twice and then succeeds. *)
Definition flaky_call (k : nat) : Status :=
  match k with
  | O | S O => unavailable
  | _ => Status_OK
  end.

(** A call that is never available. *)
Definition always_unavailable (k : nat) : Status := unavailable.

Definition no_jitter (k : nat) : Z := 0.

(** A bucket ["b"] with nothing in it, any upload completing. *)
Definition empty_bucket : World := mkWorld ["b"] [] 1700000000001 [] [].

(** The bucket holding one object under the prefix ["d/"]. *)
Definition one_child : World :=
  mkWorld ["b"] [("b", "d/x", mkBlob [x01] 1700000000001)]
          1700000000001 [] [].

Definition ten_bytes : list byte :=
  [x00; x01; x02; x03; x04; x05; x06; x07; x08; x09].

(** The bucket holding a ten-byte object ["k"]. *)
Definition ten_byte_object : World :=
  mkWorld ["b"] [("b", "k", mkBlob ten_bytes 1700000000001)]
          1700000000001 [] [].

Definition MiB : Z := 1024 * 1024.

End Scenario.


(** ** s3_file_system.cc, the rest of the file system *)

Module S3FileSystem.
Import Aws S3.

(** *** The name of the spill file *)

(** An [int] as [operator<<] prints it. *)
Definition dec_int (z : Z) : string :=
  if z <? 0 then ("-" ++ dec (- z))%string else dec z.

(** [S3WritableFile::GetTmpFileSuffix()]: the suffix, and
    [tmp_file_index_] after the call ([tmp_file_index_] before it is the
    argument).  [%] is the remainder of the truncating division. *)
Definition GetTmpFileSuffix (tmp_file_index_ : Z) : string * Z :=
  let max_tmp_file_index := 1000 in
  let tmp_file_index := tmp_file_index_ in
  let tmp_file_index_ := Z.rem (i32 (tmp_file_index_ + 1)) max_tmp_file_index in
  (("/tmp/s3_filesystem_XXXXXX" ++ dec_int tmp_file_index ++ "_")%string,
   tmp_file_index_).

(** The suffixes of the next [n] files, oldest first, and the counter
    after them. *)
Fixpoint suffixes (n : nat) (tmp_file_index_ : Z) : list string * Z :=
  match n with
  | O => ([], tmp_file_index_)
  | S n =>
      let '(suffix, tmp_file_index_) := GetTmpFileSuffix tmp_file_index_ in
      let '(rest, tmp_file_index_) := suffixes n tmp_file_index_ in
      (suffix :: rest, tmp_file_index_)
  end.

(** *** Appendable files *)

Section Appendable.
Context {W : Type} `{S3Client W}.

(** The loop [while (true)] of [NewAppendableFile]: [result] is the
    writable file behind [*result], [offset], [read_chunk] and [buffer]
    the locals of these names.  The loop ends when a read is not [OK];
    [fuel] bounds its rounds and [None] is "fuel ran out". *)
Fixpoint append_chunks (fuel : nat) (reader : S3RandomAccessFile)
         (result : S3WritableFile) (offset : Z) (read_chunk : StringPiece)
         (buffer : list byte) (w : W)
  : option ((Status * option S3WritableFile) * W) :=
  match fuel with
  | O => None
  | S fuel =>
      let '((status, read_chunk, buffer), w) :=
        Read reader offset kS3ReadAppendableFileBufferSize read_chunk
             buffer w in
      if ok status then
        let '(_, result) := Append result (sp_data read_chunk) in
        append_chunks fuel reader result
                      (u64 (offset + kS3ReadAppendableFileBufferSize))
                      read_chunk buffer w
      else if error.eqb (code status) error.OUT_OF_RANGE then
        let '(_, result) := Append result (sp_data read_chunk) in
        Some ((Status_OK, Some result), w)
      else Some ((status, None), w)
  end.

(** [S3FileSystem::NewAppendableFile(fname, result)]. *)
Definition NewAppendableFile (fuel : nat) (fname : string)
           (result : option S3WritableFile) (w : W)
  : option ((Status * option S3WritableFile) * W) :=
  let '(status, reader) := NewRandomAccessFile fname None in
  if negb (ok status) then Some ((status, result), w)
  else
    match reader with
    | None => Some ((status, result), w)
    | Some reader =>
        let buffer := new_char_array kS3ReadAppendableFileBufferSize in
        let offset := 0 in
        let read_chunk := mkStringPiece [] 0 in
        let '(status, (bucket, object)) := ParseS3Path fname false "" "" in
        if negb (ok status) then Some ((status, result), w)
        else
          append_chunks fuel reader (S3WritableFile_new bucket object)
                        offset read_chunk buffer w
    end.
End Appendable.

(** *** Listings *)

(** [ListObjectsRequest] as [GetChildren] fills it. *)
Record ListChildrenRequest : Set := mkListChildrenRequest {
  children_Bucket : string;
  children_Prefix : string;
  children_MaxKeys : Z;
  children_Delimiter : string;
  children_Marker : string
}.

(** [ListObjectsResult] as [GetChildren] reads it: the prefixes of
    [GetCommonPrefixes()] and the keys of [GetContents()]. *)
Record ListChildrenResult : Set := mkListChildrenResult {
  GetCommonPrefixes : list string;
  GetContentKeys : list string;
  GetNextMarker : string;
  GetIsTruncated : bool
}.

(** [S3Client::ListObjects] for these requests. *)
Class ListingClient (W : Type) : Type := {
  ListChildren :
    ListChildrenRequest -> W -> Outcome ListChildrenResult * W
}.

(** [s.substr(pos)]; [None] is the [std::out_of_range] it throws when
    [pos > s.size()]. *)
Fixpoint substr (pos : nat) (s : string) : option string :=
  match pos, s with
  | O, _ => Some s
  | S _, EmptyString => None
  | S pos, String _ rest => substr pos rest
  end.

(** [s.erase(s.length() - 1)]: the last character goes; on the empty
    string the index wraps and the call throws ([None]). *)
Fixpoint erase_last (s : string) : option string :=
  match s with
  | EmptyString => None
  | String c EmptyString => Some EmptyString
  | String c rest =>
      match erase_last rest with
      | Some rest' => Some (String c rest')
      | None => None
      end
  end.

(** [entry.length() > 0]. *)
Definition named (entry : string) : bool := (0 <? String.length entry)%nat.

(** The loop over [GetCommonPrefixes()]: [*result] when the loop is
    left, and whether an exception left it ([*result] then holds what
    was pushed before). *)
Fixpoint push_common_prefixes (prefix : string) (objects : list string)
         (result : list string) : list string * bool :=
  match objects with
  | [] => (result, false)
  | object :: objects =>
      match erase_last object with
      | None => (result, true)
      | Some s =>
          match substr (strlen prefix) s with
          | None => (result, true)
          | Some entry =>
              push_common_prefixes prefix objects
                (if named entry
                 then result ++ [c_str entry] else result)
          end
      end
  end.

(** The loop over [GetContents()], likewise. *)
Fixpoint push_contents (prefix : string) (objects : list string)
         (result : list string) : list string * bool :=
  match objects with
  | [] => (result, false)
  | object :: objects =>
      match substr (strlen prefix) object with
      | None => (result, true)
      | Some entry =>
          push_contents prefix objects
            (if named entry
             then result ++ [c_str entry] else result)
      end
  end.

(** How a call of [GetChildren] ends. *)
Inductive Ending (A : Type) : Type :=
| Returned (a : A)      (** it returns *)
| Thrown (a : A)        (** a [std::out_of_range] leaves it *)
| Unfinished.           (** fuel ran out *)
Arguments Returned {A} a.
Arguments Thrown {A} a.
Arguments Unfinished {A}.

Section Children.
Context {W : Type} `{ListingClient W}.

(** The loop [do ... while (listObjectsResult.GetIsTruncated())] of
    [GetChildren], one page a round; [marker] is the marker of the
    request.  What ends the call carries [*result] and the world; a
    call that an exception leaves has no status, and [OK] stands in its
    place. *)
Fixpoint list_pages (fuel : nat) (bucket prefix marker : string)
         (result : list string) (w : W)
  : Ending ((Status * list string) * W) :=
  match fuel with
  | O => Unfinished
  | S fuel =>
      let listObjectsRequest :=
        mkListChildrenRequest (c_str bucket) (c_str prefix)
                              kS3GetChildrenMaxKeys "/" marker in
      let '(listObjectsOutcome, w) := ListChildren listObjectsRequest w in
      match listObjectsOutcome with
      | Failure e =>
          Returned
            ((errors_Unknown (GetExceptionName e ++ ": " ++ GetMessage e),
              result), w)
      | Success listObjectsResult =>
          let '(result, thrown) :=
            push_common_prefixes prefix
              (GetCommonPrefixes listObjectsResult) result in
          if thrown then Thrown ((Status_OK, result), w)
          else
            let '(result, thrown) :=
              push_contents prefix
                (GetContentKeys listObjectsResult) result in
            if thrown then Thrown ((Status_OK, result), w)
            else if GetIsTruncated listObjectsResult then
              list_pages fuel bucket prefix
                         (GetNextMarker listObjectsResult) result w
            else Returned ((Status_OK, result), w)
      end
  end.

(** [S3FileSystem::GetChildren(dir, result)]. *)
Definition GetChildren (fuel : nat) (dir : string) (result : list string)
           (w : W) : Ending ((Status * list string) * W) :=
  let '(status, (bucket, prefix)) := ParseS3Path dir false "" "" in
  if negb (ok status) then Returned ((status, result), w)
  else list_pages fuel bucket (push_back_slash prefix) "" result w.
End Children.

(** [S3FileSystem::NeedsTempLocation(path)]. *)
Definition NeedsTempLocation (path : string) : Status :=
  mkStatus error.FAILED_PRECONDITION "Does not need a temp location".

End S3FileSystem.

(** ** retrying_file_system.h *)

Module RetryingFileSystem.
Import RetryingUtils.

Section Wrapper.
(** The world: whatever the wrapped call, the random generator and
    [sleep] read and change. *)
Context {St : Type}.
Variable ToString : Status -> string.
Variable New64 : St -> Z * St.
Variable SleepForMicroseconds : Z -> St -> St.
(** The members [retriable_errors_] and [initial_delay_microseconds_]. *)
Variable retriable_errors_ : list error.Code.
Variable initial_delay_microseconds_ : Z.

(** [RetryingUtils::CallWithRetries(f, initial_delay, retriable_errors)]
    (retrying_utils.cc): the sleep is [Env::Default()]'s. *)
Definition CallWithRetries_Env (f : St -> Status * St)
           (initial_delay_microseconds : Z)
           (retriable_errors : list error.Code) (s : St)
  : option (Status * St) :=
  CallWithRetries ToString New64 f initial_delay_microseconds
                  SleepForMicroseconds retriable_errors s.

(** What [FileExists], [GetChildren], [Stat], [CreateDir], [GetFileSize],
    [RenameFile], [IsDirectory] and the methods of the retrying file
    handles are: the call on the wrapped object, [base], under
    [CallWithRetries]. *)
Definition retried (base : St -> Status * St) (s : St)
  : option (Status * St) :=
  CallWithRetries_Env base initial_delay_microseconds_ retriable_errors_ s.

(** What [DeleteFile], [DeleteDir] and [DeleteRecursively] are: the call
    on the wrapped object under [DeleteWithRetries]. *)
Definition retried_delete (base : St -> Status * St) (s : St)
  : option (Status * St) :=
  DeleteWithRetries ToString New64 SleepForMicroseconds base
                    initial_delay_microseconds_ retriable_errors_ s.
End Wrapper.

(** *** The wrapper over a service

    The world of a wrapped call is the service [W] together with the
    run-time ([Run]): the draws of [random::New64] come from [rand], the
    sleeps are logged and the calls of the wrapped object are counted. *)
Section OverService.
Context {W : Type}.
Variable rand : nat -> Z.

Definition service_New64 (s : W * Run) : Z * (W * Run) :=
  let '(r, run) := drawn rand (snd s) in (r, (fst s, run)).

Definition service_sleep (micros : Z) (s : W * Run) : W * Run :=
  (fst s, logged_sleep micros (snd s)).

(** A call of the wrapped file system, which sees the service only. *)
Definition on_service (op : W -> Status * W) (s : W * Run)
  : Status * (W * Run) :=
  let '(status, w) := op (fst s) in
  (status, (w, mkRun (S (calls (snd s))) (draws (snd s)) (slept (snd s)))).

(** A call that also writes through a pointer of the caller: the
    pointee [A] is part of the state. *)
Definition on_service_out {A : Type} (op : A -> W -> (Status * A) * W)
           (s : A * (W * Run)) : Status * (A * (W * Run)) :=
  let '((status, a), w) := op (fst s) (fst (snd s)) in
  let run := snd (snd s) in
  (status, (a, (w, mkRun (S (calls run)) (draws run) (slept run)))).

Definition out_New64 {A : Type} (s : A * (W * Run)) : Z * (A * (W * Run)) :=
  let '(r, s') := service_New64 (snd s) in (r, (fst s, s')).

Definition out_sleep {A : Type} (micros : Z) (s : A * (W * Run))
  : A * (W * Run) :=
  (fst s, service_sleep micros (snd s)).
End OverService.

(** *** [RetryingS3FileSystem] *)

Section OverS3.
Import Aws S3.
Context {W : Type} `{S3Client W} `{TransferManager W}.
Variable ToString : Status -> string.
Variable rand : nat -> Z.

(** [RetryingFileSystem::Stat(fname, stat)]. *)
Definition Stat (fname : string)
  : FileStatistics * (W * Run) ->
    option (Status * (FileStatistics * (W * Run))) :=
  retried ToString (out_New64 rand) out_sleep retriable_errors
          init_delay_time_us
          (on_service_out (fun stat w => S3.Stat fname stat w)).

(** [RetryingFileSystem::FileExists(fname)]. *)
Definition FileExists (fname : string)
  : W * Run -> option (Status * (W * Run)) :=
  retried ToString (service_New64 rand) service_sleep retriable_errors
          init_delay_time_us (on_service (S3.FileExists fname)).

(** [RetryingFileSystem::CreateDir(dirname)]. *)
Definition CreateDir (dirname : string)
  : W * Run -> option (Status * (W * Run)) :=
  retried ToString (service_New64 rand) service_sleep retriable_errors
          init_delay_time_us (on_service (S3.CreateDir dirname)).

(** [RetryingFileSystem::DeleteFile(fname)]. *)
Definition DeleteFile (fname : string)
  : W * Run -> option (Status * (W * Run)) :=
  retried_delete ToString (service_New64 rand) service_sleep
                 retriable_errors init_delay_time_us
                 (on_service (S3.DeleteFile fname)).

(** [RetryingFileSystem::DeleteDir(dirname)]. *)
Definition DeleteDir (dirname : string)
  : W * Run -> option (Status * (W * Run)) :=
  retried_delete ToString (service_New64 rand) service_sleep
                 retriable_errors init_delay_time_us
                 (on_service (S3.DeleteDir dirname)).

(** [RetryingRandomAccessFile::Read(offset, n, result, scratch)]; the
    pointees are [*result] and the buffer [scratch]. *)
Definition Read (base_file_ : S3RandomAccessFile) (offset n : Z)
  : (StringPiece * list byte) * (W * Run) ->
    option (Status * ((StringPiece * list byte) * (W * Run))) :=
  retried ToString (out_New64 rand) out_sleep retriable_errors
          init_delay_time_us
          (on_service_out
             (fun (out : StringPiece * list byte) w =>
                let '((status, result, scratch), w) :=
                  S3.Read base_file_ offset n (fst out) (snd out) w in
                ((status, (result, scratch)), w))).
End OverS3.

End RetryingFileSystem.


(** ** Further scenarios *)

Module Cases.
Import Aws S3 S3FileSystem Store.

(** Whether a name holds no slash, as a bucket name must. *)
Fixpoint no_slash (s : string) : bool :=
  match s with
  | EmptyString => true
  | String c rest => negb (Ascii.eqb c slash) && no_slash rest
  end.

(** The bucket ["b"], empty, where the next two uploads fail and the one
    after them completes. *)
Definition flaky_bucket : World :=
  mkWorld ["b"] [] 1700000000001 [FAILED; FAILED; COMPLETED] [].

(** The bucket ["b"], empty, where the next six upload attempts
    fail. *)
Definition failing_bucket : World :=
  mkWorld ["b"] [] 1700000000001 (repeat FAILED 6) [].

(** Draws of [New64] whose residues modulo 10^6 are 1, 2, 3, ... *)
Definition counting_jitter (k : nat) : Z := 7000001 + Z.of_nat k.

(** A key with a NUL in it, ["k"], NUL, ["x"], and its path. *)
Definition nul_key : string := String "k" (String zero "x").
Definition nul_path : string := "s3://b/" ++ nul_key.

(** The bucket holding the one-byte object ["k"] and nothing else. *)
Definition plain_file : World :=
  mkWorld ["b"] [("b", "k", mkBlob [x01] 1700000000001)]
          1700000000001 [] [].

(** One page of a listing under ["dir/"]: a sub-directory, the marker
    and a file. *)
Definition one_page : ListChildrenResult :=
  mkListChildrenResult ["dir/sub/"] ["dir/"; "dir/file"] "" false.

(** A service that answers every listing with that page; the world is
    the number of requests. *)
#[export] Instance one_page_client : ListingClient nat := {
  ListChildren := fun _ w => (Success one_page, S w)
}.

End Cases.


(* ================================================================== *)
(** * Part II.  Properties                                             *)
(* ================================================================== *)

(** ** Machine integers *)

Lemma u64_range (z : Z) : 0 <= u64 z < 2 ^ 64.
Proof. unfold u64. apply Z.mod_pos_bound. lia. Qed.

Lemma u64_small (z : Z) : 0 <= z < 2 ^ 64 -> u64 z = z.
Proof. intros H. unfold u64. apply Z.mod_small. exact H. Qed.

Lemma i64_small (z : Z) : - 2 ^ 63 <= z < 2 ^ 63 -> i64 z = z.
Proof. intros H. unfold i64. rewrite Z.mod_small; lia. Qed.

(** Without overflow the shift is the multiplication by a power of two. *)
Lemma shl64_exact (x k : Z) :
  0 <= k -> - 2 ^ 63 <= x * 2 ^ k < 2 ^ 63 -> shl64 x k = x * 2 ^ k.
Proof.
  intros Hk H. unfold shl64. rewrite Z.shiftl_mul_pow2 by exact Hk.
  apply i64_small. exact H.
Qed.

(** ** The retry envelope *)

Module RetryingFacts.
Import RetryingUtils.

Lemma jitter_range (r : Z) : 0 <= u64 r mod 1000000 < 1000000.
Proof. apply Z.mod_pos_bound. lia. Qed.

(** The arithmetic of one backoff delay. *)
Lemma delay_micros_of_bounds (initial retries r : Z) :
  let x := shl64 initial retries in
  (x < kMaximumBackoffMicroseconds ->
     x <= delay_micros_of initial retries r < x + 10 ^ 6) /\
  (kMaximumBackoffMicroseconds <= x ->
     kMaximumBackoffMicroseconds <= delay_micros_of initial retries r
       < kMaximumBackoffMicroseconds + 10 ^ 6).
Proof.
  intros x. unfold delay_micros_of. fold x.
  pose proof (jitter_range r) as Hj.
  change (10 ^ 6) with 1000000.
  split; intros Hx.
  - rewrite Z.min_l by lia. lia.
  - rewrite Z.min_r by lia. lia.
Qed.

Section Scripted.
Variable ToString : Status -> string.
Variable script : nat -> Status.
Variable rand : nat -> Z.
Variable initial : Z.
Variable retriable : list error.Code.

Let run (fuel : nat) (retries : Z) (w : Run) : option (Status * Run) :=
  retry_loop ToString (drawn rand) fuel (scripted script) initial
             logged_sleep retriable retries w.

Let after_retry := after_retry script rand initial.

Lemma run_unfold (fuel : nat) (retries : Z) (w : Run) :
  run (S fuel) retries w =
  if negb (IsRetriable retriable (code (script (calls w)))) then
    Some (script (calls w), snd (scripted script w))
  else if kMaxRetries <=? retries then
    Some (aborted ToString (script (calls w)), snd (scripted script w))
  else run fuel (retries + 1) (after_retry retries w).
Proof.
  unfold run, after_retry, RetryingUtils.after_retry. simpl.
  destruct (negb _); [reflexivity|].
  destruct (kMaxRetries <=? retries); [reflexivity|].
  destruct (0 <? initial); reflexivity.
Qed.

Lemma after_retry_calls (retries : Z) (w : Run) :
  calls (after_retry retries w) = S (calls w).
Proof.
  unfold after_retry, RetryingUtils.after_retry.
  destruct (0 <? initial); reflexivity.
Qed.

Lemma after_retry_slept (retries : Z) (w : Run) :
  exists d, (slept (after_retry retries w) = slept w ++ [d]) /\
            ((0 <? initial) = true ->
             exists r, d = delay_micros_of initial retries r).
Proof.
  unfold after_retry, RetryingUtils.after_retry.
  destruct (0 <? initial); simpl.
  - eexists. split; [reflexivity|]. intros _. eexists. reflexivity.
  - exists 0. split; [reflexivity|]. discriminate.
Qed.

(** The loop returns the first outcome that is not retriable. *)
Lemma run_stops (n : nat) :
  forall (fuel : nat) (retries : Z) (w : Run),
    (forall i, (i < n)%nat ->
       IsRetriable retriable (code (script (calls w + i))) = true) ->
    IsRetriable retriable (code (script (calls w + n))) = false ->
    retries + Z.of_nat n <= kMaxRetries ->
    (n < fuel)%nat ->
    exists w', (run fuel retries w = Some (script (calls w + n)%nat, w')) /\
               calls w' = S (calls w + n) /\
               List.length (slept w') = (List.length (slept w) + n)%nat.
Proof.
  induction n as [|n IH]; intros fuel retries w Hretr Hstop Hle Hfuel.
  - destruct fuel as [|fuel]; [lia|].
    rewrite run_unfold. rewrite Nat.add_0_r in *. rewrite Hstop. simpl.
    eexists. split; [reflexivity|]. simpl. split; [reflexivity | lia].
  - destruct fuel as [|fuel]; [lia|].
    rewrite run_unfold.
    pose proof (Hretr O ltac:(lia)) as H0. rewrite Nat.add_0_r in H0.
    rewrite H0. simpl.
    replace (kMaxRetries <=? retries) with false
      by (symmetry; apply Z.leb_gt; lia).
    destruct (IH fuel (retries + 1) (after_retry retries w))
      as (w' & Hrun & Hcalls & Hlen).
    + intros i Hi. rewrite after_retry_calls.
      replace (S (calls w) + i)%nat with (calls w + S i)%nat by lia.
      apply Hretr. lia.
    + rewrite after_retry_calls.
      replace (S (calls w) + n)%nat with (calls w + S n)%nat by lia.
      exact Hstop.
    + lia.
    + lia.
    + exists w'. rewrite Hrun, Hcalls, Hlen, after_retry_calls.
      destruct (after_retry_slept retries w) as (d & Hd & _).
      rewrite Hd, length_app. cbn [List.length].
      replace (calls w + S n)%nat with (S (calls w) + n)%nat by lia.
      split; [reflexivity|]. split; lia.
Qed.

(** When every outcome is retriable the loop gives up once [retries]
    has reached [kMaxRetries], on the outcome of that last call. *)
Lemma run_aborts (m : nat) :
  forall (fuel : nat) (retries : Z) (w : Run),
    retries + Z.of_nat m = kMaxRetries ->
    (forall i, (i <= m)%nat ->
       IsRetriable retriable (code (script (calls w + i))) = true) ->
    (m < fuel)%nat ->
    exists w', (run fuel retries w =
                 Some (aborted ToString (script (calls w + m)%nat), w')) /\
               calls w' = S (calls w + m) /\
               List.length (slept w') = (List.length (slept w) + m)%nat.
Proof.
  induction m as [|m IH]; intros fuel retries w Hsum Hretr Hfuel.
  - destruct fuel as [|fuel]; [lia|].
    rewrite run_unfold.
    pose proof (Hretr O ltac:(lia)) as H0. rewrite Nat.add_0_r in *.
    rewrite H0. simpl.
    replace (kMaxRetries <=? retries) with true
      by (symmetry; apply Z.leb_le; lia).
    eexists. split; [reflexivity|]. simpl. split; [reflexivity | lia].
  - destruct fuel as [|fuel]; [lia|].
    rewrite run_unfold.
    pose proof (Hretr O ltac:(lia)) as H0. rewrite Nat.add_0_r in H0.
    rewrite H0. simpl.
    replace (kMaxRetries <=? retries) with false
      by (symmetry; apply Z.leb_gt; lia).
    destruct (IH fuel (retries + 1) (after_retry retries w))
      as (w' & Hrun & Hcalls & Hlen).
    + lia.
    + intros i Hi. rewrite after_retry_calls.
      replace (S (calls w) + i)%nat with (calls w + S i)%nat by lia.
      apply Hretr. lia.
    + lia.
    + exists w'. rewrite Hrun, Hcalls, Hlen, after_retry_calls.
      destruct (after_retry_slept retries w) as (d & Hd & _).
      rewrite Hd, length_app. cbn [List.length].
      replace (calls w + S m)%nat with (S (calls w) + m)%nat by lia.
      split; [reflexivity|]. split; lia.
Qed.

(** Every sleep the loop adds to the log is the backoff delay of the
    round it was taken in. *)
Lemma run_sleeps (P : nat -> Z -> Prop) :
  (forall k r, (k < 10)%nat ->
     P k (delay_micros_of initial (Z.of_nat k) r)) ->
  0 < initial ->
  forall (fuel : nat) (retries : Z) (w : Run) st w',
    run fuel retries w = Some (st, w') ->
    retries = Z.of_nat (List.length (slept w)) ->
    (forall k d, nth_error (slept w) k = Some d -> P k d) ->
    (forall k d, nth_error (slept w') k = Some d -> P k d).
Proof.
  intros HP Hinit.
  induction fuel as [|fuel IH]; intros retries w st w' Hrun Hret Hlog.
  - discriminate.
  - rewrite run_unfold in Hrun.
    destruct (negb _).
    { injection Hrun as _ <-. exact Hlog. }
    destruct (kMaxRetries <=? retries) eqn:Hmax.
    { injection Hrun as _ <-. exact Hlog. }
    apply Z.leb_gt in Hmax. unfold kMaxRetries in Hmax.
    destruct (after_retry_slept retries w) as (d & Hd & Hdelay).
    destruct (Hdelay ltac:(apply Z.ltb_lt; exact Hinit)) as (r & ->).
    apply (IH _ _ _ _ Hrun).
    + rewrite Hd, length_app. simpl. lia.
    + intros k d' Hk. rewrite Hd in Hk.
      destruct (Nat.lt_ge_cases k (List.length (slept w))) as [Hlt|Hge].
      * rewrite nth_error_app1 in Hk by exact Hlt. apply Hlog. exact Hk.
      * rewrite nth_error_app2 in Hk by exact Hge.
        destruct (k - List.length (slept w))%nat as [|j] eqn:Hj.
        -- simpl in Hk. injection Hk as <-.
           assert (k = List.length (slept w)) as -> by lia.
           rewrite Hret. apply HP. lia.
        -- simpl in Hk. destruct j; discriminate.
Qed.

(** The log of a call, exactly.  In a world where the loop counter, the
    calls and the draws go together, the loop adds one sleep for each
    retriable outcome it meets, up to [kMaxRetries] in all; the sleep
    after outcome [k] is the backoff delay of round [k] with the [k]-th
    draw; and the outcome it stops at before [kMaxRetries] is not
    retriable. *)
Lemma run_log :
  0 < initial ->
  forall (fuel : nat) (retries : Z) (w : Run) st w',
    run fuel retries w = Some (st, w') ->
    retries = Z.of_nat (calls w) -> retries <= kMaxRetries ->
    draws w = calls w ->
    exists n : nat,
      slept w' =
        slept w ++
        map (fun k => delay_micros_of initial (Z.of_nat k) (rand k))
            (seq (calls w) n) /\
      (calls w + n <= 10)%nat /\
      (forall i, (calls w <= i < calls w + n)%nat ->
         IsRetriable retriable (code (script i)) = true) /\
      ((calls w + n < 10)%nat ->
       IsRetriable retriable (code (script (calls w + n))) = false).
Proof.
  intros Hinit.
  induction fuel as [|fuel IH]; intros retries w st w' Hrun Hret Hmax Hdraws;
    [discriminate|].
  unfold kMaxRetries in Hmax.
  rewrite run_unfold in Hrun.
  destruct (IsRetriable retriable (code (script (calls w)))) eqn:Hretr;
    cbn [negb] in Hrun.
  2: { injection Hrun as _ <-. exists O. cbn [seq map scripted snd slept].
       rewrite app_nil_r, Nat.add_0_r.
       split; [reflexivity|]. split; [lia|]. split; [intros i Hi; lia|].
       intros _. exact Hretr. }
  destruct (kMaxRetries <=? retries) eqn:Hfull.
  { injection Hrun as _ <-. apply Z.leb_le in Hfull. unfold kMaxRetries in Hfull.
    exists O. cbn [seq map scripted snd slept].
    rewrite app_nil_r, Nat.add_0_r.
    split; [reflexivity|]. split; [lia|]. split; [intros i Hi; lia|]. lia. }
  apply Z.leb_gt in Hfull. unfold kMaxRetries in Hfull.
  assert (Hafter : after_retry retries w =
            mkRun (S (calls w)) (S (draws w))
                  (slept w ++
                   [delay_micros_of initial (Z.of_nat (calls w))
                                    (rand (calls w))])).
  { unfold after_retry, RetryingUtils.after_retry.
    replace (0 <? initial) with true by (symmetry; apply Z.ltb_lt; exact Hinit).
    cbn [scripted drawn logged_sleep snd calls draws slept].
    rewrite Hret, Hdraws. reflexivity. }
  rewrite Hafter in Hrun.
  destruct (IH _ _ _ _ Hrun) as (n & Hslept & Hn & Hall & Hstop);
    cbn [calls draws slept] in *.
  - lia.
  - unfold kMaxRetries. lia.
  - rewrite Hdraws. reflexivity.
  - exists (S n). cbn [seq map]. rewrite Hslept, <- app_assoc.
    split; [reflexivity|]. split; [lia|]. split.
    + intros i Hi. destruct (Nat.eq_dec i (calls w)) as [->|Hne];
        [exact Hretr | apply Hall; lia].
    + intros Hlt. replace (calls w + S n)%nat with (S (calls w) + n)%nat by lia.
      apply Hstop. lia.
Qed.

(** The loop always returns: [kMaxRetries - retries + 1] rounds are
    enough. *)
Lemma run_total :
  forall (fuel : nat) (retries : Z) (w : Run),
    (Z.to_nat (kMaxRetries - retries) < fuel)%nat ->
    exists r, run fuel retries w = Some r.
Proof.
  induction fuel as [|fuel IH]; intros retries w Hfuel; [lia|].
  rewrite run_unfold.
  destruct (negb _); [eexists; reflexivity|].
  destruct (kMaxRetries <=? retries) eqn:Hmax; [eexists; reflexivity|].
  apply Z.leb_gt in Hmax. apply IH. lia.
Qed.
End Scripted.

(** The retried delete is the retried call on the absorbed outcomes. *)
Lemma delete_loop_absorbs ToString script rand initial retriable :
  forall (fuel : nat) (retries : Z) (w : Run),
    match
      retry_loop ToString
        (fun sb : Run * bool =>
           let '(r, s) := drawn rand (fst sb) in (r, (s, snd sb)))
        fuel (delete_lambda (scripted script)) initial
        (fun micros sb => (logged_sleep micros (fst sb), snd sb))
        retriable retries (w, negb (Nat.eqb (calls w) 0))
    with
    | Some (status, (s, _)) => Some (status, s)
    | None => None
    end =
    retry_loop ToString (drawn rand) fuel
               (scripted (absorb_not_found script)) initial
               logged_sleep retriable retries w.
Proof.
  induction fuel as [|fuel IH]; intros retries w; [reflexivity|].
  cbn [retry_loop delete_lambda scripted].
  assert (Hsame :
    (if negb (Nat.eqb (calls w) 0) &&
        error.eqb (code (script (calls w))) error.NOT_FOUND
     then Status_OK else script (calls w)) =
    absorb_not_found script (calls w)).
  { unfold absorb_not_found. destruct (calls w); reflexivity. }
  destruct (negb (Nat.eqb (calls w) 0) &&
            error.eqb (code (script (calls w))) error.NOT_FOUND) eqn:Hab;
    rewrite <- Hsame.
  - apply andb_prop in Hab. destruct Hab as [Hb _].
    destruct (negb (IsRetriable retriable (code Status_OK)));
      [reflexivity|].
    destruct (kMaxRetries <=? retries); [reflexivity|].
    rewrite Hb.
    destruct (0 <? initial); cbn [drawn fst snd logged_sleep];
      match goal with
      | |- context [retry_loop _ _ _ _ _ _ _ _ (?w', true)] =>
          specialize (IH (retries + 1) w'); simpl in IH; exact IH
      end.
  - destruct (negb (IsRetriable retriable (code (script (calls w)))));
      [reflexivity|].
    destruct (kMaxRetries <=? retries); [reflexivity|].
    destruct (0 <? initial); cbn [drawn fst snd logged_sleep];
      match goal with
      | |- context [retry_loop _ _ _ _ _ _ _ _ (?w', true)] =>
          specialize (IH (retries + 1) w'); simpl in IH; exact IH
      end.
Qed.

End RetryingFacts.

(* ------------------------------------------------------------------ *)
(** ** The claims on the retry envelope                                *)
(* ------------------------------------------------------------------ *)

Section RetryClaims.
Import RetryingUtils RetryingFacts.

Variable ToString : Status -> string.
Variable script : nat -> Status.
Variable rand : nat -> Z.
Variable initial : Z.
Variable retriable : list error.Code.

(** C3.  [CallWithRetries] returns the first outcome of [f] whose code
    is not retriable, provided it comes within [kMaxRetries = 10]
    retries (so [OK] as soon as [f] succeeds, [OK] not being a retriable
    code); [f] has then been called once more than the loop has slept.
    When the first [kMaxRetries + 1] outcomes are all retriable it
    returns one [ABORTED] status whose message ends with the rendering
    of the last, eleventh, outcome. *)
Theorem CallWithRetries_first_non_retriable_or_aborted :
  let result :=
    CallWithRetries ToString (drawn rand) (scripted script) initial
                    logged_sleep retriable start in
  (forall n : nat,
      (n <= 10)%nat ->
      (forall i, (i < n)%nat ->
         IsRetriable retriable (code (script i)) = true) ->
      IsRetriable retriable (code (script n)) = false ->
      exists w, result = Some (script n, w) /\
                calls w = S n /\ List.length (slept w) = n) /\
  (forall n : nat,
      (n <= 10)%nat ->
      (forall i, (i < n)%nat ->
         IsRetriable retriable (code (script i)) = true) ->
      IsRetriable retriable error.OK = false ->
      code (script n) = error.OK ->
      exists w, result = Some (script n, w) /\ ok (script n) = true) /\
  ((forall i, (i <= 10)%nat ->
      IsRetriable retriable (code (script i)) = true) ->
   exists w,
     result =
       Some (mkStatus error.ABORTED
               ("All 10 retry attempts failed. The last failure: " ++
                ToString (script 10%nat)), w) /\
     calls w = 11%nat /\ List.length (slept w) = 10%nat).
Proof.
  intros result.
  assert (Hfirst : forall n : nat,
      (n <= 10)%nat ->
      (forall i, (i < n)%nat ->
         IsRetriable retriable (code (script i)) = true) ->
      IsRetriable retriable (code (script n)) = false ->
      exists w, result = Some (script n, w) /\
                calls w = S n /\ List.length (slept w) = n).
  { intros n Hn Hretr Hstop.
    destruct (run_stops ToString script rand initial retriable n
                (S (Z.to_nat kMaxRetries)) 0 start)
      as (w & Hrun & Hcalls & Hlen).
    - exact Hretr.
    - exact Hstop.
    - unfold kMaxRetries. lia.
    - unfold kMaxRetries. simpl. lia.
    - exists w. split; [exact Hrun|]. split; [exact Hcalls | exact Hlen]. }
  split; [exact Hfirst|]. split.
  - intros n Hn Hretr Hok Hcode.
    destruct (Hfirst n Hn Hretr) as (w & Hw & _).
    + rewrite Hcode. exact Hok.
    + exists w. split; [exact Hw|]. unfold ok. rewrite Hcode. reflexivity.
  - intros Hretr.
    destruct (run_aborts ToString script rand initial retriable 10
                (S (Z.to_nat kMaxRetries)) 0 start)
      as (w & Hrun & Hcalls & Hlen).
    + reflexivity.
    + exact Hretr.
    + simpl. lia.
    + exists w. split; [exact Hrun|]. split; [exact Hcalls | exact Hlen].
Qed.

(** C5.  [DeleteWithRetries] is [CallWithRetries] on the outcomes of
    [delete_func] in which every [NOT_FOUND] after the first attempt is
    rewritten to [OK]; against a delete that is [UNAVAILABLE] twice and
    then [NOT_FOUND] it returns [OK], after three calls and two
    sleeps. *)
Theorem DeleteWithRetries_absorbs_not_found :
  DeleteWithRetries ToString (drawn rand) logged_sleep (scripted script)
                    initial retriable start =
  CallWithRetries ToString (drawn rand)
                  (scripted (absorb_not_found script)) initial
                  logged_sleep retriable start /\
  (code (script 0%nat) = error.UNAVAILABLE ->
   code (script 1%nat) = error.UNAVAILABLE ->
   code (script 2%nat) = error.NOT_FOUND ->
   IsRetriable retriable error.UNAVAILABLE = true ->
   IsRetriable retriable error.OK = false ->
   exists w,
     DeleteWithRetries ToString (drawn rand) logged_sleep
                       (scripted script) initial retriable start =
       Some (Status_OK, w) /\
     calls w = 3%nat /\ List.length (slept w) = 2%nat).
Proof.
  assert (Heq :
    DeleteWithRetries ToString (drawn rand) logged_sleep (scripted script)
                      initial retriable start =
    CallWithRetries ToString (drawn rand)
                    (scripted (absorb_not_found script)) initial
                    logged_sleep retriable start).
  { unfold DeleteWithRetries, CallWithRetries.
    exact (delete_loop_absorbs ToString script rand initial retriable
             (S (Z.to_nat kMaxRetries)) 0 start). }
  split; [exact Heq|].
  intros H0 H1 H2 Hun Hok. rewrite Heq.
  destruct (run_stops ToString (absorb_not_found script) rand initial
              retriable 2 (S (Z.to_nat kMaxRetries)) 0 start)
    as (w & Hrun & Hcalls & Hlen).
  - intros i Hi. simpl.
    destruct i as [|[|i]]; [ | | lia]; simpl.
    + rewrite H0. exact Hun.
    + rewrite H1. simpl. rewrite H1. exact Hun.
  - simpl. rewrite H2. simpl. exact Hok.
  - unfold kMaxRetries. lia.
  - simpl. lia.
  - exists w. simpl in Hrun. rewrite H2 in Hrun. simpl in Hrun.
    split; [exact Hrun|]. split; [exact Hcalls | exact Hlen].
Qed.

(** C8, as amended.  For an initial delay [0 < initial < 2^54], where no
    shift of the loop overflows ([initial << k = initial * 2^k] for every
    [k < 10]): the call returns; it sleeps after outcome [k] of [f], for
    [k < 10], exactly when the outcomes [0 .. k] are all retriable; and
    that sleep, the [k]-th (counted from 0), lasts
    [min (initial * 2^k, 32,000,000) + jitter] microseconds, where the
    jitter is the [k]-th draw of [New64] modulo [10^6], so within
    [0, 10^6).  It lies in [[initial * 2^k, initial * 2^k + 10^6)] as long
    as [initial * 2^k] is below [kMaximumBackoffMicroseconds = 32,000,000],
    and in [[32,000,000, 32,000,000 + 10^6)] once some [initial * 2^j],
    [j <= k], has reached it: the shift applies to the base delay alone
    and the jitter is added after the clamp. *)
Theorem CallWithRetries_backoff_bounds :
  0 < initial < 2 ^ 54 ->
  exists st w,
    CallWithRetries ToString (drawn rand) (scripted script) initial
                    logged_sleep retriable start = Some (st, w) /\
    (forall k : nat,
        (k < 10)%nat ->
        (forall i, (i <= k)%nat ->
           IsRetriable retriable (code (script i)) = true) ->
        exists d, nth_error (slept w) k = Some d) /\
    (forall (k : nat) (d : Z),
        nth_error (slept w) k = Some d ->
        let base := initial * 2 ^ Z.of_nat k in
        let jitter := u64 (rand k) mod 1000000 in
        (k < 10)%nat /\
        (forall i, (i <= k)%nat ->
           IsRetriable retriable (code (script i)) = true) /\
        shl64 initial (Z.of_nat k) = base /\
        0 <= jitter < 10 ^ 6 /\
        d = Z.min base 32000000 + jitter /\
        (base < 32000000 -> base <= d < base + 10 ^ 6) /\
        (forall j : nat,
            (j <= k)%nat -> 32000000 <= initial * 2 ^ Z.of_nat j ->
            32000000 <= d < 32000000 + 10 ^ 6)).
Proof.
  intros Hinit.
  destruct (run_total ToString script rand initial retriable
              (S (Z.to_nat kMaxRetries)) 0 start) as ((st & w) & Hrun).
  { simpl. lia. }
  exists st, w. split; [exact Hrun|].
  destruct (run_log ToString script rand initial retriable
              ltac:(lia) _ _ _ _ _ Hrun)
    as (n & Hslept & Hn & Hall & Hstop);
    [reflexivity | unfold kMaxRetries; lia | reflexivity |].
  cbn [start calls slept app Nat.add] in Hslept, Hn, Hall, Hstop.
  assert (Hnth : forall k,
            (k < n)%nat ->
            nth_error (slept w) k =
            Some (delay_micros_of initial (Z.of_nat k) (rand k))).
  { intros k Hk. rewrite Hslept.
    rewrite nth_error_map, nth_error_seq.
    replace (k <? n)%nat with true by (symmetry; apply Nat.ltb_lt; exact Hk).
    reflexivity. }
  split.
  - intros k Hk Hretr.
    destruct (Nat.lt_ge_cases k n) as [Hlt|Hge].
    + eexists. apply Hnth. exact Hlt.
    + specialize (Hretr n Hge). rewrite Hstop in Hretr by lia.
      discriminate.
  - intros k d Hd base jitter.
    assert (Hk : (k < n)%nat).
    { assert (Hsome : nth_error (slept w) k <> None) by congruence.
      apply nth_error_Some in Hsome. rewrite Hslept in Hsome.
      rewrite length_map, length_seq in Hsome. exact Hsome. }
    rewrite (Hnth k Hk) in Hd. injection Hd as <-.
    assert (Hpow : 0 < 2 ^ Z.of_nat k <= 2 ^ 9).
    { split; [apply Z.pow_pos_nonneg; lia|].
      apply Z.pow_le_mono_r; lia. }
    assert (Hshift : shl64 initial (Z.of_nat k) = base).
    { apply shl64_exact; [lia|]. unfold base.
      change (2 ^ 9) with 512 in Hpow. nia. }
    pose proof (jitter_range (rand k)) as Hj. fold jitter in Hj.
    change (10 ^ 6) with 1000000.
    unfold delay_micros_of. rewrite Hshift. fold jitter.
    unfold kMaximumBackoffMicroseconds.
    split; [lia|]. split; [intros i Hi; apply Hall; lia|].
    split; [reflexivity|]. split; [exact Hj|]. split; [reflexivity|].
    split.
    + intros Hbelow. rewrite Z.min_l by lia. lia.
    + intros j Hjk Hreached.
      assert (Hmono : initial * 2 ^ Z.of_nat j <= base).
      { unfold base. apply Z.mul_le_mono_nonneg_l; [lia|].
        apply Z.pow_le_mono_r; lia. }
      rewrite Z.min_r by lia. lia.
Qed.
End RetryClaims.

(** ** Strings and paths *)

Module PathFacts.
Import S3.

Lemma prefix_length (p s : string) :
  prefix p s = true -> (String.length p <= String.length s)%nat.
Proof.
  revert s. induction p as [|c p IH]; intros s Hp; simpl; [lia|].
  destruct s as [|d s]; simpl in Hp; [discriminate|].
  destruct (ascii_dec c d); [|discriminate].
  simpl. apply IH in Hp. lia.
Qed.

Lemma length_append (s t : string) :
  String.length (s ++ t) = (String.length s + String.length t)%nat.
Proof. induction s as [|c s IH]; simpl; [reflexivity | rewrite IH; reflexivity]. Qed.

(** A key does not start with itself followed by a slash. *)
Lemma prefix_key_slash (key : string) : prefix (key ++ "/") key = false.
Proof.
  destruct (prefix (key ++ "/") key) eqn:Hp; [|reflexivity].
  apply prefix_length in Hp. rewrite length_append in Hp. simpl in Hp. lia.
Qed.

Lemma push_back_slash_appends (s : string) :
  back_is_not_slash s = true -> push_back_slash s = (s ++ "/")%string.
Proof. intros Hs. unfold push_back_slash. rewrite Hs. reflexivity. Qed.

Lemma push_back_slash_keeps (s : string) :
  back_is_not_slash s = false -> push_back_slash s = s.
Proof. intros Hs. unfold push_back_slash. rewrite Hs. reflexivity. Qed.

Lemma strlen_no_nul (s : string) :
  no_nul s = true -> strlen s = String.length s.
Proof.
  induction s as [|c s IH]; cbn [no_nul strlen String.length];
    [reflexivity|].
  intros Hs. apply andb_prop in Hs. destruct Hs as [Hc Hs].
  apply negb_true_iff in Hc. rewrite Hc, IH by exact Hs. reflexivity.
Qed.

Lemma c_str_no_nul (s : string) : no_nul s = true -> c_str s = s.
Proof.
  induction s as [|c s IH]; cbn [no_nul c_str]; [reflexivity|].
  intros Hs. apply andb_prop in Hs. destruct Hs as [Hc Hs].
  apply negb_true_iff in Hc. rewrite Hc, IH by exact Hs. reflexivity.
Qed.

Lemma no_nul_append (s t : string) :
  no_nul (s ++ t) = no_nul s && no_nul t.
Proof.
  induction s as [|c s IH]; cbn [append no_nul]; [reflexivity|].
  rewrite IH. apply andb_assoc.
Qed.

(** A string with a NUL is cut there, whatever is appended to it. *)
Lemma c_str_append_nul (s t : string) :
  no_nul s = false -> c_str (s ++ t) = c_str s.
Proof.
  induction s as [|c s IH]; cbn [no_nul append c_str]; [discriminate|].
  destruct (Ascii.eqb c zero); cbn [negb andb]; [reflexivity|].
  intros Hs. rewrite IH by exact Hs. reflexivity.
Qed.

(** The prefix [Stat] and [DeleteDir] send for a key with a NUL is the
    key up to the NUL: the slash is cut off with the rest. *)
Lemma c_str_push_back_slash_nul (key : string) :
  no_nul key = false -> c_str (push_back_slash key) = c_str key.
Proof.
  intros Hkey. unfold push_back_slash.
  destruct (back_is_not_slash key); [|reflexivity].
  apply c_str_append_nul. exact Hkey.
Qed.

(** [mtime_nsec] is an [int64], whatever the time stamp. *)
Lemma Millis_times_1e6_int64 (millis : Z) :
  - 2 ^ 63 <= Millis_times_1e6 millis < 2 ^ 63.
Proof.
  unfold Millis_times_1e6, int64_of_double.
  destruct (SFmul 53 1024 (double_of_int64 millis) (double_of_int64 1000000))
    as [sg| | |sg m e]; try lia.
  match goal with
  | |- context [if ?c then _ else _] => destruct c eqn:Hfits
  end; [|lia].
  apply andb_prop in Hfits. destruct Hfits as [Hlow Hhigh].
  apply Z.leb_le in Hlow. apply Z.ltb_lt in Hhigh. lia.
Qed.

(** A key without a NUL reaches the service whole, and so does the
    prefix made of it. *)
Lemma c_str_push_back_slash (key : string) :
  no_nul key = true -> c_str (push_back_slash key) = push_back_slash key.
Proof.
  intros Hkey. apply c_str_no_nul. unfold push_back_slash.
  destruct (back_is_not_slash key); [|exact Hkey].
  rewrite no_nul_append, Hkey. reflexivity.
Qed.

(** A path that parses with its key required parses to the same bucket
    and key, the key not empty, when the key is optional. *)
Lemma ParseS3Path_required (fname : string) (status : Status)
      (bucket key : string) :
  ParseS3Path fname false "" "" = (status, (bucket, key)) ->
  ok status = true ->
  ParseS3Path fname true "" "" = (Status_OK, (bucket, key)) /\
  String.eqb key "" = false /\ status = Status_OK.
Proof.
  unfold ParseS3Path.
  destruct (ParseURI fname) as [[scheme bucketp] objectp].
  destruct (negb (String.eqb scheme "s3")).
  { intros [= <- _ _] Hok. discriminate. }
  destruct (String.eqb bucketp "" || String.eqb bucketp ".").
  { intros [= <- _ _] Hok. discriminate. }
  cbn [negb andb].
  destruct (String.eqb (ConsumePrefix_slash objectp) "") eqn:Hkey.
  { intros [= <- _ _] Hok. discriminate. }
  intros [= <- <- <-] _. rewrite Hkey. auto.
Qed.

End PathFacts.

(** ** The object store *)

Module StoreFacts.
Import Aws S3 Store PathFacts.

Lemma same_listed (bucket key pre : string) (e : string * string * Blob) :
  prefix pre key = false -> same bucket key e = true ->
  listed bucket pre e = false.
Proof.
  destruct e as [[b k] blob]. unfold same, listed. intros Hpre Hsame.
  apply andb_prop in Hsame. destruct Hsame as [_ Hk].
  apply String.eqb_eq in Hk. subst k. rewrite Hpre. apply andb_false_r.
Qed.

Lemma filter_insert (P : string * string * Blob -> bool) e objs :
  P e = false -> filter P (insert e objs) = filter P objs.
Proof.
  intros He. induction objs as [|e' objs IH]; simpl.
  - rewrite He. reflexivity.
  - destruct (String.ltb (snd (fst e)) (snd (fst e'))); simpl.
    + rewrite He. reflexivity.
    + rewrite IH. reflexivity.
Qed.

Lemma filter_remove (bucket key pre : string) objs :
  prefix pre key = false ->
  filter (listed bucket pre) (remove bucket key objs) =
  filter (listed bucket pre) objs.
Proof.
  intros Hpre. unfold remove.
  induction objs as [|e objs IH]; simpl; [reflexivity|].
  destruct (same bucket key e) eqn:Hsame; simpl.
  - rewrite (same_listed bucket key pre e Hpre Hsame). exact IH.
  - rewrite IH. reflexivity.
Qed.

(** Writing a key leaves every listing that does not show it as it was. *)
Lemma listing_put (bucket key pre : string) (blob : Blob) objs :
  prefix pre key = false ->
  filter (listed bucket pre) (put bucket key blob objs) =
  filter (listed bucket pre) objs.
Proof.
  intros Hpre. unfold put. rewrite filter_insert.
  - apply filter_remove. exact Hpre.
  - unfold listed. rewrite Hpre. apply andb_false_r.
Qed.

Lemma find_remove (bucket key : string) objs :
  find (same bucket key) (remove bucket key objs) = None.
Proof.
  unfold remove. induction objs as [|e objs IH]; simpl; [reflexivity|].
  destruct (same bucket key e) eqn:Hsame; simpl; [exact IH|].
  rewrite Hsame. exact IH.
Qed.

Lemma find_insert (bucket key : string) (blob : Blob) objs :
  find (same bucket key) objs = None ->
  find (same bucket key) (insert (bucket, key, blob) objs) =
  Some (bucket, key, blob).
Proof.
  assert (Hself : same bucket key (bucket, key, blob) = true).
  { unfold same. rewrite !String.eqb_refl. reflexivity. }
  induction objs as [|e objs IH]; intros Hnone; cbn [insert find fst snd].
  - rewrite Hself. reflexivity.
  - cbn [find] in Hnone.
    destruct (same bucket key e) eqn:He; [discriminate|].
    destruct (String.ltb key (snd (fst e))); cbn [find].
    + rewrite Hself. reflexivity.
    + rewrite He. apply IH. exact Hnone.
Qed.

(** A key reads back the blob it was written with. *)
Lemma lookup_put (bucket key : string) (blob : Blob) objs :
  lookup bucket key (put bucket key blob objs) = Some blob.
Proof.
  unfold lookup, put. rewrite find_insert; [reflexivity|]. apply find_remove.
Qed.

Lemma filter_none {A : Type} (P : A -> bool) (l : list A) :
  (forall e, In e l -> P e = false) -> filter P l = [].
Proof.
  induction l as [|a l IH]; intros Hall; simpl; [reflexivity|].
  rewrite (Hall a (or_introl eq_refl)). apply IH.
  intros e He. apply Hall. right. exact He.
Qed.

End StoreFacts.

(** ** Uploads of the spill file to the object store *)

Module WriterFacts.
Import Aws S3 Store PathFacts StoreFacts.

Lemma TransferStatus_eqb_eq (a b : TransferStatus) :
  TransferStatus_eqb a b = true <-> a = b.
Proof. destruct a, b; simpl; split; intros H; congruence. Qed.

Section OneFile.
Variables (b k : string) (body : list byte) (t : Z).
Variable objs0 : list (string * string * Blob).

(** What holds between the attempts to upload [body] to [(b, k)]: the
    object is the new version exactly when the last attempt completed. *)
Let sent (h : TransferHandle) (o : TempFile) (w : World) : Prop :=
  GetBucketName h = b /\ handle_GetKey h = k /\ contents o = body /\
  now w = t /\
  ((GetStatus h = COMPLETED /\
    objects w = put b k (mkBlob body t) objs0) \/
   (GetStatus h <> COMPLETED /\ objects w = objs0)).

Lemma attempt_sent call o w h o' w' :
  contents o = body -> now w = t -> objects w = objs0 ->
  attempt call o b k w = ((h, o'), w') ->
  sent h o' w' /\ journal w' = journal w ++ [call].
Proof.
  intros Hbody Hnow Hobjs. unfold attempt.
  destruct (match transfers w with
            | [] => (COMPLETED, [])
            | st :: rest => (st, rest)
            end) as [status rest].
  destruct (TransferStatus_eqb
              (if bucket_exists b w then status else FAILED) COMPLETED)
    eqn:Hst; intros [= <- <- <-]; unfold sent; cbn.
  - rewrite Hbody, Hnow, Hobjs. repeat split; auto.
  - rewrite Hbody, Hnow, Hobjs. repeat split; auto. right. split; auto.
    intros Heq. apply TransferStatus_eqb_eq in Heq. congruence.
Qed.

Lemma retry_upload_sent (rounds : nat) :
  forall o h w h' o' w',
    sent h o w ->
    retry_upload rounds o h w = ((h', o'), w') ->
    sent h' o' w' /\ exists tail, journal w' = journal w ++ tail.
Proof.
  induction rounds as [|rounds IH]; intros o h w h' o' w' Hsent; cbn [retry_upload].
  - destruct (TransferStatus_eqb (GetStatus h) FAILED);
      intros [= <- <- <-]; (split; [exact Hsent | exists []; symmetry; apply app_nil_r]).
  - destruct (TransferStatus_eqb (GetStatus h) FAILED) eqn:Hfailed.
    + apply TransferStatus_eqb_eq in Hfailed.
      destruct Hsent as (Hb & Hk & Hbody & Hnow & Hobjs).
      destruct Hobjs as [[Hdone _] | [_ Hobjs]]; [congruence|].
      cbn [RetryUpload store_transfer_manager]. unfold store_RetryUpload.
      rewrite Hb, Hk.
      destruct (attempt (CallRetryUpload b k (contents o)) o b k w)
        as [[h1 o1] w1] eqn:Hattempt.
      apply (attempt_sent _ _ _ _ _ _ Hbody Hnow Hobjs) in Hattempt.
      destruct Hattempt as [Hsent1 Hj1].
      intros Hrest. apply (IH _ _ _ _ _ _ Hsent1) in Hrest.
      destruct Hrest as [Hsent' [tail Hj]].
      split; [exact Hsent'|]. eexists. rewrite Hj, Hj1, <- app_assoc.
      reflexivity.
    + intros [= <- <- <-].
      split; [exact Hsent | exists []; symmetry; apply app_nil_r].
Qed.
End OneFile.

(** [Sync] of a file that needs it, against the object store: the first
    thing the service sees is the upload of the whole spill file; the
    call is [OK] exactly when the object has become the contents of the
    spill file, and otherwise the objects are as they were.  The flag
    [sync_needed_] is what it was. *)
Lemma Sync_store (this : S3WritableFile) (outfile : TempFile) (w : World)
      (status : Status) (this' : S3WritableFile) (w' : World) :
  outfile_ this = Some outfile ->
  sync_needed_ this = true ->
  Sync this w = ((status, this'), w') ->
  (exists tail,
      journal w' =
        journal w ++
        CallUploadFile (c_str (bucket_ this)) (c_str (object_ this))
                       (contents outfile)
        :: tail) /\
  now w' = now w /\
  sync_needed_ this' = true /\
  (ok status = true ->
     status = Status_OK /\
     objects w' =
       put (c_str (bucket_ this)) (c_str (object_ this))
           (mkBlob (contents outfile) (now w)) (objects w) /\
     exists outfile', outfile_ this' = Some outfile' /\
                      contents outfile' = contents outfile) /\
  (ok status = false -> objects w' = objects w).
Proof.
  intros Hout Hneeded. unfold Sync. rewrite Hout, Hneeded. cbn [negb].
  cbn [UploadFile store_transfer_manager]. unfold store_UploadFile.
  destruct (attempt _ outfile (c_str (bucket_ this)) (c_str (object_ this)) w)
    as [[h1 o1] w1] eqn:Hattempt.
  apply (attempt_sent (c_str (bucket_ this)) (c_str (object_ this))
           (contents outfile)
           (now w) (objects w) _ _ _ _ _ _ eq_refl eq_refl eq_refl)
    in Hattempt.
  destruct Hattempt as [Hsent1 Hj1].
  destruct (retry_upload kUploadRetries o1 h1 w1) as [[h2 o2] w2] eqn:Hretry.
  apply (retry_upload_sent _ _ _ _ _ _ _ _ _ _ _ _ Hsent1) in Hretry.
  destruct Hretry as [(_ & _ & Hbody & Hnow & Hobjs) [tail Hj]].
  destruct (TransferStatus_eqb (GetStatus h2) COMPLETED) eqn:Hdone;
    cbn [negb]; intros [= <- <- <-]; cbn [sync_needed_ set_outfile outfile_].
  - apply TransferStatus_eqb_eq in Hdone.
    destruct Hobjs as [[_ Hobjs] | [Hnot _]]; [|congruence].
    split; [exists tail; rewrite Hj, Hj1, <- app_assoc; reflexivity|].
    split; [exact Hnow|]. split; [exact Hneeded|].
    split; [|discriminate].
    intros _. split; [reflexivity|]. split; [exact Hobjs|].
    eexists. split; [reflexivity|].
    unfold seekp, clear. cbn [good contents].
    destruct (0 <=? tellp outfile); exact Hbody.
  - destruct Hobjs as [[Hyes _] | [_ Hobjs]].
    { apply TransferStatus_eqb_eq in Hyes. congruence. }
    split; [exists tail; rewrite Hj, Hj1, <- app_assoc; reflexivity|].
    split; [exact Hnow|]. split; [exact Hneeded|].
    split; [discriminate|]. intros _. exact Hobjs.
Qed.

(** [Close] of an open file is its [Sync], and releases the spill file
    when that went well. *)
Lemma Close_open (this : S3WritableFile) (outfile : TempFile) (w : World) :
  outfile_ this = Some outfile ->
  Close this w =
  (let '((status, this'), w') := Sync this w in
   if ok status then ((Status_OK, set_outfile this' None), w')
   else ((status, this'), w')).
Proof.
  intros Hout. unfold Close. rewrite Hout.
  destruct (Sync this w) as [[status this'] w'].
  destruct (ok status); reflexivity.
Qed.

(** A fresh file holds, after its first [Append], the bytes appended. *)
Lemma Append_fresh (bucket key : string) (data : list byte) :
  Append (S3WritableFile_new bucket key) data =
  (Status_OK,
   mkS3WritableFile bucket key true
     (Some (mkTempFile data (Z.of_nat (List.length data)) true))).
Proof.
  unfold Append, S3WritableFile_new, write, TempFile_open.
  cbn [outfile_ good contents position bucket_ object_ negb Z.to_nat firstn
       Nat.add app].
  rewrite skipn_nil, app_nil_r. reflexivity.
Qed.

End WriterFacts.

(** ** Reading the object store back *)

Module ReaderFacts.
Import Aws S3 Store PathFacts StoreFacts.

(** [Stat] of a key that holds an object while the probe of [Stat]
    lists nothing: the statistics of a file. *)
Lemma Stat_store_file (fname bucket key : string) (blob : Blob)
      (stats : FileStatistics) (w : World) :
  ParseS3Path fname true "" "" = (Status_OK, (bucket, key)) ->
  String.eqb key "" = false ->
  lookup (c_str bucket) (c_str key) (objects w) = Some blob ->
  filter (listed (c_str bucket) (c_str (push_back_slash key))) (objects w)
    = [] ->
  Stat fname stats w =
  ((Status_OK,
    mkFileStatistics (Z.of_nat (List.length (blob_body blob)))
                     (Millis_times_1e6 (blob_last_modified blob)) false), w).
Proof.
  intros Hparse Hkey Hlookup Hlist. unfold Stat.
  rewrite Hparse, Hkey.
  change (negb (ok Status_OK)) with false. cbv iota.
  cbn [HeadObject ListObjects store_client].
  unfold store_HeadObject, store_ListObjects. rewrite Hlookup.
  cbn [list_Bucket list_Prefix list_MaxKeys].
  rewrite Hlist, firstn_nil.
  reflexivity.
Qed.

(** Reading a whole, non-empty object into a buffer of its size. *)
Lemma Read_store_whole (bucket key : string) (b : list byte) (t : Z)
      (piece : StringPiece) (w : World) :
  lookup (c_str bucket) (c_str key) (objects w) = Some (mkBlob b t) ->
  b <> [] ->
  Z.of_nat (List.length b) < 2 ^ 64 ->
  Read (mkS3RandomAccessFile bucket key) 0 (Z.of_nat (List.length b)) piece
       (new_char_array (Z.of_nat (List.length b))) w =
  ((Status_OK, mkStringPiece b (Z.of_nat (List.length b)), b), w).
Proof.
  intros Hlookup Hne Hlen. unfold Read.
  cbn [GetObject store_client]. unfold store_GetObject.
  cbn [get_Bucket get_Key get_RangeFirst get_RangeLast raf_bucket_
       raf_object_].
  rewrite Hlookup. cbn [blob_body].
  assert (Hpos : 1 <= Z.of_nat (List.length b)).
  { destruct b; [congruence | cbn [List.length]; lia]. }
  set (L := Z.of_nat (List.length b)) in *.
  replace (0 + L - 1) with (L - 1) by lia.
  rewrite (u64_small (L - 1)) by lia.
  replace (L <=? 0) with false by (symmetry; apply Z.leb_gt; lia).
  replace (L - 1 <? 0) with false by (symmetry; apply Z.ltb_ge; lia).
  rewrite Z.min_id. replace (L - 1 - 0 + 1) with L by lia.
  cbn [GetContentLength GetBody]. rewrite (u64_small L) by lia.
  assert (Hall : firstn (Z.to_nat L) (skipn (Z.to_nat 0) b) = b).
  { change (Z.to_nat 0) with O. cbn [skipn]. unfold L.
    rewrite Nat2Z.id. apply firstn_all. }
  rewrite Hall. unfold body_read, StringPiece_of, new_char_array.
  assert (Hfirst : firstn (Z.to_nat L) b = b).
  { unfold L. rewrite Nat2Z.id. apply firstn_all. }
  rewrite Hfirst.
  assert (Hskip : skipn (List.length b) (repeat x00 (Z.to_nat L)) = []).
  { apply skipn_all2. rewrite repeat_length. unfold L. rewrite Nat2Z.id. lia. }
  rewrite Hskip, app_nil_r, Hfirst. reflexivity.
Qed.

End ReaderFacts.

(* ------------------------------------------------------------------ *)
(** ** The claims on the file system                                   *)
(* ------------------------------------------------------------------ *)

Section StoreClaims.
Import Aws S3 Store PathFacts StoreFacts WriterFacts ReaderFacts.

(** [write_file] that ends well has made the object the bytes written
    and has left every other key as it was. *)
Lemma write_file_stores (fname bucket key : string) (b : list byte)
      (w : World) (status : Status) (w' : World) :
  ParseS3Path fname false "" "" = (Status_OK, (bucket, key)) ->
  write_file fname b w = (status, w') ->
  ok status = true ->
  objects w' = put (c_str bucket) (c_str key) (mkBlob b (now w)) (objects w).
Proof.
  intros Hparse. unfold write_file, NewWritableFile. rewrite Hparse.
  change (negb (ok Status_OK)) with false. cbv iota.
  rewrite Append_fresh. change (negb (ok Status_OK)) with false. cbv iota.
  rewrite Close_open
    with (outfile := mkTempFile b (Z.of_nat (List.length b)) true)
    by reflexivity.
  destruct (Sync _ w) as [[st this'] w1] eqn:Hsync.
  apply Sync_store
    with (outfile := mkTempFile b (Z.of_nat (List.length b)) true)
    in Hsync; [|reflexivity|reflexivity].
  destruct Hsync as (_ & _ & _ & Hok & _).
  destruct (ok st) eqn:Hst.
  - intros [= <- <-] _. destruct (Hok eq_refl) as (_ & Hobjs & _).
    exact Hobjs.
  - intros [= <- <-] Habs. congruence.
Qed.

(** C1, as amended.  For a path [s3://bucket/key] whose key holds no
    NUL and does not end in a slash, in a store where no key of the
    bucket starts with [key/], and a non-empty byte sequence [b] (shorter
    than 2^64): when open-write, append [b], close ends well, read-region
    gives exactly [b] and [Stat] gives a file of length [|b|].  (The
    bucket is the one the requests name: [bucket.c_str()].) *)
Theorem write_close_read_region_round_trip :
  forall (fname bucket key : string) (b : list byte)
         (w : World) (status : Status) (w' : World),
    ParseS3Path fname false "" "" = (Status_OK, (bucket, key)) ->
    no_nul key = true ->
    back_is_not_slash key = true ->
    (forall e, In e (objects w) ->
               listed (c_str bucket) (key ++ "/") e = false) ->
    b <> [] ->
    Z.of_nat (List.length b) < 2 ^ 64 ->
    write_file fname b w = (status, w') ->
    ok status = true ->
    fst (NewReadOnlyMemoryRegionFromFile fname None w') =
      (Status_OK,
       Some (mkS3ReadOnlyMemoryRegion b (Z.of_nat (List.length b)))) /\
    exists stats,
      fst (Stat fname FileStatistics_default w') = (Status_OK, stats) /\
      stat_length stats = Z.of_nat (List.length b) /\
      stat_is_directory stats = false.
Proof.
  intros fname bucket key b w status w' Hparse Hnul Hback Hnone Hne Hlen
         Hwrite Hok.
  pose proof (write_file_stores _ _ _ _ _ _ _ Hparse Hwrite Hok) as Hobjs.
  destruct (ParseS3Path_required _ _ _ _ Hparse eq_refl)
    as (Hparse' & Hkey & _).
  assert (Hlookup : lookup (c_str bucket) (c_str key) (objects w') =
                    Some (mkBlob b (now w))).
  { rewrite Hobjs. apply lookup_put. }
  assert (Hlist : filter (listed (c_str bucket) (c_str (push_back_slash key)))
                         (objects w') = []).
  { rewrite (c_str_push_back_slash key Hnul),
      (push_back_slash_appends key Hback), Hobjs.
    rewrite (c_str_no_nul key Hnul).
    rewrite listing_put by apply prefix_key_slash.
    apply filter_none. exact Hnone. }
  pose proof (Stat_store_file fname bucket key _ FileStatistics_default w'
                Hparse' Hkey Hlookup Hlist) as Hstat.
  cbn [blob_body blob_last_modified] in Hstat.
  split.
  - unfold NewReadOnlyMemoryRegionFromFile, GetFileSize.
    rewrite Hstat. change (negb (ok Status_OK)) with false. cbv iota.
    cbn [stat_length]. rewrite u64_small by lia.
    unfold NewRandomAccessFile. rewrite Hparse.
    change (negb (ok Status_OK)) with false. cbv iota.
    rewrite (Read_store_whole bucket key b (now w) _ w' Hlookup Hne Hlen).
    reflexivity.
  - eexists. rewrite Hstat. split; [reflexivity|]. split; reflexivity.
Qed.

End StoreClaims.

(** ** The flag [sync_needed_] *)

Section FlagFacts.
Import Aws S3.
Context {W : Type} `{TransferManager W}.

(** [Sync] changes neither the name of the object nor [sync_needed_]. *)
Lemma Sync_keeps_flag (this : S3WritableFile) (w : W) :
  let this' := snd (fst (Sync this w)) in
  sync_needed_ this' = sync_needed_ this /\
  bucket_ this' = bucket_ this /\ object_ this' = object_ this.
Proof.
  unfold Sync. destruct (outfile_ this) as [outfile|]; [|cbn; auto].
  destruct (negb (sync_needed_ this)); [cbn; auto|].
  destruct (UploadFile _ _ _ _ w) as [[h1 o1] w1].
  destruct (retry_upload _ o1 h1 w1) as [[h2 o2] w2].
  destruct (negb _); cbn; auto.
Qed.

Lemma Close_keeps_flag (this : S3WritableFile) (w : W) :
  sync_needed_ (snd (fst (Close this w))) = sync_needed_ this.
Proof.
  unfold Close. destruct (outfile_ this) as [outfile|]; [|reflexivity].
  pose proof (Sync_keeps_flag this w) as [Hflag _].
  destruct (Sync this w) as [[status this'] w'].
  destruct (negb (ok status)); exact Hflag.
Qed.

Lemma Append_sets_flag (this : S3WritableFile) (data : list byte) :
  sync_needed_ this = true -> sync_needed_ (snd (Append this data)) = true.
Proof.
  intros Hflag. unfold Append.
  destruct (outfile_ this) as [outfile|]; [|exact Hflag].
  destruct (negb _); reflexivity.
Qed.

(** No sequence of operations on a writable file clears [sync_needed_]:
    the flag is [true] from the constructor on. *)
Lemma sync_needed_never_cleared (ops : list Op) :
  forall (this : S3WritableFile) (w : W),
    sync_needed_ this = true ->
    sync_needed_ (snd (fst (drive ops this w))) = true.
Proof.
  induction ops as [|op ops IH]; intros this w Hflag; [exact Hflag|].
  cbn [drive].
  assert (Hstep : sync_needed_ (snd (fst (step op this w))) = true).
  { destruct op; cbn [step fst snd].
    - apply Append_sets_flag. exact Hflag.
    - unfold Flush. rewrite (proj1 (Sync_keeps_flag this w)). exact Hflag.
    - rewrite (proj1 (Sync_keeps_flag this w)). exact Hflag.
    - rewrite Close_keeps_flag. exact Hflag. }
  destruct (step op this w) as [[status this1] w1]. cbn [fst snd] in Hstep.
  specialize (IH this1 w1 Hstep).
  destruct (drive ops this1 w1) as [[statuses this2] w2]. exact IH.
Qed.
End FlagFacts.

(** ** The claims on the writable file *)

Section WriterClaims.
Import Aws S3 Store PathFacts StoreFacts WriterFacts ReaderFacts.

(** On the object store [Stat] only reads. *)
Lemma Stat_store_reads (fname : string) (stats : FileStatistics) (w : World) :
  snd (Stat fname stats w) = w.
Proof.
  unfold Stat. destruct (ParseS3Path fname true "" "") as [st [b k]].
  destruct (negb (ok st)); [reflexivity|].
  destruct (String.eqb k "").
  - cbn [HeadBucket store_client]. unfold store_HeadBucket.
    destruct (bucket_exists _ w); reflexivity.
  - cbn [HeadObject ListObjects store_client].
    unfold store_HeadObject, store_ListObjects.
    destruct (lookup _ _ (objects w));
      cbn [GetContents];
      match goal with
      | |- context [map ?f ?l] => destruct (map f l)
      end; reflexivity.
Qed.

Lemma FileExists_store_reads (fname : string) (w : World) :
  snd (FileExists fname w) = w.
Proof.
  unfold FileExists. pose proof (Stat_store_reads fname FileStatistics_default w) as Hw.
  destruct (Stat fname FileStatistics_default w) as [[st stats] w1].
  cbn [snd] in Hw. subst w1. destruct (negb (ok st)); reflexivity.
Qed.

(** C4, at the failing input.  After an [Append] and a [Sync] that ended
    well, [sync_needed_] is still [true], and the next [Sync], with no
    [Append] in between, uploads the whole spill file again. *)
Theorem Sync_after_successful_Sync_uploads_again :
  forall (bucket object : string) (data : list byte) (w : World)
         (status1 : Status) (this1 : S3WritableFile) (w1 : World)
         (status2 : Status) (this2 : S3WritableFile) (w2 : World),
    Sync (snd (Append (S3WritableFile_new bucket object) data)) w =
      ((status1, this1), w1) ->
    ok status1 = true ->
    Sync this1 w1 = ((status2, this2), w2) ->
    sync_needed_ this1 = true /\
    exists tail,
      journal w2 =
        journal w1 ++
        CallUploadFile (c_str bucket) (c_str object) data :: tail.
Proof.
  intros bucket object data w status1 this1 w1 status2 this2 w2.
  rewrite Append_fresh. cbn [snd]. intros Hsync1 Hok Hsync2.
  pose proof (Sync_keeps_flag
                (mkS3WritableFile bucket object true
                   (Some (mkTempFile data (Z.of_nat (List.length data)) true)))
                w) as Hkeeps.
  rewrite Hsync1 in Hkeeps. cbn [fst snd sync_needed_ bucket_ object_] in Hkeeps.
  destruct Hkeeps as (Hflag & Hbucket & Hobject).
  apply Sync_store
    with (outfile := mkTempFile data (Z.of_nat (List.length data)) true)
    in Hsync1; [|reflexivity|reflexivity].
  destruct Hsync1 as (_ & _ & _ & Hdone & _).
  destruct (Hdone Hok) as (_ & _ & outfile' & Hout & Hcontents).
  split; [exact Hflag|].
  apply Sync_store with (outfile := outfile') in Hsync2;
    [|exact Hout|exact Hflag].
  destruct Hsync2 as ((tail & Hj) & _).
  exists tail. rewrite Hj, Hbucket, Hobject, Hcontents. reflexivity.
Qed.


End WriterClaims.

(** ** The claims that hold of every S3 client *)

Section ClientClaims.
Import Aws S3 Store.
Context {W : Type} `{S3Client W}.

(** C7.  [Read] asks for the bytes [offset .. offset + n - 1].  When the
    answer is the error 416 it returns [OUT_OF_RANGE] and an empty
    result (0 bytes read); when the answer is a success it returns [OK]
    and a result whose length is the content length of the response; on
    any other error it returns [UNKNOWN] and leaves the result alone.
    Against a ten-byte object, reading 100 bytes from offset 5 gives the
    last 5 bytes, and reading from offset 10 gives [OUT_OF_RANGE] and no
    bytes. *)
Theorem Read_status_and_bytes_read :
  forall (this : S3RandomAccessFile) (offset n : Z) (result : StringPiece)
         (scratch : list byte) (w : W),
    let request :=
      mkGetObjectRequest (c_str (raf_bucket_ this)) (c_str (raf_object_ this))
                         offset (u64 (offset + n - 1)) in
    (forall e w',
        GetObject request w = (Failure e, w') ->
        GetResponseCode e = 416 ->
        exists status,
          Read this offset n result scratch w =
            ((status, mkStringPiece [] 0, scratch), w') /\
          code status = error.OUT_OF_RANGE) /\
    (forall r w',
        GetObject request w = (Success r, w') ->
        exists piece scratch',
          Read this offset n result scratch w =
            ((Status_OK, piece, scratch'), w') /\
          sp_size piece = u64 (GetContentLength r) /\
          (0 <= GetContentLength r < 2 ^ 64 ->
           sp_size piece = GetContentLength r)) /\
    (forall e w',
        GetObject request w = (Failure e, w') ->
        GetResponseCode e <> 416 ->
        exists status,
          Read this offset n result scratch w =
            ((status, result, scratch), w') /\
          code status = error.UNKNOWN) /\
    (let file := mkS3RandomAccessFile "b" "k" in
     let first :=
       Read file 5 100 (mkStringPiece [] 0) (new_char_array 100)
            Scenario.ten_byte_object in
     let second :=
       Read file 10 100 (mkStringPiece [] 0) (new_char_array 100)
            Scenario.ten_byte_object in
     fst (fst (fst first)) = Status_OK /\
     snd (fst (fst first)) = mkStringPiece [x05; x06; x07; x08; x09] 5 /\
     code (fst (fst (fst second))) = error.OUT_OF_RANGE /\
     snd (fst (fst second)) = mkStringPiece [] 0).
Proof.
  intros this offset n result scratch w request.
  split; [|split; [|split]].
  - intros e w' Hget Hcode. unfold Read. fold request. rewrite Hget.
    replace (GetResponseCode e =? REQUESTED_RANGE_NOT_SATISFIABLE) with true
      by (symmetry; apply Z.eqb_eq; exact Hcode).
    eexists. split; reflexivity.
  - intros r w' Hget. unfold Read. fold request. rewrite Hget.
    eexists. eexists. split; [reflexivity|]. cbn [sp_size StringPiece_of].
    split; [reflexivity|]. intros Hrange. apply u64_small. exact Hrange.
  - intros e w' Hget Hcode. unfold Read. fold request. rewrite Hget.
    replace (GetResponseCode e =? REQUESTED_RANGE_NOT_SATISFIABLE) with false
      by (symmetry; apply Z.eqb_neq; exact Hcode).
    eexists. split; reflexivity.
  - vm_compute. repeat split; reflexivity.
Qed.

(** C9.  When the listing that [DeleteDir] asks for fails, whatever the
    failure, [DeleteDir] returns [OK]; the world is the one the failed
    listing left, nothing having been deleted. *)
Theorem DeleteDir_ignores_failed_listing :
  forall (dirname bucket object : string) (status : Status)
         (w : W) (e : AWSError) (w' : W),
    ParseS3Path dirname false "" "" = (status, (bucket, object)) ->
    ok status = true ->
    ListObjects
      (mkListObjectsRequest (c_str bucket) (c_str (push_back_slash object)) 2)
      w = (Failure e, w') ->
    DeleteDir dirname w = (Status_OK, w').
Proof.
  intros dirname bucket object status w e w' Hparse Hok Hlist.
  unfold DeleteDir. rewrite Hparse, Hok. cbn [negb]. rewrite Hlist.
  reflexivity.
Qed.

(** C6, as amended.  [Stat] of a path with a non-empty key probes
    [ListObjects] with max-keys 1 and the prefix
    [push_back_slash key] as a C string: for a key without a NUL, the
    key followed by a slash, or the key itself when it already ends in
    one; for a key with a NUL, the key up to that NUL, without a slash.
    When the probe returns an object the result is [OK] with length 0,
    [is_directory], and [mtime_nsec] the product [LastModified * 1e6] of
    the first object as the source computes it (in double precision,
    converted to an [int64]), whatever [HeadObject] said.  When
    [HeadObject] failed and the probe failed or returned nothing, the
    result is [NOT_FOUND]. *)
Theorem Stat_directory_wins_or_not_found :
  forall (fname bucket object : string) (stats : FileStatistics)
         (w : W) (head : Outcome HeadObjectResult) (w1 : W)
         (listing : Outcome ListObjectsResult) (w2 : W),
    ParseS3Path fname true "" "" = (Status_OK, (bucket, object)) ->
    String.eqb object "" = false ->
    HeadObject (c_str bucket) (c_str object) w = (head, w1) ->
    ListObjects
      (mkListObjectsRequest (c_str bucket) (c_str (push_back_slash object)) 1)
      w1 = (listing, w2) ->
    (forall r first rest,
        listing = Success r -> GetContents r = first :: rest ->
        Stat fname stats w =
          ((Status_OK,
            mkFileStatistics 0 (Millis_times_1e6 (GetLastModified first))
                             true), w2) /\
        - 2 ^ 63 <= Millis_times_1e6 (GetLastModified first) < 2 ^ 63) /\
    (IsSuccess head = false ->
     (forall r, listing = Success r -> GetContents r = []) ->
     Stat fname stats w =
       ((mkStatus error.NOT_FOUND ("Object " ++ fname ++ " does not exist"),
         stats), w2)) /\
    (no_nul object = true -> back_is_not_slash object = true ->
     c_str (push_back_slash object) = (object ++ "/")%string) /\
    (no_nul object = true -> back_is_not_slash object = false ->
     c_str (push_back_slash object) = object) /\
    (no_nul object = false ->
     c_str (push_back_slash object) = c_str object).
Proof.
  intros fname bucket object stats w head w1 listing w2
         Hparse Hkey Hhead Hlist.
  split; [|split; [|split; [|split]]].
  - intros r first rest -> Hcontents.
    split; [|apply PathFacts.Millis_times_1e6_int64].
    unfold Stat. rewrite Hparse, Hkey.
    change (negb (ok Status_OK)) with false. cbv iota.
    rewrite Hhead.
    destruct head; rewrite Hlist, Hcontents; reflexivity.
  - intros Hfailed Hempty. unfold Stat. rewrite Hparse, Hkey.
    change (negb (ok Status_OK)) with false. cbv iota.
    rewrite Hhead. destruct head as [r|e]; [discriminate|].
    rewrite Hlist. destruct listing as [r|e'].
    + rewrite (Hempty r eq_refl). reflexivity.
    + reflexivity.
  - intros Hnul Hback.
    rewrite (PathFacts.c_str_push_back_slash object Hnul).
    apply PathFacts.push_back_slash_appends. exact Hback.
  - intros Hnul Hback.
    rewrite (PathFacts.c_str_push_back_slash object Hnul).
    apply PathFacts.push_back_slash_keeps. exact Hback.
  - apply PathFacts.c_str_push_back_slash_nul.
Qed.

End ClientClaims.

(** ** The multipart copy *)

Section CopyClaims.
Import Aws S3.

(** C2, at the failing input.  For a source of 11 MiB and the part size
    of 5 MiB, against a service on which every call succeeds,
    [MultiPartCopy] computes [numParts = 2] and issues six
    [UploadPartCopy] requests: three with [PartNumber] 0 and a range that
    starts at [(0 - 1) * part_size] wrapped to 64 bits (with the start
    printed twice), then three with [PartNumber] 1 and the range of the
    first 5 MiB.  No request carries [PartNumber] 2 or 3 and the last
    MiB is never copied; control then leaves the function without a
    [return]. *)
Theorem MultiPartCopy_11MiB_part_copies :
  let run := Recorder.copy (11 * Scenario.MiB) "s3://b/src" "b/src" "b" "tgt" in
  fst run = None /\
  Recorder.part_copies (snd run) =
    [ (0, "bytes=1844674407370430873618446744073704308736-18446744073709551615");
      (0, "bytes=1844674407370430873618446744073704308736-18446744073709551615");
      (0, "bytes=1844674407370430873618446744073704308736-18446744073709551615");
      (1, "bytes=00-5242879");
      (1, "bytes=00-5242879");
      (1, "bytes=00-5242879") ].
Proof. vm_compute. split; reflexivity. Qed.

End CopyClaims.

(** ** Counterexamples and instances *)

Section Instances.
Import Aws S3 Store Offline RetryingUtils.

(** Why the round trip asks for a key without a NUL.  The path with the
    key ["k"], NUL, ["x"] parses; the byte written to it goes to the
    object ["k"], and [Stat] of the same path probes the prefix ["k"],
    finds that object and reports a directory of length 0. *)
Lemma round_trip_of_a_key_with_a_NUL :
  let after := write_file Cases.nul_path [x01] Scenario.empty_bucket in
  fst (ParseS3Path Cases.nul_path false "" "") = Status_OK /\
  fst after = Status_OK /\
  objects (snd after) = [("b", "k", mkBlob [x01] 1700000000001)] /\
  fst (Stat Cases.nul_path FileStatistics_default (snd after)) =
    (Status_OK, mkFileStatistics 0 (Millis_times_1e6 1700000000001) true).
Proof. vm_compute. repeat split; reflexivity. Qed.

(** The time stamps at the edge of [int64]: 9223372036854 ms is the last
    whose product with [1e6] fits, and from 9223372036855 ms on [Stat]
    reports [INT64_MIN]. *)
Lemma mtime_nsec_at_the_edge_of_int64 :
  Millis_times_1e6 9223372036854 = 9223372036853999616 /\
  Millis_times_1e6 9223372036855 = - 2 ^ 63 /\
  Millis_times_1e6 (- 9223372036854) = - 9223372036853999616 /\
  Millis_times_1e6 (- 9223372036855) = - 2 ^ 63.
Proof. vm_compute. repeat split; reflexivity. Qed.

(** C1 fails as stated.  (1) Written to a key that ends in a slash, one
    byte reads back as a directory of length 0, and so does the region.
    (2) Written to the key ["d"] while ["d/x"] exists, likewise.
    (3) Written empty, the object cannot be read as a region: the read
    of its 0 bytes is out of range. *)
Lemma round_trip_fails_for_directories_and_empty_files :
  (let after := write_file "s3://b/d/" [x01] Scenario.empty_bucket in
   fst after = Status_OK /\
   fst (Stat "s3://b/d/" FileStatistics_default (snd after)) =
     (Status_OK, mkFileStatistics 0 (Millis_times_1e6 1700000000001) true) /\
   option_map length_
     (snd (fst (NewReadOnlyMemoryRegionFromFile "s3://b/d/" None (snd after))))
     = Some 0) /\
  (let after := write_file "s3://b/d" [x01] Scenario.one_child in
   fst after = Status_OK /\
   fst (Stat "s3://b/d" FileStatistics_default (snd after)) =
     (Status_OK, mkFileStatistics 0 (Millis_times_1e6 1700000000001) true)) /\
  (let after := write_file "s3://b/k" [] Scenario.empty_bucket in
   fst after = Status_OK /\
   fst (NewReadOnlyMemoryRegionFromFile "s3://b/k" None (snd after)) =
     (mkStatus error.OUT_OF_RANGE "Read less bytes than requested", None)).
Proof. vm_compute. repeat split; reflexivity. Qed.

(** C6 fails as stated.  In a bucket that holds only ["d/x"], [Stat] of
    [s3://b/d/] (key ["d/"]): [HeadObject] fails and a listing with the
    prefix [key ++ "/"] and max-keys 1 returns nothing, yet [Stat] does
    not return [NOT_FOUND]; the probe it makes has the prefix ["d/"].
    And the [mtime_nsec] it reports for 1700000000001 ms is not
    1700000000001000000. *)
Lemma Stat_probe_prefix_is_not_key_slash :
  ParseS3Path "s3://b/d/" true "" "" = (Status_OK, ("b", "d/")) /\
  fst (HeadObject "b" "d/" Scenario.one_child) = Failure no_such_key /\
  fst (ListObjects (mkListObjectsRequest "b" ("d/" ++ "/") 1)
                   Scenario.one_child) =
    Success (mkListObjectsResult []) /\
  fst (Stat "s3://b/d/" FileStatistics_default Scenario.one_child) =
    (Status_OK, mkFileStatistics 0 1700000000000999936 true) /\
  Millis_times_1e6 1700000000001 <> 1700000000001 * 1000000.
Proof. vm_compute. repeat split; try reflexivity. discriminate. Qed.

(** The round trip of three bytes written to [s3://b/k] in an empty
    bucket. *)
Lemma write_close_read_region_round_trip_witness :
  fst (NewReadOnlyMemoryRegionFromFile "s3://b/k" None
         (snd (write_file "s3://b/k" [x01; x02; x03] Scenario.empty_bucket))) =
    (Status_OK, Some (mkS3ReadOnlyMemoryRegion [x01; x02; x03] 3)) /\
  exists stats,
    fst (Stat "s3://b/k" FileStatistics_default
           (snd (write_file "s3://b/k" [x01; x02; x03] Scenario.empty_bucket))) =
      (Status_OK, stats) /\
    stat_length stats = 3 /\ stat_is_directory stats = false.
Proof.
  apply (write_close_read_region_round_trip
           "s3://b/k" "b" "k" [x01; x02; x03] Scenario.empty_bucket
           (fst (write_file "s3://b/k" [x01; x02; x03] Scenario.empty_bucket))).
  - reflexivity.
  - reflexivity.
  - reflexivity.
  - intros e [].
  - discriminate.
  - reflexivity.
  - reflexivity.
  - reflexivity.
Defined.

(** A call that succeeds at its third attempt, and one that never
    does, under the retry configuration of the S3 file system. *)
Lemma CallWithRetries_first_non_retriable_or_aborted_witness :
  (exists w,
      CallWithRetries Scenario.render (drawn Scenario.no_jitter)
        (scripted Scenario.flaky_call) init_delay_time_us logged_sleep
        retriable_errors start = Some (Status_OK, w) /\
      calls w = 3%nat /\ List.length (slept w) = 2%nat) /\
  (exists w,
      CallWithRetries Scenario.render (drawn Scenario.no_jitter)
        (scripted Scenario.always_unavailable) init_delay_time_us
        logged_sleep retriable_errors start =
        Some (mkStatus error.ABORTED
                "All 10 retry attempts failed. The last failure: unavailable",
              w) /\
      calls w = 11%nat /\ List.length (slept w) = 10%nat).
Proof.
  split.
  - apply (proj1 (CallWithRetries_first_non_retriable_or_aborted
                    Scenario.render Scenario.flaky_call Scenario.no_jitter
                    init_delay_time_us retriable_errors) 2%nat).
    + repeat constructor.
    + intros i Hi. destruct i as [|[|i]]; [reflexivity | reflexivity |].
      exfalso. apply Nat.succ_lt_mono in Hi. apply Nat.succ_lt_mono in Hi.
      exact (Nat.nlt_0_r _ Hi).
    + reflexivity.
  - apply (proj2 (proj2 (CallWithRetries_first_non_retriable_or_aborted
                    Scenario.render Scenario.always_unavailable
                    Scenario.no_jitter init_delay_time_us retriable_errors))).
    intros i _. reflexivity.
Defined.

(** The delete that is unavailable twice and then finds nothing. *)
Lemma DeleteWithRetries_absorbs_not_found_witness :
  exists w,
    DeleteWithRetries Scenario.render (drawn Scenario.no_jitter) logged_sleep
      (scripted Scenario.flaky_delete) init_delay_time_us retriable_errors
      start = Some (Status_OK, w) /\
    calls w = 3%nat /\ List.length (slept w) = 2%nat.
Proof.
  apply (proj2 (DeleteWithRetries_absorbs_not_found
                  Scenario.render Scenario.flaky_delete Scenario.no_jitter
                  init_delay_time_us retriable_errors));
    reflexivity.
Defined.

(** C8 fails as stated.  With an initial delay of 2^62 microseconds
    (and no jitter) the shift overflows: the first sleep is clamped to
    32,000,000, the second lasts [-2^63] microseconds and the others 0,
    although the shifted delay had reached the maximum.  With 2^61 + 1
    the fourth sleep ([k = 3]) lasts 8 microseconds. *)
Lemma backoff_overflows_for_large_initial_delays :
  option_map (fun r => slept (snd r))
    (CallWithRetries Scenario.render (drawn Scenario.no_jitter)
       (scripted Scenario.always_unavailable) (2 ^ 62) logged_sleep
       retriable_errors start) =
    Some [32000000; - 2 ^ 63; 0; 0; 0; 0; 0; 0; 0; 0] /\
  option_map (fun r => slept (snd r))
    (CallWithRetries Scenario.render (drawn Scenario.no_jitter)
       (scripted Scenario.always_unavailable) (2 ^ 61 + 1) logged_sleep
       retriable_errors start) =
    Some [32000000; 32000000; - 2 ^ 63 + 4; 8; 16; 32; 64; 128; 256; 512] /\
  shl64 (2 ^ 62) 1 = - 2 ^ 63 /\
  shl64 (2 ^ 61 + 1) 3 = 8.
Proof. vm_compute. repeat split; reflexivity. Qed.

(** The ten sleeps of a call that is never available, from 100 ms on,
    with the jitters 1, 2, ..., 10 microseconds: the delay doubles up to
    25.6 s and the tenth is clamped to 32 s. *)
Lemma CallWithRetries_backoff_bounds_witness :
  exists st w,
    CallWithRetries Scenario.render (drawn Cases.counting_jitter)
      (scripted Scenario.always_unavailable) init_delay_time_us logged_sleep
      retriable_errors start = Some (st, w) /\
    slept w =
      [100001; 200002; 400003; 800004; 1600005; 3200006; 6400007;
       12800008; 25600009; 32000010] /\
    forall (k : nat) (d : Z),
      nth_error (slept w) k = Some d ->
      d = Z.min (init_delay_time_us * 2 ^ Z.of_nat k) 32000000 +
          u64 (Cases.counting_jitter k) mod 1000000.
Proof.
  destruct (CallWithRetries_backoff_bounds
              Scenario.render Scenario.always_unavailable
              Cases.counting_jitter init_delay_time_us retriable_errors)
    as (st & w & Hrun & _ & Hall).
  - unfold init_delay_time_us. lia.
  - exists st, w. split; [exact Hrun|]. split.
    + vm_compute in Hrun. injection Hrun as _ <-. reflexivity.
    + intros k d Hk. destruct (Hall k d Hk) as (_ & _ & _ & _ & Hd & _).
      exact Hd.
Defined.

(** One byte appended, then two [Sync]s in a row. *)
Lemma Sync_after_successful_Sync_uploads_again_witness :
  let first :=
    Sync (snd (Append (S3WritableFile_new "b" "k") [x01]))
         Scenario.empty_bucket in
  let second := Sync (snd (fst first)) (snd first) in
  sync_needed_ (snd (fst first)) = true /\
  exists tail,
    journal (snd second) =
      journal (snd first) ++ CallUploadFile "b" "k" [x01] :: tail.
Proof.
  apply (Sync_after_successful_Sync_uploads_again
           "b" "k" [x01] Scenario.empty_bucket
           (fst (fst (Sync (snd (Append (S3WritableFile_new "b" "k") [x01]))
                           Scenario.empty_bucket)))
           _ _
           (fst (fst (Sync
                   (snd (fst (Sync (snd (Append (S3WritableFile_new "b" "k")
                                                [x01]))
                                   Scenario.empty_bucket)))
                   (snd (Sync (snd (Append (S3WritableFile_new "b" "k") [x01]))
                              Scenario.empty_bucket)))))
           (snd (fst (Sync
                   (snd (fst (Sync (snd (Append (S3WritableFile_new "b" "k")
                                                [x01]))
                                   Scenario.empty_bucket)))
                   (snd (Sync (snd (Append (S3WritableFile_new "b" "k") [x01]))
                              Scenario.empty_bucket)))))).
  - reflexivity.
  - reflexivity.
  - reflexivity.
Defined.


(** Reading 100 bytes from offset 5 of the ten-byte object. *)
Lemma Read_status_and_bytes_read_witness :
  exists piece scratch',
    Read (mkS3RandomAccessFile "b" "k") 5 100 (mkStringPiece [] 0)
         (new_char_array 100) Scenario.ten_byte_object =
      ((Status_OK, piece, scratch'), Scenario.ten_byte_object) /\
    sp_size piece = u64 5 /\ (0 <= 5 < 2 ^ 64 -> sp_size piece = 5).
Proof.
  apply (proj1 (proj2 (Read_status_and_bytes_read
                         (mkS3RandomAccessFile "b" "k") 5 100
                         (mkStringPiece [] 0) (new_char_array 100)
                         Scenario.ten_byte_object))
           (mkGetObjectResult 5 [x05; x06; x07; x08; x09])).
  reflexivity.
Defined.

(** [DeleteDir] against the service that cannot be reached: one request,
    and [OK]. *)
Lemma DeleteDir_ignores_failed_listing_witness :
  DeleteDir "s3://b/dir" 0%nat = (Status_OK, 1%nat).
Proof.
  apply (DeleteDir_ignores_failed_listing
           "s3://b/dir" "b" "dir" Status_OK 0%nat Offline.unreachable 1%nat);
    reflexivity.
Defined.

(** [Stat] of a prefix that has a child, and of a name that is not
    there. *)
Lemma Stat_directory_wins_or_not_found_witness :
  Stat "s3://b/d" FileStatistics_default Scenario.one_child =
    ((Status_OK, mkFileStatistics 0 (Millis_times_1e6 1700000000001) true),
     Scenario.one_child) /\
  Stat "s3://b/e" FileStatistics_default Scenario.one_child =
    ((mkStatus error.NOT_FOUND "Object s3://b/e does not exist",
      FileStatistics_default), Scenario.one_child).
Proof.
  split.
  - refine (proj1 (proj1 (Stat_directory_wins_or_not_found
                     "s3://b/d" "b" "d" FileStatistics_default
                     Scenario.one_child (Failure no_such_key)
                     Scenario.one_child
                     (Success (mkListObjectsResult
                                 [mkObject "d/x" 1700000000001]))
                     Scenario.one_child _ _ _ _)
              (mkListObjectsResult [mkObject "d/x" 1700000000001])
              (mkObject "d/x" 1700000000001) [] _ _));
      reflexivity.
  - refine (proj1 (proj2 (Stat_directory_wins_or_not_found
                     "s3://b/e" "b" "e" FileStatistics_default
                     Scenario.one_child (Failure no_such_key)
                     Scenario.one_child
                     (Success (mkListObjectsResult []))
                     Scenario.one_child _ _ _ _)) _ _);
      try reflexivity.
    intros r Hr. injection Hr as <-. reflexivity.
Defined.

End Instances.

(* ================================================================== *)
(** * Part III.  Further properties of the code                        *)
(* ================================================================== *)

(** ** Paths *)

Section PathProperties.
Import S3.

(** X1.  [ParseS3Path] returns [OK] only for a path whose scheme is
    [s3], with a bucket that is neither empty nor ["."] and, unless the
    key may be empty, with a key that is not empty; every other path is
    an [INVALID_ARGUMENT].  Whether the key may be empty does not change
    the bucket and key of a path that has a key. *)
Theorem ParseS3Path_accepts :
  forall (fname : string) (empty_object_ok : bool) (bucket0 object0 : string),
    let status := fst (ParseS3Path fname empty_object_ok bucket0 object0) in
    let bucket := fst (snd (ParseS3Path fname empty_object_ok bucket0 object0)) in
    let object := snd (snd (ParseS3Path fname empty_object_ok bucket0 object0)) in
    (ok status = true ->
       status = Status_OK /\
       fst (fst (ParseURI fname)) = "s3" /\
       bucket <> "" /\ bucket <> "." /\
       (empty_object_ok = false -> object <> "") /\
       ParseS3Path fname true bucket0 object0 = (Status_OK, (bucket, object))) /\
    (ok status = false -> code status = error.INVALID_ARGUMENT) /\
    (ok status = true -> object <> "" ->
       ParseS3Path fname false bucket0 object0 = (Status_OK, (bucket, object))).
Proof.
  intros fname empty_object_ok bucket0 object0. unfold ParseS3Path.
  destruct (ParseURI fname) as [[scheme bucketp] objectp]. cbn [fst snd].
  destruct (String.eqb_spec scheme "s3") as [Hs|Hs]; cbn [negb fst snd].
  2: { repeat split; try discriminate; reflexivity. }
  destruct (String.eqb_spec bucketp "") as [Hb|Hb]; cbn [orb fst snd].
  { repeat split; try discriminate; reflexivity. }
  destruct (String.eqb_spec bucketp ".") as [Hd|Hd]; cbn [fst snd].
  { repeat split; try discriminate; reflexivity. }
  destruct (String.eqb_spec (ConsumePrefix_slash objectp) "") as [Ho|Ho].
  - destruct empty_object_ok; cbn [negb andb fst snd].
    + repeat split; auto; try discriminate. intros _ Hne. congruence.
    + repeat split; try discriminate; reflexivity.
  - rewrite !andb_false_r. cbn [fst snd].
    repeat split; auto; discriminate.
Qed.

End PathProperties.

(** ** Writable files, for every transfer manager *)

Section WriterProperties.
Import Aws S3.
Context {W : Type} `{TransferManager W}.

(** X2.  [Close] releases the spill file exactly when its [Sync] went
    well.  After a [Close] that returned [OK] the file is closed: another
    [Close] returns [OK] and touches nothing, while [Append], [Sync] and
    [Flush] fail with [FAILED_PRECONDITION] and touch nothing.  A [Close]
    that failed is the failed [Sync]: it returns its status and the file
    still has its spill file. *)
Theorem Close_releases_only_on_success :
  forall (this : S3WritableFile) (w : W)
         (status : Status) (this' : S3WritableFile) (w' : W),
    Close this w = ((status, this'), w') ->
    (ok status = true ->
       outfile_ this' = None /\
       Close this' w' = ((Status_OK, this'), w') /\
       (forall data,
           code (fst (Append this' data)) = error.FAILED_PRECONDITION /\
           snd (Append this' data) = this') /\
       code (fst (fst (Sync this' w'))) = error.FAILED_PRECONDITION /\
       code (fst (fst (Flush this' w'))) = error.FAILED_PRECONDITION /\
       snd (Sync this' w') = w' /\ snd (fst (Sync this' w')) = this') /\
    (ok status = false ->
       outfile_ this <> None /\ outfile_ this' <> None /\
       Sync this w = ((status, this'), w')).
Proof.
  intros this w status this' w'. unfold Close.
  destruct (outfile_ this) as [outfile|] eqn:Hout.
  - destruct (Sync this w) as [[st this1] w1] eqn:Hsync.
    destruct (ok st) eqn:Hst; cbn [negb]; intros [= <- <- <-].
    + split; [|intros Habs; discriminate].
      intros _. unfold Flush, Sync, Append, set_outfile.
      cbn [outfile_]. repeat split; reflexivity.
    + split; [intros Habs; congruence|].
      intros _. split; [discriminate|]. split; [|reflexivity].
      unfold Sync in Hsync. rewrite Hout in Hsync.
      destruct (negb (sync_needed_ this)).
      { injection Hsync as <- <- <-. rewrite Hout. discriminate. }
      destruct (UploadFile _ _ _ _ w) as [[h1 o1] w2].
      destruct (retry_upload _ o1 h1 w2) as [[h2 o2] w3].
      destruct (negb _); injection Hsync as <- <- <-; discriminate.
  - intros [= <- <- <-]. split; [|discriminate].
    intros _. unfold Flush, Sync, Append, Close. rewrite Hout.
    repeat split; reflexivity.
Qed.

(** X3.  A [Sync] that returns [OK] puts the stream back where
    [tellp()] found it.  When the stream was good before the call, at a
    put position that is not negative, it is good after it and the put
    position is where it was, whatever the transfer manager did to the
    stream while it uploaded: the next [Append] goes on where the last
    one ended.  When the stream was not good before the call (as a failed
    upload leaves it), [tellp()] is -1 and the stream is not good after
    the call either: the next [Append] returns [INTERNAL]. *)
Theorem Sync_restores_the_write_position :
  forall (this : S3WritableFile) (outfile : TempFile) (w : W)
         (status : Status) (this' : S3WritableFile) (w' : W),
    outfile_ this = Some outfile ->
    Sync this w = ((status, this'), w') ->
    ok status = true ->
    exists outfile',
      outfile_ this' = Some outfile' /\
      (good outfile = true -> 0 <= position outfile ->
       good outfile' = true /\
       position outfile' = position outfile /\
       tellp outfile' = tellp outfile) /\
      (good outfile = false ->
       tellp outfile = -1 /\
       good outfile' = false /\
       forall data, code (fst (Append this' data)) = error.INTERNAL).
Proof.
  intros this outfile w status this' w' Hout.
  assert (Hfailed : forall (file : S3WritableFile) (o : TempFile),
            outfile_ file = Some o -> good o = false ->
            forall data, code (fst (Append file data)) = error.INTERNAL).
  { intros file o Hfile Hbad data. unfold Append, write.
    rewrite Hfile, Hbad. cbn [negb]. rewrite Hbad. reflexivity. }
  unfold Sync. rewrite Hout. destruct (negb (sync_needed_ this)).
  { intros [= <- <- <-] _. exists outfile.
    split; [exact Hout|]. split; [auto|].
    intros Hbad. split; [unfold tellp; rewrite Hbad; reflexivity|].
    split; [exact Hbad|]. exact (Hfailed this outfile Hout Hbad). }
  destruct (UploadFile _ _ _ _ w) as [[h1 o1] w1].
  destruct (retry_upload _ o1 h1 w1) as [[h2 o2] w2].
  destruct (negb _); intros [= <- <- <-] Hok; [discriminate|].
  eexists. split; [reflexivity|]. split.
  - intros Hgood Hpos. unfold seekp, clear, tellp. rewrite Hgood. cbn [good].
    replace (0 <=? position outfile) with true
      by (symmetry; apply Z.leb_le; exact Hpos).
    cbn [good position]. auto.
  - intros Hbad.
    assert (Htell : tellp outfile = -1) by (unfold tellp; rewrite Hbad; reflexivity).
    assert (Hafter : good (seekp (tellp outfile) (clear o2)) = false).
    { rewrite Htell. reflexivity. }
    split; [exact Htell|]. split; [exact Hafter|].
    apply (Hfailed _ (seekp (tellp outfile) (clear o2))); [reflexivity|].
    exact Hafter.
Qed.

(** X4.  The statuses of a writable file.  [Append] returns [OK],
    [FAILED_PRECONDITION] or [INTERNAL]; [Sync], [Flush] and [Close]
    return [OK], [FAILED_PRECONDITION] or [UNKNOWN]; [Close] never returns
    [FAILED_PRECONDITION] and, on a file that has its spill file, neither
    does [Sync]. *)
Theorem writable_file_statuses :
  forall (this : S3WritableFile) (data : list byte) (w : W),
    In (code (fst (Append this data)))
       [error.OK; error.FAILED_PRECONDITION; error.INTERNAL] /\
    In (code (fst (fst (Sync this w))))
       [error.OK; error.FAILED_PRECONDITION; error.UNKNOWN] /\
    In (code (fst (fst (Flush this w))))
       [error.OK; error.FAILED_PRECONDITION; error.UNKNOWN] /\
    In (code (fst (fst (Close this w)))) [error.OK; error.UNKNOWN] /\
    (outfile_ this <> None ->
     In (code (fst (fst (Sync this w)))) [error.OK; error.UNKNOWN]).
Proof.
  intros this data w.
  assert (Hsync :
    In (code (fst (fst (Sync this w))))
       [error.OK; error.FAILED_PRECONDITION; error.UNKNOWN] /\
    (outfile_ this <> None ->
     In (code (fst (fst (Sync this w)))) [error.OK; error.UNKNOWN])).
  { unfold Sync. destruct (outfile_ this) as [outfile|].
    - destruct (negb (sync_needed_ this)); [cbn; auto|].
      destruct (UploadFile _ _ _ _ w) as [[h1 o1] w1].
      destruct (retry_upload _ o1 h1 w1) as [[h2 o2] w2].
      destruct (negb _); cbn; auto.
    - cbn. split; [auto|]. intros Habs. congruence. }
  destruct Hsync as [Hsync Hopen].
  split; [|split; [exact Hsync|split; [exact Hsync|split; [|exact Hopen]]]].
  - unfold Append. destruct (outfile_ this) as [outfile|]; [|cbn; auto].
    destruct (negb _); cbn; auto.
  - unfold Close. destruct (outfile_ this) as [outfile|] eqn:Hout;
      [|cbn; auto].
    specialize (Hopen ltac:(discriminate)).
    destruct (Sync this w) as [[st this1] w1]. cbn [fst] in Hopen.
    destruct (ok st) eqn:Hst; cbn [negb fst]; [cbn; auto|exact Hopen].
Qed.

End WriterProperties.

(** ** The file system, for every S3 client *)

Section ClientProperties.
Import Aws S3 PathFacts.
Context {W : Type} `{S3Client W} `{TransferManager W}.

(** X5.  [Stat] of a path without a key asks [HeadBucket] only, for the
    bucket as a C string: a bucket that answers is a directory of length
    0 whose [mtime_nsec] is left as the caller had it, and a bucket that
    does not is [UNKNOWN], not [NOT_FOUND].  [Stat] of a key whose
    [HeadObject] succeeds while the listing probe fails or returns
    nothing is a file with the content length of the object, and its
    [mtime_nsec] is the product [LastModified * 1e6] as the source
    computes it (in double precision, converted to an [int64]).  A path
    that does not parse is returned as such, without a request. *)
Theorem Stat_of_buckets_and_files :
  forall (fname : string) (stats : FileStatistics) (w : W),
    let parsed := ParseS3Path fname true "" "" in
    let bucket := fst (snd parsed) in
    let object := snd (snd parsed) in
    (ok (fst parsed) = false -> Stat fname stats w = ((fst parsed, stats), w)) /\
    (ok (fst parsed) = true -> object = "" ->
       forall w1,
         (HeadBucket (c_str bucket) w = (Success tt, w1) ->
            Stat fname stats w =
              ((Status_OK, mkFileStatistics 0 (stat_mtime_nsec stats) true),
               w1)) /\
         (forall e, HeadBucket (c_str bucket) w = (Failure e, w1) ->
            code (fst (fst (Stat fname stats w))) = error.UNKNOWN /\
            snd (fst (Stat fname stats w)) = stats /\
            snd (Stat fname stats w) = w1)) /\
    (ok (fst parsed) = true -> object <> "" ->
       forall r w1 listing w2,
         HeadObject (c_str bucket) (c_str object) w = (Success r, w1) ->
         ListObjects
           (mkListObjectsRequest (c_str bucket)
                                 (c_str (push_back_slash object)) 1)
           w1 = (listing, w2) ->
         (forall l, listing = Success l -> GetContents l = []) ->
         Stat fname stats w =
           ((Status_OK,
             mkFileStatistics (head_GetContentLength r)
               (Millis_times_1e6 (head_GetLastModified r)) false), w2) /\
         - 2 ^ 63 <= Millis_times_1e6 (head_GetLastModified r) < 2 ^ 63).
Proof.
  intros fname stats w parsed bucket object. subst bucket object parsed.
  unfold Stat.
  destruct (ParseS3Path fname true "" "") as [st [bucket object]].
  cbn [fst snd]. split; [|split].
  - intros ->. reflexivity.
  - intros -> ->. cbn [negb]. rewrite String.eqb_refl.
    intros w1. split.
    + intros ->. reflexivity.
    + intros e ->. cbn. auto.
  - intros -> Hne r w1 listing w2 Hhead Hlist Hempty.
    split; [|apply Millis_times_1e6_int64]. cbn [negb].
    replace (String.eqb object "") with false
      by (symmetry; apply String.eqb_neq; exact Hne).
    rewrite Hhead, Hlist. destruct listing as [l|e].
    + rewrite (Hempty l eq_refl). reflexivity.
    + reflexivity.
Qed.

(** X6.  The statuses the file system returns, whatever the service
    answers.  [Read]: [OK], [OUT_OF_RANGE] or [UNKNOWN].  [Stat],
    [FileExists] and [GetFileSize]: [OK], [INVALID_ARGUMENT], [UNKNOWN] or
    [NOT_FOUND].  [DeleteFile]: [OK], [INVALID_ARGUMENT] or [UNKNOWN],
    never [NOT_FOUND].  [DeleteDir]: these or [INTERNAL]. *)
Theorem file_system_statuses :
  forall (fname : string) (w : W),
    (forall this offset n result scratch,
        In (code (fst (fst (fst (Read this offset n result scratch w)))))
           [error.OK; error.OUT_OF_RANGE; error.UNKNOWN]) /\
    (forall stats,
        In (code (fst (fst (Stat fname stats w))))
           [error.OK; error.INVALID_ARGUMENT; error.UNKNOWN; error.NOT_FOUND]) /\
    In (code (fst (FileExists fname w)))
       [error.OK; error.INVALID_ARGUMENT; error.UNKNOWN; error.NOT_FOUND] /\
    (forall size,
        In (code (fst (fst (GetFileSize fname size w))))
           [error.OK; error.INVALID_ARGUMENT; error.UNKNOWN; error.NOT_FOUND]) /\
    In (code (fst (DeleteFile fname w)))
       [error.OK; error.INVALID_ARGUMENT; error.UNKNOWN] /\
    In (code (fst (DeleteDir fname w)))
       [error.OK; error.INVALID_ARGUMENT; error.UNKNOWN; error.INTERNAL].
Proof.
  intros fname w.
  assert (Hpath : forall path required,
    ok (fst (ParseS3Path path required "" "")) = false ->
    code (fst (ParseS3Path path required "" "")) = error.INVALID_ARGUMENT).
  { intros path required. unfold ParseS3Path.
    destruct (ParseURI path) as [[scheme bucketp] objectp].
    destruct (negb (String.eqb scheme "s3")); [reflexivity|].
    destruct (String.eqb bucketp "" || String.eqb bucketp ".");
      [reflexivity|].
    destruct (negb required && String.eqb (ConsumePrefix_slash objectp) "");
      [reflexivity|discriminate]. }
  pose proof (Hpath fname) as Hparse.
  assert (Hstat : forall stats,
    In (code (fst (fst (Stat fname stats w))))
       [error.OK; error.INVALID_ARGUMENT; error.UNKNOWN; error.NOT_FOUND]).
  { intros stats. unfold Stat. specialize (Hparse true).
    destruct (ParseS3Path fname true "" "") as [st [bucket object]].
    cbn [fst] in Hparse.
    destruct (ok st) eqn:Hst; cbn [negb].
    2: { cbn [fst]. rewrite (Hparse eq_refl). cbn. auto. }
    destruct (String.eqb object "").
    - destruct (HeadBucket _ w) as [[u|e] w1]; cbn; auto.
    - destruct (HeadObject _ _ w) as [[r|e] w1];
        destruct (ListObjects _ w1) as [[l|e'] w2];
        try destruct (GetContents l); cbn; auto. }
  assert (Hdelete :
    In (code (fst (DeleteFile fname w)))
       [error.OK; error.INVALID_ARGUMENT; error.UNKNOWN]).
  { unfold DeleteFile. specialize (Hparse false).
    destruct (ParseS3Path fname false "" "") as [st [bucket object]].
    cbn [fst] in Hparse.
    destruct (ok st) eqn:Hst; cbn [negb].
    2: { cbn [fst]. rewrite (Hparse eq_refl). cbn. auto. }
    destruct (DeleteObject _ _ w) as [[u|e] w1]; cbn; auto. }
  split; [|split; [exact Hstat|split; [|split; [|split; [exact Hdelete|]]]]].
  - intros this offset n result scratch. unfold Read.
    destruct (GetObject _ w) as [[r|e] w1]; [cbn; auto|].
    destruct (GetResponseCode e =? REQUESTED_RANGE_NOT_SATISFIABLE);
      cbn; auto.
  - unfold FileExists. specialize (Hstat FileStatistics_default).
    destruct (Stat fname FileStatistics_default w) as [[st stats] w1].
    cbn [fst] in Hstat.
    destruct (ok st); cbn [negb fst]; [cbn; auto|exact Hstat].
  - intros size. unfold GetFileSize. specialize (Hstat FileStatistics_default).
    destruct (Stat fname FileStatistics_default w) as [[st stats] w1].
    cbn [fst] in Hstat.
    destruct (ok st); cbn [negb fst]; [cbn; auto|exact Hstat].
  - unfold DeleteDir. pose proof (Hparse false) as Hp.
    destruct (ParseS3Path fname false "" "") as [st [bucket object]] eqn:Hpf.
    cbn [fst] in Hp.
    destruct (ok st) eqn:Hst; cbn [negb].
    2: { cbn [fst]. rewrite (Hp eq_refl). cbn. auto. }
    destruct (ListObjects _ w) as [[l|e] w1]; [|cbn; auto].
    destruct (_ || _); [cbn; auto|].
    destruct (_ && _); [|cbn; auto].
    clear Hdelete. unfold DeleteFile.
    destruct (ParseS3Path (push_back_slash fname) false "" "")
      as [st' [bucket' object']] eqn:Hpf'.
    destruct (ok st') eqn:Hst'; cbn [negb].
    + destruct (DeleteObject _ _ w1) as [[u|e] w2]; cbn; auto.
    + cbn [fst].
      pose proof (Hpath (push_back_slash fname) false) as Hbad.
      rewrite Hpf' in Hbad. cbn [fst] in Hbad. rewrite (Hbad Hst').
      cbn. auto.
Qed.

(** X7.  [DeleteDir] deletes nothing but what the listing shows as the
    directory marker.  The listing asks for two keys under the prefix
    [push_back_slash key] as a C string.  When it succeeds: with no
    object, [DeleteDir] returns [OK] and asks for nothing more; with one
    object whose key is that prefix, it is [DeleteFile] of the directory
    name with its slash; with two objects, or one whose key is not that
    prefix, it returns [INTERNAL] "Cannot delete a non-empty directory."
    and asks for nothing more.  For a key without a NUL the prefix is
    the key with its slash; for a key with a NUL it is the key up to the
    NUL, so that the one object may be a plain file of that name, which
    is then deleted. *)
Theorem DeleteDir_deletes_only_the_marker :
  forall (dirname bucket object : string) (w : W)
         (r : ListObjectsResult) (w1 : W),
    ParseS3Path dirname false "" "" = (Status_OK, (bucket, object)) ->
    ListObjects
      (mkListObjectsRequest (c_str bucket) (c_str (push_back_slash object)) 2)
      w = (Success r, w1) ->
    (GetContents r = [] -> DeleteDir dirname w = (Status_OK, w1)) /\
    (forall first,
        GetContents r = [first] ->
        GetKey first = c_str (push_back_slash object) ->
        DeleteDir dirname w = DeleteFile (push_back_slash dirname) w1) /\
    (forall first,
        GetContents r = [first] ->
        GetKey first <> c_str (push_back_slash object) ->
        DeleteDir dirname w =
          (mkStatus error.INTERNAL "Cannot delete a non-empty directory.",
           w1)) /\
    (forall first second rest,
        GetContents r = first :: second :: rest ->
        DeleteDir dirname w =
          (mkStatus error.INTERNAL "Cannot delete a non-empty directory.",
           w1)) /\
    (no_nul object = true ->
     c_str (push_back_slash object) = push_back_slash object) /\
    (no_nul object = false ->
     c_str (push_back_slash object) = c_str object).
Proof.
  intros dirname bucket object w r w1 Hparse Hlist.
  split; [|split; [|split; [|split; [|split]]]];
    [| | | |apply c_str_push_back_slash|apply c_str_push_back_slash_nul];
    unfold DeleteDir; rewrite Hparse;
    change (negb (ok Status_OK)) with false; cbv iota; rewrite Hlist.
  - intros ->. reflexivity.
  - intros first -> Hkey. cbn [List.length Z.of_nat].
    rewrite Hkey, String.eqb_refl. reflexivity.
  - intros first -> Hkey. cbn [List.length Z.of_nat].
    replace (String.eqb (GetKey first) (c_str (push_back_slash object)))
      with false
      by (symmetry; apply String.eqb_neq; exact Hkey).
    reflexivity.
  - intros first second rest ->.
    replace (1 <? Z.of_nat (List.length (first :: second :: rest))) with true.
    + reflexivity.
    + symmetry. apply Z.ltb_lt. cbn [List.length]. lia.
Qed.

End ClientProperties.

(** ** Uploads against the object store *)

Module UploadFacts.
Import Aws S3 Store PathFacts StoreFacts WriterFacts.

Lemma Sync_ok_stream {W : Type} `{TransferManager W}
      (this : S3WritableFile) (outfile : TempFile) (w : W)
      (status : Status) (this' : S3WritableFile) (w' : W) :
  outfile_ this = Some outfile ->
  good outfile = true ->
  0 <= position outfile ->
  Sync this w = ((status, this'), w') ->
  ok status = true ->
  exists outfile',
    outfile_ this' = Some outfile' /\
    good outfile' = true /\
    position outfile' = position outfile.
Proof.
  intros Hout Hgood Hpos. unfold Sync.
  rewrite Hout. destruct (negb (sync_needed_ this)).
  { intros [= <- <- <-] _. exists outfile. auto. }
  destruct (UploadFile _ _ _ _ w) as [[h1 o1] w1].
  destruct (retry_upload _ o1 h1 w1) as [[h2 o2] w2].
  destruct (negb _); intros [= <- <- <-] Hok; [discriminate|].
  eexists. split; [reflexivity|].
  unfold seekp, clear. cbn [good].
  replace (0 <=? tellp outfile) with true.
  - unfold tellp. rewrite Hgood. cbn [good position]. auto.
  - symmetry. apply Z.leb_le. unfold tellp. rewrite Hgood. exact Hpos.
Qed.

(** An attempt that the service fails. *)
Lemma attempt_fails call o b k (w : World) rest :
  transfers w = FAILED :: rest ->
  attempt call o b k w =
  ((mkTransferHandle b k FAILED 1 transfer_failed,
    mkTempFile (contents o) (Z.of_nat (List.length (contents o))) false),
   mkWorld (buckets w) (objects w) (now w) rest (journal w ++ [call])).
Proof.
  intros Ht. unfold attempt. rewrite Ht.
  destruct (bucket_exists b w); reflexivity.
Qed.

(** An attempt that the service completes. *)
Lemma attempt_completes call o b k (w : World) rest :
  transfers w = COMPLETED :: rest ->
  bucket_exists b w = true ->
  attempt call o b k w =
  ((mkTransferHandle b k COMPLETED 0 (mkAWSError "" "" 200),
    mkTempFile (contents o) (Z.of_nat (List.length (contents o))) false),
   mkWorld (buckets w) (put b k (mkBlob (contents o) (now w)) (objects w))
           (now w) rest (journal w ++ [call])).
Proof.
  intros Ht Hb. unfold attempt. rewrite Ht, Hb. reflexivity.
Qed.

(** The retries after an upload that failed, when the next [i] attempts
    fail too and the one after them completes. *)
Lemma retry_upload_completes (i : nat) :
  forall (rounds : nat) (o : TempFile) (h : TransferHandle) (w : World)
         (rest : list TransferStatus),
    (i < rounds)%nat ->
    GetStatus h = FAILED ->
    bucket_exists (GetBucketName h) w = true ->
    transfers w = repeat FAILED i ++ COMPLETED :: rest ->
    exists h' o' w',
      retry_upload rounds o h w = ((h', o'), w') /\
      GetStatus h' = COMPLETED /\
      contents o' = contents o /\
      journal w' =
        journal w ++
        repeat (CallRetryUpload (GetBucketName h) (handle_GetKey h)
                                (contents o)) (S i) /\
      objects w' =
        put (GetBucketName h) (handle_GetKey h)
            (mkBlob (contents o) (now w)) (objects w) /\
      now w' = now w /\ transfers w' = rest.
Proof.
  induction i as [|i IH]; intros rounds o h w rest Hlt Hfailed Hb Ht;
    (destruct rounds as [|rounds]; [lia|]);
    cbn [retry_upload]; rewrite Hfailed; cbn [TransferStatus_eqb];
    cbn [RetryUpload store_transfer_manager]; unfold store_RetryUpload.
  - rewrite (attempt_completes _ _ _ _ _ rest Ht Hb).
    destruct rounds; cbn [retry_upload GetStatus TransferStatus_eqb];
      do 3 eexists; (split; [reflexivity|]); cbn; auto 10.
  - cbn [repeat app] in Ht. rewrite (attempt_fails _ _ _ _ _ _ Ht).
    match goal with
    | |- context [retry_upload rounds ?o1 ?h1 ?w1] =>
        destruct (IH rounds o1 h1 w1 rest)
          as (h' & o' & w' & Hrun & Hst & Hc & Hj & Hobjs & Hnow & Htr);
          [lia|reflexivity|exact Hb|reflexivity|]
    end.
    cbn [GetBucketName handle_GetKey contents journal objects now] in *.
    exists h', o', w'. rewrite Hrun.
    split; [reflexivity|]. split; [exact Hst|]. split; [exact Hc|].
    split; [|auto]. rewrite Hj, <- app_assoc. reflexivity.
Qed.

(** The retries after an upload that failed, when every one of them
    fails. *)
Lemma retry_upload_gives_up (rounds : nat) :
  forall (o : TempFile) (h : TransferHandle) (w : World)
         (rest : list TransferStatus),
    GetStatus h = FAILED ->
    transfers w = repeat FAILED rounds ++ rest ->
    exists h' o' w',
      retry_upload rounds o h w = ((h', o'), w') /\
      GetStatus h' = FAILED /\
      journal w' =
        journal w ++
        repeat (CallRetryUpload (GetBucketName h) (handle_GetKey h)
                                (contents o)) rounds /\
      objects w' = objects w.
Proof.
  induction rounds as [|rounds IH]; intros o h w rest Hfailed Ht;
    cbn [retry_upload]; rewrite Hfailed; cbn [TransferStatus_eqb].
  - do 3 eexists. split; [reflexivity|]. cbn [repeat].
    rewrite app_nil_r. auto.
  - cbn [RetryUpload store_transfer_manager]. unfold store_RetryUpload.
    cbn [repeat app] in Ht. rewrite (attempt_fails _ _ _ _ _ _ Ht).
    match goal with
    | |- context [retry_upload rounds ?o1 ?h1 ?w1] =>
        destruct (IH o1 h1 w1 rest) as (h' & o' & w' & Hrun & Hst & Hj & Hobjs);
          [reflexivity|reflexivity|]
    end.
    cbn [GetBucketName handle_GetKey contents journal objects] in *.
    exists h', o', w'. rewrite Hrun.
    split; [reflexivity|]. split; [exact Hst|]. split; [|exact Hobjs].
    rewrite Hj, <- app_assoc. reflexivity.
Qed.

End UploadFacts.

Section UploadProperties.
Import Aws S3 Store PathFacts StoreFacts WriterFacts UploadFacts.

(** X8.  [Sync] sends the spill file once and retries a failed upload at
    most [kUploadRetries = 5] times.  When the first [i <= 5] attempts
    fail and the next one completes, [Sync] returns [OK] after [i + 1]
    attempts and the object is the spill file.  When six attempts fail
    in a row, [Sync] gives up with [UNKNOWN] after exactly six and the
    objects are as they were.  (The bucket and the key are named as the
    transfer manager receives them, [c_str()].) *)
Theorem Sync_retries_a_failed_upload_five_times :
  forall (this : S3WritableFile) (outfile : TempFile) (w : World)
         (i : nat) (rest : list TransferStatus),
    outfile_ this = Some outfile ->
    sync_needed_ this = true ->
    bucket_exists (c_str (bucket_ this)) w = true ->
    let upload :=
      CallUploadFile (c_str (bucket_ this)) (c_str (object_ this))
                     (contents outfile) in
    let retry :=
      CallRetryUpload (c_str (bucket_ this)) (c_str (object_ this))
                      (contents outfile) in
    ((i <= 5)%nat ->
     transfers w = repeat FAILED i ++ COMPLETED :: rest ->
     fst (fst (Sync this w)) = Status_OK /\
     journal (snd (Sync this w)) = journal w ++ upload :: repeat retry i /\
     objects (snd (Sync this w)) =
       put (c_str (bucket_ this)) (c_str (object_ this))
           (mkBlob (contents outfile) (now w)) (objects w)) /\
    (transfers w = repeat FAILED 6 ++ rest ->
     code (fst (fst (Sync this w))) = error.UNKNOWN /\
     journal (snd (Sync this w)) = journal w ++ upload :: repeat retry 5 /\
     objects (snd (Sync this w)) = objects w).
Proof.
  intros this outfile w i rest Hout Hneeded Hb upload retry.
  unfold Sync. rewrite Hout, Hneeded. cbn [negb].
  cbn [UploadFile store_transfer_manager]. unfold store_UploadFile.
  split.
  - intros Hi Ht. destruct i as [|i].
    + cbn [repeat app] in Ht.
      rewrite (attempt_completes _ _ _ _ _ rest Ht Hb).
      cbn [retry_upload kUploadRetries GetStatus TransferStatus_eqb negb
           fst snd journal objects]. repeat split; reflexivity.
    + cbn [repeat app] in Ht. rewrite (attempt_fails _ _ _ _ _ _ Ht).
      match goal with
      | |- context [retry_upload kUploadRetries ?o1 ?h1 ?w1] =>
          destruct (retry_upload_completes i kUploadRetries o1 h1 w1 rest)
            as (h' & o' & w' & Hrun & Hst & Hc & Hj & Hobjs & Hnow & Htr);
            [unfold kUploadRetries; lia|reflexivity|exact Hb|reflexivity|]
      end.
      rewrite Hrun, Hst.
      cbn [GetBucketName handle_GetKey contents journal objects now
           TransferStatus_eqb negb fst snd] in *.
      split; [reflexivity|]. split; [|exact Hobjs].
      rewrite Hj, <- app_assoc. reflexivity.
  - intros Ht. cbn [repeat app] in Ht.
    rewrite (attempt_fails _ _ _ _ _ _ Ht).
    match goal with
    | |- context [retry_upload kUploadRetries ?o1 ?h1 ?w1] =>
        destruct (retry_upload_gives_up kUploadRetries o1 h1 w1 rest)
          as (h' & o' & w' & Hrun & Hst & Hj & Hobjs);
          [reflexivity|reflexivity|]
    end.
    rewrite Hrun, Hst.
    cbn [GetBucketName handle_GetKey contents journal objects
         TransferStatus_eqb negb fst snd code errors_Unknown] in *.
    split; [reflexivity|]. split; [|exact Hobjs].
    rewrite Hj, <- app_assoc. reflexivity.
Qed.

(** X9.  What is appended after a [Sync] goes after what was appended
    before it: when [Append x], [Sync], [Append y], [Close] on a fresh
    file all end well, the object is [x ++ y]. *)
Theorem Append_after_Sync_extends_the_object :
  forall (bucket object : string) (x y : list byte) (w : World)
         (statuses : list Status) (this' : S3WritableFile) (w' : World),
    drive [OpAppend x; OpSync; OpAppend y; OpClose]
          (S3WritableFile_new bucket object) w = ((statuses, this'), w') ->
    forallb ok statuses = true ->
    lookup (c_str bucket) (c_str object) (objects w') =
      Some (mkBlob (x ++ y) (now w)) /\
    outfile_ this' = None.
Proof.
  intros bucket object x y w statuses this' w'.
  cbn [drive step]. rewrite Append_fresh.
  destruct (Sync _ w) as [[st1 this1] w1] eqn:Hsync1.
  pose proof (Sync_keeps_flag
                (mkS3WritableFile bucket object true
                   (Some (mkTempFile x (Z.of_nat (List.length x)) true)))
                w) as Hkeeps.
  rewrite Hsync1 in Hkeeps. cbn [fst snd sync_needed_ bucket_ object_] in Hkeeps.
  destruct Hkeeps as (Hflag & Hbucket & Hobject).
  destruct (Append this1 y) as [st2 this2] eqn:Happend.
  destruct (Close this2 w1) as [[st3 this3] w3] eqn:Hclose.
  intros [= <- <- <-]. cbn [forallb]. rewrite andb_true_r.
  intros Hall. apply andb_prop in Hall. destruct Hall as [_ Hall].
  apply andb_prop in Hall. destruct Hall as [Hok1 Hall].
  apply andb_prop in Hall. destruct Hall as [Hok2 Hok3].
  pose proof Hsync1 as Hstream.
  apply Sync_ok_stream
    with (outfile := mkTempFile x (Z.of_nat (List.length x)) true)
    in Hstream; [|reflexivity|reflexivity|cbn [position]; lia|exact Hok1].
  destruct Hstream as (o1 & Hout1 & Hgood1 & Hpos1).
  apply Sync_store
    with (outfile := mkTempFile x (Z.of_nat (List.length x)) true)
    in Hsync1; [|reflexivity|reflexivity].
  destruct Hsync1 as (_ & Hnow1 & _ & Hdone1 & _).
  destruct (Hdone1 Hok1) as (_ & _ & o1' & Hout1' & Hcontents1).
  rewrite Hout1 in Hout1'. injection Hout1' as <-.
  cbn [contents position] in Hcontents1, Hpos1.
  unfold Append in Happend. rewrite Hout1 in Happend.
  unfold write in Happend. rewrite Hgood1, Hcontents1, Hpos1 in Happend.
  rewrite Nat2Z.id, firstn_all in Happend.
  rewrite skipn_all2 in Happend by lia.
  rewrite app_nil_r in Happend. cbn [good negb] in Happend.
  injection Happend as <- <-.
  rewrite Close_open
    with (outfile := mkTempFile (x ++ y)
                       (Z.of_nat (List.length x) + Z.of_nat (List.length y))
                       true) in Hclose by reflexivity.
  destruct (Sync _ w1) as [[st4 this4] w4] eqn:Hsync2.
  apply Sync_store
    with (outfile := mkTempFile (x ++ y)
                       (Z.of_nat (List.length x) + Z.of_nat (List.length y))
                       true) in Hsync2; [|reflexivity|reflexivity].
  destruct Hsync2 as (_ & _ & _ & Hdone2 & _).
  cbn [bucket_ object_ contents] in Hdone2. rewrite Hbucket, Hobject in Hdone2.
  destruct (ok st4) eqn:Hst4.
  - injection Hclose as <- <- <-.
    destruct (Hdone2 eq_refl) as (_ & Hobjs & _).
    rewrite Hobjs, Hnow1. split; [apply lookup_put | reflexivity].
  - injection Hclose as <- <- <-. congruence.
Qed.

End UploadProperties.

(** ** Reading, creating and deleting against the object store *)

Module ServiceFacts.
Import Aws S3 Store PathFacts StoreFacts.

Lemma firstn_min_length {A : Type} (a : nat) (l : list A) :
  firstn (Nat.min a (List.length l)) l = firstn a l.
Proof.
  destruct (Nat.le_ge_cases a (List.length l)) as [Hle|Hge].
  - rewrite Nat.min_l by exact Hle. reflexivity.
  - rewrite Nat.min_r by exact Hge.
    rewrite firstn_all, firstn_all2 by exact Hge. reflexivity.
Qed.

(** [Stat] finds a key that holds an object, whatever lies under it. *)
Lemma Stat_store_found (fname bucket key : string) (blob : Blob)
      (stats : FileStatistics) (w : World) :
  ParseS3Path fname true "" "" = (Status_OK, (bucket, key)) ->
  String.eqb key "" = false ->
  lookup (c_str bucket) (c_str key) (objects w) = Some blob ->
  fst (fst (Stat fname stats w)) = Status_OK.
Proof.
  intros Hparse Hkey Hlookup. unfold Stat. rewrite Hparse, Hkey.
  change (negb (ok Status_OK)) with false. cbv iota.
  cbn [HeadObject ListObjects store_client].
  unfold store_HeadObject, store_ListObjects. rewrite Hlookup.
  cbn [GetContents].
  match goal with
  | |- context [map ?f ?l] => destruct (map f l)
  end; reflexivity.
Qed.

Lemma lookup_remove (bucket key : string) objs :
  lookup bucket key (remove bucket key objs) = None.
Proof. unfold lookup. rewrite find_remove. reflexivity. Qed.

(** Once a key is removed, a listing that showed nothing else shows
    nothing. *)
Lemma listing_remove_only (bucket key pre : string) objs :
  (forall e, In e objs -> listed bucket pre e = true ->
             same bucket key e = true) ->
  filter (listed bucket pre) (remove bucket key objs) = [].
Proof.
  unfold remove. induction objs as [|e objs IH]; intros Honly;
    cbn [filter]; [reflexivity|].
  assert (Hrest : forall e', In e' objs -> listed bucket pre e' = true ->
                             same bucket key e' = true).
  { intros e' He'. apply Honly. right. exact He'. }
  destruct (same bucket key e) eqn:Hsame; cbn [negb filter].
  - apply IH. exact Hrest.
  - destruct (listed bucket pre e) eqn:Hlisted.
    + rewrite (Honly e (or_introl eq_refl) Hlisted) in Hsame. discriminate.
    + apply IH. exact Hrest.
Qed.

End ServiceFacts.

Section ServiceProperties.
Import Aws S3 Store PathFacts StoreFacts WriterFacts ReaderFacts ServiceFacts.

(** X10.  [Read] of an object of the store (named by the bucket and
    the key as C strings), for [n >= 1] bytes from [offset]: from an offset inside the object it returns [OK] and the
    bytes [offset .. offset + n - 1] of the object, cut at its end (so
    [min n (length - offset)] bytes); from an offset at or after the end
    it returns [OUT_OF_RANGE] and no bytes; and when there is no such
    object it returns [UNKNOWN] and leaves the result alone. *)
Theorem Read_returns_the_requested_bytes :
  forall (bucket key : string) (offset n : Z) (result : StringPiece)
         (scratch : list byte) (w : World),
    0 <= offset -> 1 <= n < 2 ^ 64 -> offset + n <= 2 ^ 64 ->
    let read :=
      Read (mkS3RandomAccessFile bucket key) offset n result scratch w in
    snd read = w /\
    (lookup (c_str bucket) (c_str key) (objects w) = None ->
     code (fst (fst (fst read))) = error.UNKNOWN /\
     snd (fst (fst read)) = result) /\
    (forall b t,
        lookup (c_str bucket) (c_str key) (objects w) = Some (mkBlob b t) ->
        (offset < Z.of_nat (List.length b) ->
         fst (fst (fst read)) = Status_OK /\
         snd (fst (fst read)) =
           mkStringPiece
             (firstn (Z.to_nat n) (skipn (Z.to_nat offset) b))
             (Z.min n (Z.of_nat (List.length b) - offset))) /\
        (Z.of_nat (List.length b) <= offset ->
         code (fst (fst (fst read))) = error.OUT_OF_RANGE /\
         snd (fst (fst read)) = mkStringPiece [] 0)).
Proof.
  intros bucket key offset n result scratch w Hoff Hn Hsum read.
  subst read. unfold Read.
  cbn [GetObject store_client]. unfold store_GetObject.
  cbn [get_Bucket get_Key get_RangeFirst get_RangeLast raf_bucket_
       raf_object_].
  rewrite (u64_small (offset + n - 1)) by lia.
  destruct (lookup (c_str bucket) (c_str key) (objects w)) as [[b t]|].
  2: { split; [reflexivity|]. split; [|intros b t Habs; discriminate].
       intros _. split; reflexivity. }
  cbn [blob_body]. set (L := Z.of_nat (List.length b)).
  destruct (L <=? offset) eqn:Hend.
  - apply Z.leb_le in Hend. split; [reflexivity|].
    split; [intros Habs; discriminate|].
    intros b' t' [= <- <-]. fold L. split; [lia|].
    intros _. split; reflexivity.
  - apply Z.leb_gt in Hend.
    replace (offset + n - 1 <? offset) with false
      by (symmetry; apply Z.ltb_ge; lia).
    split; [reflexivity|]. split; [intros Habs; discriminate|].
    intros b' t' [= <- <-]. fold L. split; [|lia]. intros _.
    cbn [GetContentLength GetBody fst snd].
    replace (Z.min (offset + n - 1) (L - 1) - offset + 1)
      with (Z.min n (L - offset)) by lia.
    set (m := Z.min n (L - offset)).
    assert (Hm : 1 <= m < 2 ^ 64) by (unfold m; lia).
    rewrite (u64_small m) by lia.
    set (tail := skipn (Z.to_nat offset) b).
    assert (Htail : List.length tail = Z.to_nat (L - offset)).
    { unfold tail, L. rewrite length_skipn. lia. }
    assert (Hcut : firstn (Z.to_nat m) tail = firstn (Z.to_nat n) tail).
    { rewrite <- (firstn_min_length (Z.to_nat n) tail). f_equal.
      rewrite Htail. unfold m. lia. }
    assert (Hlen : List.length (firstn (Z.to_nat m) tail) = Z.to_nat m).
    { rewrite length_firstn, Htail. unfold m. lia. }
    split; [reflexivity|].
    unfold StringPiece_of, body_read. f_equal.
    rewrite <- Hcut.
    set (body := firstn (Z.to_nat m) tail) in *.
    assert (Hgot : firstn (Z.to_nat m) body = body).
    { apply firstn_all2. rewrite Hlen. apply Nat.le_refl. }
    rewrite Hgot, firstn_app, Hgot, Hlen, Nat.sub_diag.
    cbn [firstn]. apply app_nil_r.
Qed.

(** X11.  [CreateDir] is idempotent: after a [CreateDir] of a directory
    (a path with a key) that returned [OK], the same [CreateDir] returns
    [OK] and changes nothing, uploading nothing. *)
Theorem CreateDir_again_changes_nothing :
  forall (dirname bucket object : string) (w : World)
         (status : Status) (w' : World),
    ParseS3Path (push_back_slash dirname) false "" "" =
      (Status_OK, (bucket, object)) ->
    ok (fst (ParseS3Path dirname true "" "")) = true ->
    String.eqb (snd (snd (ParseS3Path dirname true "" ""))) "" = false ->
    CreateDir dirname w = (status, w') ->
    ok status = true ->
    CreateDir dirname w' = (Status_OK, w').
Proof.
  intros dirname bucket object w status w' Hfile Hparse Hkey.
  destruct (ParseS3Path_required _ _ _ _ Hfile eq_refl)
    as (Hfile' & Hobject & _).
  unfold CreateDir.
  destruct (ParseS3Path dirname true "" "") as [st [b k]].
  cbn [fst snd] in Hparse, Hkey. rewrite Hparse, Hkey. cbn [negb].
  pose proof (FileExists_store_reads (push_back_slash dirname) w) as Hreads.
  destruct (FileExists (push_back_slash dirname) w) as [exists_ w0] eqn:Hex.
  cbn [snd] in Hreads. subst w0.
  destruct (ok exists_) eqn:Hfound; cbn [negb].
  - intros [= <- <-] _. rewrite Hex, Hfound. reflexivity.
  - unfold NewWritableFile. rewrite Hfile.
    change (negb (ok Status_OK)) with false. cbv iota.
    rewrite Close_open with (outfile := TempFile_open) by reflexivity.
    destruct (Sync (S3WritableFile_new bucket object) w)
      as [[st1 this1] w1] eqn:Hsync.
    apply Sync_store with (outfile := TempFile_open) in Hsync;
      [|reflexivity|reflexivity].
    destruct Hsync as (_ & _ & _ & Hdone & _).
    destruct (ok st1) eqn:Hst1; cbn [negb].
    2: { rewrite Hst1. cbn [negb]. intros [= <- <-] Habs. congruence. }
    change (negb (ok Status_OK)) with false. cbv iota.
    intros [= <- <-] _.
    destruct (Hdone eq_refl) as (_ & Hobjs & _).
    assert (Hlookup : lookup (c_str bucket) (c_str object) (objects w1) =
                      Some (mkBlob [] (now w))).
    { rewrite Hobjs. apply lookup_put. }
    pose proof (FileExists_store_reads (push_back_slash dirname) w1) as Hr1.
    unfold FileExists in *.
    pose proof (Stat_store_found (push_back_slash dirname) bucket object _
                  FileStatistics_default w1 Hfile' Hobject Hlookup) as Hstat.
    destruct (Stat (push_back_slash dirname) FileStatistics_default w1)
      as [[st2 stats2] w2].
    cbn [fst] in Hstat. subst st2.
    change (negb (ok Status_OK)) with false in *. cbv iota in *.
    cbn [snd] in Hr1. subst w2. reflexivity.
Qed.

(** X12.  After [DeleteFile] the file is gone.  The bucket, the key
    and the listing prefix [push_back_slash key] reach the service as C
    strings; for a key under whose prefix the bucket lists nothing but
    the key itself, [DeleteFile] returns [OK], the store holds no object
    at the key, deleting again returns [OK] again, and [Stat] and
    [FileExists] return [NOT_FOUND]. *)
Theorem DeleteFile_then_Stat_is_not_found :
  forall (fname bucket key : string) (stats : FileStatistics) (w : World),
    ParseS3Path fname false "" "" = (Status_OK, (bucket, key)) ->
    (forall e, In e (objects w) ->
               listed (c_str bucket) (c_str (push_back_slash key)) e = true ->
               same (c_str bucket) (c_str key) e = true) ->
    let w' := snd (DeleteFile fname w) in
    fst (DeleteFile fname w) = Status_OK /\
    lookup (c_str bucket) (c_str key) (objects w') = None /\
    fst (DeleteFile fname w') = Status_OK /\
    Stat fname stats w' =
      ((mkStatus error.NOT_FOUND ("Object " ++ fname ++ " does not exist"),
        stats), w') /\
    code (fst (FileExists fname w')) = error.NOT_FOUND.
Proof.
  intros fname bucket key stats w Hparse Honly w'. subst w'.
  destruct (ParseS3Path_required _ _ _ _ Hparse eq_refl)
    as (Hparse' & Hkey & _).
  assert (Hdel : forall w0,
    DeleteFile fname w0 =
    (Status_OK, snd (store_DeleteObject (c_str bucket) (c_str key) w0))).
  { intros w0. unfold DeleteFile. rewrite Hparse.
    change (negb (ok Status_OK)) with false. cbv iota. reflexivity. }
  rewrite !Hdel. cbn [fst snd store_DeleteObject objects].
  assert (Hstat : forall stats0,
    Stat fname stats0 (snd (store_DeleteObject (c_str bucket) (c_str key) w)) =
    ((mkStatus error.NOT_FOUND ("Object " ++ fname ++ " does not exist"),
      stats0), snd (store_DeleteObject (c_str bucket) (c_str key) w))).
  { intros stats0. unfold Stat. rewrite Hparse', Hkey.
    change (negb (ok Status_OK)) with false. cbv iota.
    cbn [HeadObject ListObjects store_client].
    unfold store_HeadObject, store_ListObjects.
    cbn [store_DeleteObject snd objects list_Bucket list_Prefix list_MaxKeys].
    rewrite lookup_remove. cbv beta iota.
    cbn [objects list_Bucket list_Prefix list_MaxKeys].
    rewrite (listing_remove_only _ _ _ _ Honly).
    reflexivity. }
  split; [reflexivity|]. split; [apply lookup_remove|].
  split; [reflexivity|]. split; [apply Hstat|].
  unfold FileExists. cbn [store_DeleteObject snd] in Hstat.
  rewrite Hstat. reflexivity.
Qed.

End ServiceProperties.

(** ** The retry envelope, further *)

Module RetryMore.
Import RetryingUtils RetryingFacts.

(** Two runs of the retry loop that keep step: worlds related by [R],
    with calls, draws and sleeps that answer alike and keep the worlds
    related, end alike. *)
Lemma retry_loop_keeps_step {S1 S2 : Type} (R : S1 -> S2 -> Prop)
      (ToString : Status -> string)
      (N1 : S1 -> Z * S1) (N2 : S2 -> Z * S2)
      (f1 : S1 -> Status * S1) (f2 : S2 -> Status * S2)
      (sleep1 : Z -> S1 -> S1) (sleep2 : Z -> S2 -> S2)
      (initial : Z) (retriable : list error.Code) :
  (forall s1 s2, R s1 s2 ->
     fst (f1 s1) = fst (f2 s2) /\ R (snd (f1 s1)) (snd (f2 s2))) ->
  (forall s1 s2, R s1 s2 ->
     fst (N1 s1) = fst (N2 s2) /\ R (snd (N1 s1)) (snd (N2 s2))) ->
  (forall d s1 s2, R s1 s2 -> R (sleep1 d s1) (sleep2 d s2)) ->
  forall (fuel : nat) (retries : Z) (s1 : S1) (s2 : S2),
    R s1 s2 ->
    match retry_loop ToString N1 fuel f1 initial sleep1 retriable retries s1,
          retry_loop ToString N2 fuel f2 initial sleep2 retriable retries s2
    with
    | Some (st1, s1'), Some (st2, s2') => st1 = st2 /\ R s1' s2'
    | None, None => True
    | _, _ => False
    end.
Proof.
  intros Hf HN Hsleep.
  induction fuel as [|fuel IH]; intros retries s1 s2 HR; cbn [retry_loop];
    [exact I|].
  destruct (Hf s1 s2 HR) as [Hst HR1].
  destruct (f1 s1) as [st1 s1a]. destruct (f2 s2) as [st2 s2a].
  cbn [fst snd] in Hst, HR1. subst st2.
  destruct (negb (IsRetriable retriable (code st1))); [auto|].
  destruct (kMaxRetries <=? retries); [auto|].
  destruct (0 <? initial).
  - destruct (HN s1a s2a HR1) as [Hr HR2].
    destruct (N1 s1a) as [r1 s1b]. destruct (N2 s2a) as [r2 s2b].
    cbn [fst snd] in Hr, HR2. subst r2.
    apply IH. apply Hsleep. exact HR2.
  - apply IH. apply Hsleep. exact HR1.
Qed.

Section Bounds.
Variable ToString : Status -> string.
Variable script : nat -> Status.
Variable rand : nat -> Z.
Variable initial : Z.
Variable retriable : list error.Code.

Let run (fuel : nat) (retries : Z) (w : Run) : option (Status * Run) :=
  retry_loop ToString (drawn rand) fuel (scripted script) initial
             logged_sleep retriable retries w.

(** What a sleep of the loop is bounded by. *)
Let short (d : Z) : Prop :=
  d < 33000000 /\ (0 < initial -> exists k r, 0 <= k < 10 /\
                                   d = delay_micros_of initial k r) /\
  (initial <= 0 -> d = 0).

Lemma run_step (fuel : nat) (retries : Z) (w : Run) :
  run (S fuel) retries w =
  if negb (IsRetriable retriable (code (script (calls w)))) then
    Some (script (calls w), mkRun (S (calls w)) (draws w) (slept w))
  else if kMaxRetries <=? retries then
    Some (aborted ToString (script (calls w)),
          mkRun (S (calls w)) (draws w) (slept w))
  else
    run fuel (retries + 1)
        (if 0 <? initial then
           mkRun (S (calls w)) (S (draws w))
                 (slept w ++ [delay_micros_of initial retries (rand (draws w))])
         else mkRun (S (calls w)) (draws w) (slept w ++ [0])).
Proof.
  unfold run. cbn [retry_loop scripted].
  destruct (negb _); [reflexivity|].
  destruct (kMaxRetries <=? retries); [reflexivity|].
  destruct (0 <? initial); reflexivity.
Qed.

Lemma delay_is_short (retries r : Z) :
  0 < initial -> 0 <= retries < 10 ->
  short (delay_micros_of initial retries r).
Proof.
  intros Hinit Hret. unfold short. split; [|split].
  - unfold delay_micros_of, kMaximumBackoffMicroseconds.
    pose proof (jitter_range r). lia.
  - intros _. exists retries, r. split; [lia | reflexivity].
  - lia.
Qed.

(** The counters of a run of the loop. *)
Lemma run_counts (fuel : nat) :
  forall (retries : Z) (w : Run) (st : Status) (w' : Run),
    run fuel retries w = Some (st, w') ->
    0 <= retries <= 10 ->
    exists (n : nat) (added : list Z),
      calls w' = (calls w + S n)%nat /\
      Z.of_nat n + retries <= 10 /\
      slept w' = slept w ++ added /\
      List.length added = n /\
      Forall short added /\
      draws w' = (draws w + if (0 <? initial)%Z then n else O)%nat /\
      ((IsRetriable retriable (code st) = false /\
        st = script (calls w + n)%nat) \/
       (st = aborted ToString (script (calls w + n)%nat) /\
        Z.of_nat n + retries = 10 /\
        IsRetriable retriable (code (script (calls w + n)%nat)) = true)).
Proof.
  induction fuel as [|fuel IH]; intros retries w st w' Hrun Hret;
    [discriminate|].
  rewrite run_step in Hrun.
  destruct (negb (IsRetriable retriable (code (script (calls w))))) eqn:Hstop.
  { injection Hrun as <- <-. exists O, []. cbn [calls slept draws].
    rewrite app_nil_r, !Nat.add_0_r.
    repeat split; try lia; [constructor | destruct (0 <? initial); lia |].
    left. split; [|reflexivity]. apply negb_true_iff. exact Hstop. }
  apply negb_false_iff in Hstop.
  destruct (kMaxRetries <=? retries) eqn:Hmax.
  { apply Z.leb_le in Hmax. unfold kMaxRetries in Hmax.
    injection Hrun as <- <-. exists O, []. cbn [calls slept draws].
    rewrite app_nil_r, !Nat.add_0_r.
    repeat split; try lia; [constructor | destruct (0 <? initial); lia |].
    right. split; [reflexivity|]. split; [lia | exact Hstop]. }
  apply Z.leb_gt in Hmax. unfold kMaxRetries in Hmax.
  apply IH in Hrun; [|lia].
  destruct Hrun as (n & added & Hcalls & Hn & Hslept & Hlen & Hshort &
                    Hdraws & Hres).
  destruct (0 <? initial) eqn:Hinit; cbn [calls slept draws] in *.
  - apply Z.ltb_lt in Hinit.
    exists (S n), (delay_micros_of initial retries (rand (draws w)) :: added).
    rewrite <- app_assoc in Hslept. cbn [app] in Hslept.
    replace (calls w + S n)%nat with (S (calls w) + n)%nat by lia.
    repeat split; try lia; try exact Hslept.
    + cbn [List.length]. lia.
    + constructor; [|exact Hshort]. apply delay_is_short; lia.
    + destruct Hres as [Hres|(Hst & Hfull & Hretr)];
        [left; exact Hres | right; repeat split; auto; lia].
  - apply Z.ltb_ge in Hinit.
    exists (S n), (0 :: added).
    rewrite <- app_assoc in Hslept. cbn [app] in Hslept.
    replace (calls w + S n)%nat with (S (calls w) + n)%nat by lia.
    repeat split; try lia; try exact Hslept.
    + cbn [List.length]. lia.
    + constructor; [|exact Hshort]. unfold short.
      split; [lia|]. split; [lia | reflexivity].
    + destruct Hres as [Hres|(Hst & Hfull & Hretr)];
        [left; exact Hres | right; repeat split; auto; lia].
Qed.
End Bounds.

End RetryMore.

Section RetryProperties.
Import RetryingUtils RetryingFacts RetryMore.

(** X13.  Whatever the outcomes of [f], [CallWithRetries] returns after
    at most [kMaxRetries + 1 = 11] calls of [f]; it sleeps once between
    two calls, each time less than 33 seconds, and draws one random
    number a sleep when the initial delay is positive.  With an initial
    delay of 0 or less it draws nothing and every sleep is of 0
    microseconds.  What it returns is the outcome of the last call when
    that is not retriable, and otherwise the [ABORTED] status on the
    eleventh outcome. *)
Theorem CallWithRetries_calls_and_sleeps :
  forall (ToString : Status -> string) (script : nat -> Status)
         (rand : nat -> Z) (initial : Z) (retriable : list error.Code),
  exists (st : Status) (w : Run),
    CallWithRetries ToString (drawn rand) (scripted script) initial
                    logged_sleep retriable start = Some (st, w) /\
    (1 <= calls w <= 11)%nat /\
    S (List.length (slept w)) = calls w /\
    draws w = (if 0 <? initial then List.length (slept w) else O) /\
    Forall (fun d => d < 33000000 /\ (initial <= 0 -> d = 0)) (slept w) /\
    ((IsRetriable retriable (code st) = false /\
      st = script (calls w - 1)%nat) \/
     (calls w = 11%nat /\
      st = aborted ToString (script 10%nat) /\
      IsRetriable retriable (code (script 10%nat)) = true)).
Proof.
  intros ToString script rand initial retriable.
  destruct (run_total ToString script rand initial retriable
              (S (Z.to_nat kMaxRetries)) 0 start) as ((st & w) & Hrun).
  { simpl. lia. }
  exists st, w. split; [exact Hrun|].
  destruct (run_counts ToString script rand initial retriable _ _ _ _ _ Hrun)
    as (n & added & Hcalls & Hn & Hslept & Hlen & Hshort & Hdraws & Hres);
    [lia|].
  cbn [start calls slept draws app Nat.add] in *. subst added.
  split; [lia|]. split; [lia|]. split; [rewrite Hlen; exact Hdraws|].
  split.
  - eapply Forall_impl; [|exact Hshort]. intros d (Hd & _ & Hzero). auto.
  - rewrite Hcalls. replace (S n - 1)%nat with n by lia.
    destruct Hres as [Hres|(Hst & Hfull & Hretr)]; [left; exact Hres|].
    right. assert (n = 10%nat) as -> by lia. repeat split; auto.
Qed.

Lemma delete_without_not_found :
  forall (St : Type) (ToString : Status -> string) (New64 : St -> Z * St)
         (SleepForMicroseconds : Z -> St -> St)
         (delete_func : St -> Status * St) (initial : Z)
         (retriable : list error.Code) (s : St),
    (forall s0, code (fst (delete_func s0)) <> error.NOT_FOUND) ->
    DeleteWithRetries ToString New64 SleepForMicroseconds delete_func
                      initial retriable s =
    CallWithRetries ToString New64 delete_func initial SleepForMicroseconds
                    retriable s.
Proof.
  intros St ToString New64 Sleep delete_func initial retriable s Hnever.
  unfold DeleteWithRetries, CallWithRetries.
  pose proof (retry_loop_keeps_step
                (fun (sb : St * bool) (s0 : St) => fst sb = s0)
                ToString
                (fun sb : St * bool =>
                   let '(r, s0) := New64 (fst sb) in (r, (s0, snd sb)))
                New64
                (delete_lambda delete_func) delete_func
                (fun micros sb => (Sleep micros (fst sb), snd sb)) Sleep
                initial retriable) as Hsim.
  specialize (Hsim
    ltac:(intros [s1 b] s2 HR; cbn [fst] in HR; subst s2;
          unfold delete_lambda; specialize (Hnever s1);
          destruct (delete_func s1) as [st s1']; cbn [fst snd] in *;
          replace (error.eqb (code st) error.NOT_FOUND) with false;
          [rewrite andb_false_r; auto|];
          unfold error.eqb;
          destruct (error.eq_dec (code st) error.NOT_FOUND); congruence)
    ltac:(intros [s1 b] s2 HR; cbn [fst] in HR; subst s2; cbn [fst snd];
          destruct (New64 s1) as [r s1']; auto)
    ltac:(intros d [s1 b] s2 HR; cbn [fst] in *; subst s2; reflexivity)
    (S (Z.to_nat kMaxRetries)) 0 (s, false) s eq_refl).
  destruct (retry_loop _ _ _ (delete_lambda delete_func) _ _ _ _ _)
    as [[st1 [s1 b1]]|];
    destruct (retry_loop _ _ _ delete_func _ _ _ _ _) as [[st2 s2]|];
    try contradiction; [|reflexivity].
  destruct Hsim as [-> HR]. cbn [fst] in HR. subst s2. reflexivity.
Qed.

(** X14.  For a delete that never answers [NOT_FOUND], the retried delete
    is the retried call: [DeleteWithRetries] returns what
    [CallWithRetries] returns and leaves the same world. *)
Theorem DeleteWithRetries_without_not_found :
  forall (St : Type) (ToString : Status -> string) (New64 : St -> Z * St)
         (SleepForMicroseconds : Z -> St -> St)
         (delete_func : St -> Status * St) (initial : Z)
         (retriable : list error.Code) (s : St),
    (forall s0, code (fst (delete_func s0)) <> error.NOT_FOUND) ->
    DeleteWithRetries ToString New64 SleepForMicroseconds delete_func
                      initial retriable s =
    CallWithRetries ToString New64 delete_func initial SleepForMicroseconds
                    retriable s.
Proof. exact delete_without_not_found. Qed.

End RetryProperties.

(** ** The retrying file system over S3 *)

Module WrapperFacts.
Import Aws S3 Store RetryingUtils RetryingFacts RetryMore.

(** [DeleteFile] never answers [NOT_FOUND]. *)
Lemma DeleteFile_is_never_not_found {W : Type} `{S3Client W}
      (fname : string) (w : W) :
  code (fst (DeleteFile fname w)) <> error.NOT_FOUND.
Proof.
  unfold DeleteFile, ParseS3Path.
  destruct (ParseURI fname) as [[scheme bucketp] objectp].
  destruct (negb (String.eqb scheme "s3")); [discriminate|].
  destruct (String.eqb bucketp "" || String.eqb bucketp ".");
    [discriminate|].
  destruct (negb false && String.eqb (ConsumePrefix_slash objectp) "");
    [discriminate|].
  change (negb (ok Status_OK)) with false. cbv iota.
  destruct (DeleteObject _ _ w) as [[u|e] w1]; discriminate.
Qed.

(** On the object store, [DeleteDir] of a directory that lists a key
    other than its marker fails and changes nothing. *)
Lemma DeleteDir_store_non_empty (dirname bucket key : string) (w : World)
      (child : string * string * Blob) :
  ParseS3Path dirname false "" "" = (Status_OK, (bucket, key)) ->
  In child (objects w) ->
  listed (c_str bucket) (c_str (push_back_slash key)) child = true ->
  snd (fst child) <> c_str (push_back_slash key) ->
  DeleteDir dirname w =
  (mkStatus error.INTERNAL "Cannot delete a non-empty directory.", w).
Proof.
  intros Hparse Hin Hlisted Hother. unfold DeleteDir. rewrite Hparse.
  change (negb (ok Status_OK)) with false. cbv iota.
  cbn [ListObjects store_client]. unfold store_ListObjects.
  cbn [list_Bucket list_Prefix list_MaxKeys GetContents].
  assert (Hhit : In child
                    (filter (listed (c_str bucket)
                                    (c_str (push_back_slash key)))
                            (objects w))).
  { apply filter_In. split; assumption. }
  change (Z.to_nat 2) with 2%nat.
  destruct (filter (listed (c_str bucket) (c_str (push_back_slash key)))
                   (objects w))
    as [|h1 [|h2 rest]].
  - contradiction.
  - destruct Hhit as [->|[]]. cbn [firstn map List.length GetKey].
    replace (String.eqb (snd (fst child)) (c_str (push_back_slash key)))
      with false
      by (symmetry; apply String.eqb_neq; exact Hother).
    reflexivity.
  - reflexivity.
Qed.

End WrapperFacts.

Section WrapperProperties.
Import Aws S3 Store RetryingUtils RetryingFacts RetryMore WrapperFacts.

(** X15.  The retrying file system over S3 does not retry the end of a
    file, nor a file that is not there, nor a path that does not parse.
    A [Read] that is answered 416 returns [OUT_OF_RANGE] after one call
    of the wrapped file and no sleep; a [Stat] whose wrapped call returns
    [NOT_FOUND] or [INVALID_ARGUMENT] returns it after one call and no
    sleep. *)
Theorem end_of_file_and_missing_files_are_not_retried :
  forall (W : Type) (client : S3Client W) (ToString : Status -> string)
         (rand : nat -> Z) (w : W) (run : Run),
    (forall base_file_ offset n result scratch e w1,
        GetObject (mkGetObjectRequest (c_str (raf_bucket_ base_file_))
                     (c_str (raf_object_ base_file_)) offset
                     (u64 (offset + n - 1)))
                  w = (Failure e, w1) ->
        GetResponseCode e = 416 ->
        RetryingFileSystem.Read ToString rand base_file_ offset n
          ((result, scratch), (w, run)) =
        Some (mkStatus error.OUT_OF_RANGE "Read less bytes than requested",
              ((mkStringPiece [] 0, scratch),
               (w1, mkRun (S (calls run)) (draws run) (slept run))))) /\
    (forall fname stat,
        In (code (fst (fst (S3.Stat fname stat w))))
           [error.NOT_FOUND; error.INVALID_ARGUMENT] ->
        RetryingFileSystem.Stat ToString rand fname (stat, (w, run)) =
        Some (fst (fst (S3.Stat fname stat w)),
              (snd (fst (S3.Stat fname stat w)),
               (snd (S3.Stat fname stat w),
                mkRun (S (calls run)) (draws run) (slept run))))).
Proof.
  intros W client ToString rand w run. split.
  - intros base_file_ offset n result scratch e w1 Hget Hcode.
    unfold RetryingFileSystem.Read, RetryingFileSystem.retried,
      RetryingFileSystem.CallWithRetries_Env, CallWithRetries.
    cbn [retry_loop Z.to_nat kMaxRetries Pos.to_nat Pos.iter_op Nat.add].
    unfold RetryingFileSystem.on_service_out at 1. cbn [fst snd].
    unfold S3.Read. rewrite Hget.
    replace (GetResponseCode e =? REQUESTED_RANGE_NOT_SATISFIABLE) with true
      by (symmetry; apply Z.eqb_eq; exact Hcode).
    reflexivity.
  - intros fname stat Hcode.
    unfold RetryingFileSystem.Stat, RetryingFileSystem.retried,
      RetryingFileSystem.CallWithRetries_Env, CallWithRetries.
    cbn [retry_loop Z.to_nat kMaxRetries Pos.to_nat Pos.iter_op Nat.add].
    unfold RetryingFileSystem.on_service_out at 1. cbn [fst snd].
    destruct (S3.Stat fname stat w) as [[st stat'] w'].
    cbn [fst snd] in *.
    destruct Hcode as [Hc|[Hc|[]]]; rewrite <- Hc; reflexivity.
Qed.

(** X16.  [DeleteDir] of the retrying file system over S3, against the
    object store, on a directory that holds a key other than its marker
    (a key under the prefix the listing names, [push_back_slash key] as
    a C string, that is not that prefix):
    every attempt fails with the retriable [INTERNAL] "Cannot delete a
    non-empty directory.", so after 11 attempts and 10 sleeps the call
    gives up with [ABORTED], and the store is as it was. *)
Theorem DeleteDir_of_a_non_empty_directory_is_aborted :
  forall (ToString : Status -> string) (rand : nat -> Z)
         (dirname bucket key : string) (w : World) (run : Run)
         (child : string * string * Blob),
    ParseS3Path dirname false "" "" = (Status_OK, (bucket, key)) ->
    In child (objects w) ->
    listed (c_str bucket) (c_str (push_back_slash key)) child = true ->
    snd (fst child) <> c_str (push_back_slash key) ->
    exists run',
      RetryingFileSystem.DeleteDir ToString rand dirname (w, run) =
        Some (mkStatus error.ABORTED
                ("All 10 retry attempts failed. The last failure: " ++
                 ToString (mkStatus error.INTERNAL
                             "Cannot delete a non-empty directory.")),
              (w, run')) /\
      calls run' = (calls run + 11)%nat /\
      List.length (slept run') = (List.length (slept run) + 10)%nat.
Proof.
  intros ToString rand dirname bucket key w run child Hparse Hin Hlisted
         Hother.
  pose proof (DeleteDir_store_non_empty _ _ _ _ _ Hparse Hin Hlisted Hother)
    as Hfails.
  set (internal := mkStatus error.INTERNAL
                     "Cannot delete a non-empty directory.") in *.
  destruct (run_aborts ToString (fun _ => internal) rand init_delay_time_us
              retriable_errors 10 (S (Z.to_nat kMaxRetries)) 0 run)
    as (run' & Hrun & Hcalls & Hlen);
    [reflexivity | intros i _; reflexivity | simpl; lia |].
  exists run'.
  unfold RetryingFileSystem.DeleteDir, RetryingFileSystem.retried_delete,
    DeleteWithRetries, CallWithRetries.
  pose proof (retry_loop_keeps_step
                (fun (sb : (World * Run) * bool) (r : Run) =>
                   fst (fst sb) = w /\ snd (fst sb) = r)
                ToString
                (fun sb : (World * Run) * bool =>
                   let '(r, s0) :=
                     RetryingFileSystem.service_New64 rand (fst sb) in
                   (r, (s0, snd sb)))
                (drawn rand)
                (delete_lambda
                   (RetryingFileSystem.on_service (DeleteDir dirname)))
                (scripted (fun _ => internal))
                (fun micros sb =>
                   (RetryingFileSystem.service_sleep micros (fst sb), snd sb))
                logged_sleep init_delay_time_us retriable_errors) as Hsim.
  specialize (Hsim
    ltac:(intros [[w1 r1] b] r2 [Hw Hr]; cbn [fst snd] in Hw, Hr; subst w1 r2;
          unfold delete_lambda, RetryingFileSystem.on_service; cbn [fst snd];
          rewrite Hfails; cbn [code internal error.eqb];
          rewrite andb_false_r; cbn [fst snd scripted]; auto)
    ltac:(intros [[w1 r1] b] r2 [Hw Hr]; cbn [fst snd] in Hw, Hr; subst w1 r2;
          cbn [fst snd RetryingFileSystem.service_New64 drawn]; auto)
    ltac:(intros d [[w1 r1] b] r2 [Hw Hr]; cbn [fst snd] in *; subst w1 r2;
          auto)
    (S (Z.to_nat kMaxRetries)) 0 ((w, run), false) run (conj eq_refl eq_refl)).
  rewrite Hrun in Hsim.
  destruct (retry_loop _ _ _ (delete_lambda _) _ _ _ _ _)
    as [[st1 [[w1 r1] b1]]|]; [|contradiction].
  destruct Hsim as [-> [Hw Hr]]. cbn [fst snd] in Hw, Hr. subst w1 r1.
  split; [reflexivity|]. split; [lia|lia].
Qed.

(** X17.  [DeleteFile] of the retrying file system over S3 never turns a
    [NOT_FOUND] into [OK]: the S3 [DeleteFile] does not answer
    [NOT_FOUND], so the call is the wrapped [DeleteFile] under
    [CallWithRetries]. *)
Theorem DeleteFile_is_the_retried_call :
  forall (W : Type) (client : S3Client W) (ToString : Status -> string)
         (rand : nat -> Z) (fname : string) (s : W * Run),
    RetryingFileSystem.DeleteFile ToString rand fname s =
    RetryingFileSystem.retried ToString
      (RetryingFileSystem.service_New64 rand)
      RetryingFileSystem.service_sleep retriable_errors init_delay_time_us
      (RetryingFileSystem.on_service (DeleteFile fname)) s.
Proof.
  intros W client ToString rand fname s.
  unfold RetryingFileSystem.DeleteFile, RetryingFileSystem.retried_delete,
    RetryingFileSystem.retried, RetryingFileSystem.CallWithRetries_Env.
  apply delete_without_not_found.
  intros [w run]. unfold RetryingFileSystem.on_service. cbn [fst snd].
  pose proof (DeleteFile_is_never_not_found fname w) as Hnever.
  destruct (DeleteFile fname w) as [st w']. exact Hnever.
Qed.

End WrapperProperties.

(** ** Appendable files *)

Module AppendableFacts.
Import Aws S3 S3FileSystem Store PathFacts StoreFacts WriterFacts.

Lemma buffer_size_bounds :
  1 <= kS3ReadAppendableFileBufferSize <= 2 ^ 20.
Proof. unfold kS3ReadAppendableFileBufferSize. lia. Qed.

Lemma firstn_add {A : Type} (a c : nat) (l : list A) :
  firstn (a + c) l = firstn a l ++ firstn c (skipn a l).
Proof.
  revert l. induction a as [|a IH]; intros l; [reflexivity|].
  destruct l as [|x l]; cbn [Nat.add firstn skipn app].
  - rewrite firstn_nil. reflexivity.
  - rewrite IH. reflexivity.
Qed.

Section OneObject.
Variables (bucket key : string) (b : list byte) (t : Z) (w : World).
Hypothesis Hlookup :
  lookup (c_str bucket) (c_str key) (objects w) = Some (mkBlob b t).

Let L : Z := Z.of_nat (List.length b).
Let C : Z := kS3ReadAppendableFileBufferSize.
Let reader : S3RandomAccessFile := mkS3RandomAccessFile bucket key.

(** A read of one chunk from inside the object. *)
Lemma Read_store_chunk (offset : Z) (piece : StringPiece)
      (buffer : list byte) :
  0 <= offset < L -> L + C <= 2 ^ 64 ->
  let chunk := firstn (Z.to_nat C) (skipn (Z.to_nat offset) b) in
  Read reader offset C piece buffer w =
  ((Status_OK, mkStringPiece chunk (Z.min C (L - offset)),
    chunk ++ skipn (List.length chunk) buffer), w) /\
  Z.of_nat (List.length chunk) = Z.min C (L - offset).
Proof.
  intros Hoff Hfits chunk. pose proof buffer_size_bounds as HC. fold C in HC.
  unfold Read, reader.
  cbn [GetObject store_client]. unfold store_GetObject.
  cbn [get_Bucket get_Key get_RangeFirst get_RangeLast raf_bucket_
       raf_object_].
  rewrite Hlookup. cbn [blob_body]. fold L.
  rewrite (u64_small (offset + C - 1)) by lia.
  replace (L <=? offset) with false by (symmetry; apply Z.leb_gt; lia).
  replace (offset + C - 1 <? offset) with false
    by (symmetry; apply Z.ltb_ge; lia).
  cbn [GetContentLength GetBody].
  replace (Z.min (offset + C - 1) (L - 1) - offset + 1)
    with (Z.min C (L - offset)) by lia.
  set (m := Z.min C (L - offset)).
  assert (Hm : 1 <= m < 2 ^ 64) by (unfold m; lia).
  rewrite (u64_small m) by lia.
  set (tail := skipn (Z.to_nat offset) b) in *.
  assert (Htail : List.length tail = Z.to_nat (L - offset)).
  { unfold tail, L. rewrite length_skipn. lia. }
  assert (Hcut : firstn (Z.to_nat m) tail = chunk).
  { unfold chunk. rewrite <- (ServiceFacts.firstn_min_length (Z.to_nat C) tail).
    f_equal. rewrite Htail. unfold m. lia. }
  assert (Hlen : List.length chunk = Z.to_nat m).
  { rewrite <- Hcut, length_firstn, Htail. unfold m. lia. }
  rewrite Hcut. split; [|rewrite Hlen; lia].
  unfold StringPiece_of, body_read.
  assert (Hgot : firstn (Z.to_nat m) chunk = chunk).
  { apply firstn_all2. rewrite Hlen. apply Nat.le_refl. }
  rewrite Hgot, firstn_app, Hgot, Hlen, Nat.sub_diag.
  cbn [firstn]. rewrite app_nil_r. reflexivity.
Qed.

(** A read at or after the end of the object. *)
Lemma Read_store_end (offset : Z) (piece : StringPiece)
      (buffer : list byte) :
  L <= offset ->
  Read reader offset C piece buffer w =
  ((mkStatus error.OUT_OF_RANGE "Read less bytes than requested",
    mkStringPiece [] 0, buffer), w).
Proof.
  intros Hoff. unfold Read, reader.
  cbn [GetObject store_client]. unfold store_GetObject.
  cbn [get_Bucket get_Key get_RangeFirst get_RangeLast raf_bucket_
       raf_object_].
  rewrite Hlookup. cbn [blob_body]. fold L.
  replace (L <=? offset) with true by (symmetry; apply Z.leb_le; lia).
  reflexivity.
Qed.

(** The writable file while the object is copied into it: it holds the
    bytes before [offset]. *)
Let copied (offset : Z) : S3WritableFile :=
  mkS3WritableFile bucket key true
    (Some (mkTempFile (firstn (Z.to_nat offset) b) (Z.min offset L) true)).

Lemma Append_copied_chunk (offset : Z) :
  0 <= offset < L ->
  Append (copied offset) (firstn (Z.to_nat C) (skipn (Z.to_nat offset) b)) =
  (Status_OK, copied (offset + C)).
Proof.
  intros Hoff. pose proof buffer_size_bounds as HC. fold C in HC.
  unfold Append, copied, write.
  cbn [outfile_ good contents position bucket_ object_ negb].
  set (chunk := firstn (Z.to_nat C) (skipn (Z.to_nat offset) b)).
  assert (Hlen : Z.of_nat (List.length chunk) = Z.min C (L - offset)).
  { unfold chunk, L. rewrite length_firstn, length_skipn. lia. }
  rewrite (Z.min_l offset L) by lia.
  set (head := firstn (Z.to_nat offset) b).
  assert (Hhead : List.length head = Z.to_nat offset).
  { unfold head. rewrite length_firstn. unfold L in Hoff. lia. }
  rewrite <- Hhead at 1. rewrite firstn_all.
  rewrite skipn_all2 by lia. rewrite app_nil_r.
  replace (Z.to_nat (offset + C)) with (Z.to_nat offset + Z.to_nat C)%nat
    by lia.
  rewrite firstn_add. fold head. fold chunk.
  rewrite Hlen. replace (offset + Z.min C (L - offset))
    with (Z.min (offset + C) L) by lia.
  reflexivity.
Qed.

Lemma Append_copied_end (offset : Z) :
  L <= offset ->
  Append (copied offset) [] = (Status_OK, copied L).
Proof.
  intros Hoff. unfold Append, copied, write.
  cbn [outfile_ good contents position bucket_ object_ negb List.length
       app Z.of_nat].
  rewrite (Z.min_r offset L) by lia. rewrite Z.min_id.
  assert (Hall : firstn (Z.to_nat offset) b = b).
  { apply firstn_all2. unfold L in Hoff. lia. }
  assert (Hto : Z.to_nat L = List.length b) by (unfold L; lia).
  rewrite Hall, Hto, firstn_all.
  rewrite skipn_all2 by lia.
  rewrite ?app_nil_r, Z.add_0_r. reflexivity.
Qed.

(** The loop copies the object: from [offset] on, with the bytes before
    it copied, it ends with the whole object in the spill file. *)
Lemma append_chunks_copies (k : nat) :
  forall (fuel : nat) (offset : Z) (piece : StringPiece)
         (buffer : list byte),
    (k < fuel)%nat ->
    0 <= offset ->
    L - offset <= Z.of_nat k * C ->
    offset <= L + C ->
    L + 2 * C <= 2 ^ 64 ->
    append_chunks fuel reader (copied offset) offset piece buffer w =
    Some ((Status_OK, Some (copied L)), w).
Proof.
  pose proof buffer_size_bounds as HC. fold C in HC.
  induction k as [|k IH]; intros fuel offset piece buffer Hfuel Hoff Hleft
                                 Hnear Hfits;
    (destruct fuel as [|fuel]; [lia|]); cbn [append_chunks]; fold C.
  - rewrite Read_store_end by lia.
    cbn [ok code error.eqb sp_data]. change (error.eqb error.OUT_OF_RANGE error.OK) with false.
    cbv iota. change (error.eqb error.OUT_OF_RANGE error.OUT_OF_RANGE) with true.
    cbv iota. rewrite Append_copied_end by lia. reflexivity.
  - destruct (Z_lt_le_dec offset L) as [Hin|Hout].
    + destruct (Read_store_chunk offset piece buffer) as [Hread _]; [lia|lia|].
      rewrite Hread. change (ok Status_OK) with true. cbv iota.
      cbn [sp_data]. rewrite Append_copied_chunk by lia.
      rewrite (u64_small (offset + C)) by lia.
      apply IH; nia.
    + rewrite Read_store_end by lia.
      change (ok (mkStatus error.OUT_OF_RANGE "Read less bytes than requested"))
        with false.
      cbv iota. cbn [code].
      change (error.eqb error.OUT_OF_RANGE error.OUT_OF_RANGE) with true.
      cbv iota. cbn [sp_data]. rewrite Append_copied_end by lia. reflexivity.
Qed.
End OneObject.

End AppendableFacts.

Section AppendableProperties.
Import Aws S3 S3FileSystem Store PathFacts StoreFacts WriterFacts
       AppendableFacts.

(** X18.  [NewAppendableFile] and its first read, for every S3 client.
    A path that does not parse is returned as such, [*result] untouched
    and nothing asked.  When the first read of the object fails with
    anything but 416, the call returns that [UNKNOWN] status and
    [*result] is reset: no file is handed out.  When it is answered 416
    (nothing to read), the call returns [OK] with a fresh, empty
    writable file. *)
Theorem NewAppendableFile_first_read :
  forall (W : Type) (client : S3Client W) (fuel : nat) (fname : string)
         (result : option S3WritableFile) (w : W),
    (ok (fst (ParseS3Path fname false "" "")) = false ->
     NewAppendableFile fuel fname result w =
       Some ((fst (ParseS3Path fname false "" ""), result), w)) /\
    (forall bucket key e w1,
        ParseS3Path fname false "" "" = (Status_OK, (bucket, key)) ->
        GetObject (mkGetObjectRequest (c_str bucket) (c_str key) 0
                     (u64 (0 + kS3ReadAppendableFileBufferSize - 1))) w =
          (Failure e, w1) ->
        (GetResponseCode e <> 416 ->
         NewAppendableFile (S fuel) fname result w =
           Some ((errors_Unknown (GetExceptionName e ++ GetMessage e), None),
                 w1)) /\
        (GetResponseCode e = 416 ->
         NewAppendableFile (S fuel) fname result w =
           Some ((Status_OK, Some (S3WritableFile_new bucket key)), w1))).
Proof.
  intros W client fuel fname result w. unfold NewAppendableFile,
    NewRandomAccessFile. split.
  - destruct (ParseS3Path fname false "" "") as [st [bucket key]].
    cbn [fst]. intros Hbad. rewrite Hbad. cbn [negb]. rewrite Hbad.
    reflexivity.
  - intros bucket key e w1 Hparse Hget. rewrite Hparse.
    change (negb (ok Status_OK)) with false. cbv iota.
    cbn [append_chunks]. unfold Read.
    cbn [raf_bucket_ raf_object_]. rewrite Hget. split.
    + intros Hcode.
      replace (GetResponseCode e =? REQUESTED_RANGE_NOT_SATISFIABLE)
        with false by (symmetry; apply Z.eqb_neq; exact Hcode).
      reflexivity.
    + intros Hcode.
      replace (GetResponseCode e =? REQUESTED_RANGE_NOT_SATISFIABLE)
        with true by (symmetry; apply Z.eqb_eq; exact Hcode).
      reflexivity.
Qed.

(** X19.  Against the object store, [NewAppendableFile] of an object
    (named by the bucket and the key as C strings) hands out a writable file whose spill file holds the whole object,
    with the put position at its end; what is appended to it and closed
    well makes the object the old bytes followed by the new ones.  The
    loop needs one round a MiB of the object and one more. *)
Theorem NewAppendableFile_holds_the_object :
  forall (fname bucket key : string) (b : list byte) (t : Z) (w : World)
         (fuel : nat),
    ParseS3Path fname false "" "" = (Status_OK, (bucket, key)) ->
    lookup (c_str bucket) (c_str key) (objects w) = Some (mkBlob b t) ->
    Z.of_nat (List.length b) + 2 ^ 21 <= 2 ^ 64 ->
    (List.length b < fuel)%nat ->
    let file :=
      mkS3WritableFile bucket key true
        (Some (mkTempFile b (Z.of_nat (List.length b)) true)) in
    NewAppendableFile fuel fname None w = Some ((Status_OK, Some file), w) /\
    (forall y status this' w',
        Close (snd (Append file y)) w = ((status, this'), w') ->
        ok status = true ->
        lookup (c_str bucket) (c_str key) (objects w') =
          Some (mkBlob (b ++ y) (now w))).
Proof.
  intros fname bucket key b t w fuel Hparse Hlookup Hfits Hfuel file.
  pose proof buffer_size_bounds as HC.
  split.
  - unfold NewAppendableFile, NewRandomAccessFile. rewrite Hparse.
    change (negb (ok Status_OK)) with false. cbv iota.
    pose proof (append_chunks_copies bucket key b t w Hlookup
                  (List.length b) fuel 0 (mkStringPiece [] 0)
                  (new_char_array kS3ReadAppendableFileBufferSize))
      as Hcopy.
    change (Z.to_nat 0) with O in Hcopy. cbn [firstn] in Hcopy.
    rewrite Z.min_l in Hcopy by lia. rewrite Z.min_id in Hcopy.
    rewrite Nat2Z.id, firstn_all in Hcopy.
    apply Hcopy; [exact Hfuel | lia | nia | lia | lia].
  - intros y status this' w'. subst file.
    unfold Append at 1, write.
    cbn [outfile_ good contents position bucket_ object_ negb].
    rewrite Nat2Z.id, firstn_all, skipn_all2 by lia.
    rewrite app_nil_r. cbn [snd].
    rewrite Close_open
      with (outfile := mkTempFile (b ++ y)
                         (Z.of_nat (List.length b) + Z.of_nat (List.length y))
                         true) by reflexivity.
    destruct (Sync _ w) as [[st1 this1] w1] eqn:Hsync.
    apply Sync_store
      with (outfile := mkTempFile (b ++ y)
                         (Z.of_nat (List.length b) + Z.of_nat (List.length y))
                         true) in Hsync; [|reflexivity|reflexivity].
    destruct Hsync as (_ & _ & _ & Hdone & _).
    destruct (ok st1) eqn:Hst1; intros [= <- <- <-] Hok.
    + destruct (Hdone eq_refl) as (_ & Hobjs & _).
      cbn [bucket_ object_ contents] in Hobjs.
      rewrite Hobjs. apply lookup_put.
    + congruence.
Qed.

End AppendableProperties.

(** ** Spill file names and listings *)

Module ListingFacts.
Import Aws S3 S3FileSystem PathFacts.

Lemma i32_small (z : Z) : - 2 ^ 31 <= z < 2 ^ 31 -> i32 z = z.
Proof. intros Hz. unfold i32. rewrite Z.mod_small; lia. Qed.

(** One file: the suffix carries the counter, which moves on by one
    modulo 1000. *)
Lemma GetTmpFileSuffix_step (i : Z) :
  0 <= i < 1000 ->
  GetTmpFileSuffix i =
  (("/tmp/s3_filesystem_XXXXXX" ++ dec i ++ "_")%string, (i + 1) mod 1000).
Proof.
  intros Hi. unfold GetTmpFileSuffix, dec_int.
  replace (i <? 0) with false by (symmetry; apply Z.ltb_ge; lia).
  rewrite i32_small by lia. rewrite Z.rem_mod_nonneg by lia. reflexivity.
Qed.

Lemma suffixes_from (n : nat) :
  forall i : Z,
    0 <= i < 1000 ->
    suffixes n i =
    (map (fun j : nat =>
            ("/tmp/s3_filesystem_XXXXXX" ++
             dec ((i + Z.of_nat j) mod 1000) ++ "_")%string)
         (seq 0 n),
     (i + Z.of_nat n) mod 1000).
Proof.
  induction n as [|n IH]; intros i Hi.
  - cbn [suffixes seq map Z.of_nat]. rewrite Z.add_0_r, Z.mod_small by lia.
    reflexivity.
  - cbn [suffixes]. rewrite GetTmpFileSuffix_step by exact Hi.
    rewrite IH by (apply Z.mod_pos_bound; lia).
    cbn [seq map]. rewrite <- seq_shift, map_map.
    f_equal; [f_equal|].
    + cbn [Z.of_nat]. rewrite Z.add_0_r, Z.mod_small by lia. reflexivity.
    + apply map_ext. intros j. rewrite Zplus_mod_idemp_l.
      replace (i + 1 + Z.of_nat j) with (i + Z.of_nat (S j)) by lia.
      reflexivity.
    + rewrite Zplus_mod_idemp_l.
      replace (i + 1 + Z.of_nat n) with (i + Z.of_nat (S n)) by lia.
      reflexivity.
Qed.

Lemma append_assoc (a b c : string) :
  ((a ++ b) ++ c = a ++ (b ++ c))%string.
Proof. induction a as [|x a IH]; cbn; [reflexivity | rewrite IH; reflexivity]. Qed.

Lemma substr_app (p x : string) :
  substr (String.length p) (p ++ x) = Some x.
Proof.
  induction p as [|c p IH]; cbn [String.length append substr].
  - destruct x; reflexivity.
  - exact IH.
Qed.

Lemma erase_last_slash (s : string) : erase_last (s ++ "/") = Some s.
Proof.
  induction s as [|c s IH]; [reflexivity|].
  cbn [append erase_last]. rewrite IH.
  destruct (s ++ "/")%string eqn:Hs; [|reflexivity].
  destruct s; discriminate.
Qed.

Lemma push_common_prefixes_names (prefix : string) (names : list string) :
  no_nul prefix = true ->
  (forall x, In x names -> no_nul x = true) ->
  forall result,
    push_common_prefixes prefix
      (map (fun x => (prefix ++ x ++ "/")%string) names) result =
    (result ++ filter named names, false).
Proof.
  intros Hp. induction names as [|x names IH]; intros Hnames result;
    cbn [map push_common_prefixes filter].
  - rewrite app_nil_r. reflexivity.
  - rewrite <- append_assoc, erase_last_slash.
    rewrite (strlen_no_nul prefix Hp), substr_app.
    rewrite (c_str_no_nul x) by (apply Hnames; left; reflexivity).
    rewrite IH by (intros x' Hx'; apply Hnames; right; exact Hx').
    destruct (named x).
    + rewrite <- app_assoc. reflexivity.
    + reflexivity.
Qed.

Lemma push_contents_names (prefix : string) (names : list string) :
  no_nul prefix = true ->
  (forall x, In x names -> no_nul x = true) ->
  forall result,
    push_contents prefix (map (fun x => (prefix ++ x)%string) names) result =
    (result ++ filter named names, false).
Proof.
  intros Hp. induction names as [|x names IH]; intros Hnames result;
    cbn [map push_contents filter].
  - rewrite app_nil_r. reflexivity.
  - rewrite (strlen_no_nul prefix Hp), substr_app.
    rewrite (c_str_no_nul x) by (apply Hnames; left; reflexivity).
    rewrite IH by (intros x' Hx'; apply Hnames; right; exact Hx').
    destruct (named x).
    + rewrite <- app_assoc. reflexivity.
    + reflexivity.
Qed.

Lemma push_common_prefixes_appends (prefix : string)
      (objects : list string) :
  forall result,
    exists added,
      fst (push_common_prefixes prefix objects result) = result ++ added.
Proof.
  induction objects as [|o objects IH]; intros result;
    cbn [push_common_prefixes].
  - exists []. symmetry. apply app_nil_r.
  - destruct (erase_last o) as [s|];
      [|exists []; symmetry; apply app_nil_r].
    destruct (substr (strlen prefix) s) as [entry|];
      [|exists []; symmetry; apply app_nil_r].
    destruct (named entry).
    + destruct (IH (result ++ [c_str entry])) as [added ->].
      exists (c_str entry :: added). rewrite <- app_assoc. reflexivity.
    + apply IH.
Qed.

Lemma push_contents_appends (prefix : string) (objects : list string) :
  forall result,
    exists added, fst (push_contents prefix objects result) = result ++ added.
Proof.
  induction objects as [|o objects IH]; intros result;
    cbn [push_contents].
  - exists []. symmetry. apply app_nil_r.
  - destruct (substr (strlen prefix) o) as [entry|];
      [|exists []; symmetry; apply app_nil_r].
    destruct (named entry).
    + destruct (IH (result ++ [c_str entry])) as [added ->].
      exists (c_str entry :: added). rewrite <- app_assoc. reflexivity.
    + apply IH.
Qed.

End ListingFacts.

Section ListingProperties.
Import Aws S3 S3FileSystem PathFacts ListingFacts.

(** X20.  The suffixes of the spill files roll over: starting from the
    counter 0, the suffix of the [j]-th writable file (counting from 0)
    is ["/tmp/s3_filesystem_XXXXXX"], [j mod 1000] in decimal and ["_"],
    and after [n] files the counter is [n mod 1000].  The suffix of a
    file is that of the file made 1000 files before it. *)
Theorem GetTmpFileSuffix_rolls_over :
  forall n : nat,
    suffixes n 0 =
    (map (fun j : nat =>
            ("/tmp/s3_filesystem_XXXXXX" ++
             dec (Z.of_nat j mod 1000) ++ "_")%string)
         (seq 0 n),
     Z.of_nat n mod 1000).
Proof.
  intros n. rewrite suffixes_from by lia. reflexivity.
Qed.

Context {W : Type} `{ListingClient W}.

(** X21.  [GetChildren] only ever appends to [*result]: however the
    call ends, also with an error after some pages or with an exception,
    what [*result] held is still there, in front.  When it returns, the
    status is [OK], [INVALID_ARGUMENT] or [UNKNOWN]. *)
Theorem GetChildren_only_appends :
  forall (fuel : nat) (dir : string) (result : list string) (w : W),
    match GetChildren fuel dir result w with
    | Returned ((status, result'), _) =>
        (exists added, result' = result ++ added) /\
        In (code status)
           [error.OK; error.INVALID_ARGUMENT; error.UNKNOWN]
    | Thrown ((_, result'), _) => exists added, result' = result ++ added
    | Unfinished => True
    end.
Proof.
  intros fuel dir result w. unfold GetChildren.
  assert (Hparse :
    ok (fst (ParseS3Path dir false "" "")) = false ->
    code (fst (ParseS3Path dir false "" "")) = error.INVALID_ARGUMENT).
  { unfold ParseS3Path.
    destruct (ParseURI dir) as [[scheme bucketp] objectp].
    destruct (negb (String.eqb scheme "s3")); [reflexivity|].
    destruct (String.eqb bucketp "" || String.eqb bucketp ".");
      [reflexivity|].
    destruct (negb false && String.eqb (ConsumePrefix_slash objectp) "");
      [reflexivity|discriminate]. }
  destruct (ParseS3Path dir false "" "") as [st [bucket prefix]].
  cbn [fst] in Hparse. destruct (ok st) eqn:Hst; cbn [negb].
  2: { split; [exists []; symmetry; apply app_nil_r|].
       rewrite (Hparse eq_refl). cbn. auto. }
  clear Hparse Hst st.
  generalize (push_back_slash prefix) as pre. intros pre.
  generalize EmptyString as marker. revert result w.
  induction fuel as [|fuel IH]; intros result w marker; cbn [list_pages];
    [exact I|].
  destruct (ListChildren _ w) as [[page|e] w1].
  2: { split; [exists []; symmetry; apply app_nil_r|]. cbn. auto. }
  destruct (push_common_prefixes_appends pre (GetCommonPrefixes page) result)
    as [added1 H1].
  destruct (push_common_prefixes pre (GetCommonPrefixes page) result)
    as [result1 thrown1].
  cbn [fst] in H1. subst result1.
  destruct thrown1; [exists added1; reflexivity|].
  destruct (push_contents_appends pre (GetContentKeys page) (result ++ added1))
    as [added2 H2].
  destruct (push_contents pre (GetContentKeys page) (result ++ added1))
    as [result2 thrown2].
  cbn [fst] in H2. subst result2.
  destruct thrown2;
    [exists (added1 ++ added2); rewrite app_assoc; reflexivity|].
  destruct (GetIsTruncated page).
  - specialize (IH ((result ++ added1) ++ added2) w1 (GetNextMarker page)).
    destruct (list_pages fuel bucket pre (GetNextMarker page)
                         ((result ++ added1) ++ added2) w1)
      as [[[st r'] w2]|[[st r'] w2]|].
    + destruct IH as [[added ->] Hcode]. split; [|exact Hcode].
      exists (added1 ++ added2 ++ added). rewrite !app_assoc. reflexivity.
    + destruct IH as [added ->].
      exists (added1 ++ added2 ++ added). rewrite !app_assoc. reflexivity.
    + exact I.
  - split; [|cbn; auto].
    exists (added1 ++ added2). rewrite app_assoc. reflexivity.
Qed.

(** X22.  [GetChildren] of a directory whose listing comes in one page:
    when the common prefixes are [prefix ++ name ++ "/"] for the names of
    [dirs] and the keys are [prefix ++ name] for the names of [files]
    (no NUL anywhere), it returns [OK] and appends the names of [dirs]
    and then those of [files], without the empty ones: the directory
    marker, whose key is the prefix itself, is not listed. *)
Theorem GetChildren_lists_the_names :
  forall (fuel : nat) (dir bucket key : string) (result : list string)
         (w : W) (page : ListChildrenResult) (w1 : W)
         (dirs files : list string),
    ParseS3Path dir false "" "" = (Status_OK, (bucket, key)) ->
    no_nul (push_back_slash key) = true ->
    (forall x, In x (dirs ++ files) -> no_nul x = true) ->
    ListChildren
      (mkListChildrenRequest (c_str bucket) (c_str (push_back_slash key))
                             kS3GetChildrenMaxKeys "/" "") w =
      (Success page, w1) ->
    GetCommonPrefixes page =
      map (fun x => (push_back_slash key ++ x ++ "/")%string) dirs ->
    GetContentKeys page =
      map (fun x => (push_back_slash key ++ x)%string) files ->
    GetIsTruncated page = false ->
    GetChildren (S fuel) dir result w =
      Returned ((Status_OK,
                 result ++ filter named dirs ++ filter named files), w1).
Proof.
  intros fuel dir bucket key result w page w1 dirs files Hparse Hprefix
         Hnames Hlist Hdirs Hfiles Hlast.
  unfold GetChildren. rewrite Hparse.
  change (negb (ok Status_OK)) with false. cbv iota.
  cbn [list_pages]. rewrite Hlist, Hdirs, Hfiles, Hlast.
  rewrite (push_common_prefixes_names _ dirs Hprefix)
    by (intros x Hx; apply Hnames; apply in_or_app; left; exact Hx).
  rewrite (push_contents_names _ files Hprefix)
    by (intros x Hx; apply Hnames; apply in_or_app; right; exact Hx).
  rewrite <- app_assoc. reflexivity.
Qed.

End ListingProperties.

(** ** Paths of the form [s3://bucket/key] *)

Module UriFacts.
Import S3 Cases.

Lemma substring_all (s : string) : substring 0 (String.length s) s = s.
Proof. induction s as [|c s IH]; cbn; [reflexivity | rewrite IH; reflexivity]. Qed.

Lemma scan_until_slash_bucket (bucket rest : string) :
  no_slash bucket = true ->
  scan_until_slash (bucket ++ String slash rest) =
  Some (bucket, String slash rest).
Proof.
  induction bucket as [|c bucket IH]; cbn [no_slash append scan_until_slash].
  - intros _. rewrite Ascii.eqb_refl. reflexivity.
  - intros Hb. apply andb_prop in Hb. destruct Hb as [Hc Hb].
    apply negb_true_iff in Hc. rewrite Hc, IH by exact Hb. reflexivity.
Qed.

Lemma ParseURI_s3 (bucket key : string) :
  no_slash bucket = true ->
  ParseURI ("s3://" ++ bucket ++ "/" ++ key) =
  ("s3", bucket, String slash key).
Proof.
  intros Hb. cbn [append]. unfold ParseURI.
  change (is_letter "s") with true. cbv iota.
  cbn [span]. change (is_letter_digit_dot "3") with true. cbv iota.
  change (is_letter_digit_dot ":") with false. cbv iota.
  unfold strip_prefix. cbn [prefix String.length Nat.sub substring].
  destruct (ascii_dec ":" ":") as [_|Hne]; [|congruence].
  destruct (ascii_dec "/" "/") as [_|Hne]; [|congruence].
  assert (Hempty : forall s, prefix "" s = true) by (intros []; reflexivity).
  rewrite Hempty, Nat.sub_0_r, substring_all.
  change (bucket ++ String "/" key)%string
    with (bucket ++ String slash key)%string.
  rewrite scan_until_slash_bucket by exact Hb. reflexivity.
Qed.

End UriFacts.

Section UriProperties.
Import S3 Cases UriFacts.

(** X23.  The path [s3://bucket/key] parses to its bucket and key: for a
    bucket that is not empty, is not ["."] and holds no slash, and a key
    that is not empty unless it may be, [ParseS3Path] returns [OK] with
    exactly that bucket and that key.  One slash after the bucket is
    consumed and no more. *)
Theorem ParseS3Path_of_a_bucket_and_key :
  forall (bucket key : string) (empty_object_ok : bool)
         (bucket0 object0 : string),
    no_slash bucket = true ->
    bucket <> "" -> bucket <> "." ->
    (empty_object_ok = false -> key <> "") ->
    ParseS3Path ("s3://" ++ bucket ++ "/" ++ key) empty_object_ok
                bucket0 object0 =
    (Status_OK, (bucket, key)).
Proof.
  intros bucket key empty_object_ok bucket0 object0 Hslash Hne Hdot Hkey.
  unfold ParseS3Path. rewrite (ParseURI_s3 bucket key Hslash).
  change (negb (String.eqb "s3" "s3")) with false. cbv iota.
  replace (String.eqb bucket "") with false
    by (symmetry; apply String.eqb_neq; exact Hne).
  replace (String.eqb bucket ".") with false
    by (symmetry; apply String.eqb_neq; exact Hdot).
  cbn [orb ConsumePrefix_slash]. rewrite Ascii.eqb_refl.
  destruct empty_object_ok; cbn [negb andb]; [reflexivity|].
  replace (String.eqb key "") with false
    by (symmetry; apply String.eqb_neq; apply Hkey; reflexivity).
  reflexivity.
Qed.

End UriProperties.

(** ** Instances of the further properties *)

Section FurtherInstances.
Import Aws S3 S3FileSystem Store RetryingUtils Cases.

(** A fresh file for [s3://b/k], closed in an empty bucket, is released:
    nothing is open any more and a later [Sync] is refused. *)
Lemma Close_releases_only_on_success_witness :
  let closed := Close (S3WritableFile_new "b" "k") Scenario.empty_bucket in
  outfile_ (snd (fst closed)) = None /\
  code (fst (fst (Sync (snd (fst closed)) (snd closed)))) =
    error.FAILED_PRECONDITION.
Proof.
  intros closed.
  assert (Hrun : closed = ((fst (fst closed), snd (fst closed)), snd closed))
    by reflexivity.
  destruct (Close_releases_only_on_success _ _ _ _ _ Hrun) as [Hok _].
  assert (Hstatus : ok (fst (fst closed)) = true) by reflexivity.
  destruct (Hok Hstatus) as (Hnone & _ & _ & Hsync & _).
  split; assumption.
Defined.

(** Two bytes appended and synced in an empty bucket: the file stays
    open at position 2.  And a file whose upload has failed six times:
    the next [Sync] returns [OK], but the stream is not good and the
    [Append] after it returns [INTERNAL]. *)
Lemma Sync_restores_the_write_position_witness :
  (let this := snd (Append (S3WritableFile_new "b" "k") [x01; x02]) in
   exists outfile',
     outfile_ (snd (fst (Sync this Scenario.empty_bucket))) = Some outfile' /\
     good outfile' = true /\
     position outfile' = 2 /\
     tellp outfile' = 2) /\
  (let this := snd (Append (S3WritableFile_new "b" "k") [x01]) in
   let failed := Sync this failing_bucket in
   let again := Sync (snd (fst failed)) (snd failed) in
   code (fst (fst failed)) = error.UNKNOWN /\
   fst (fst again) = Status_OK /\
   code (fst (Append (snd (fst again)) [x02])) = error.INTERNAL).
Proof.
  split.
  - intros this.
    destruct (Sync_restores_the_write_position
                this (mkTempFile [x01; x02] 2 true) Scenario.empty_bucket
                (fst (fst (Sync this Scenario.empty_bucket)))
                (snd (fst (Sync this Scenario.empty_bucket)))
                (snd (Sync this Scenario.empty_bucket)))
      as (o & Hout & Hgood & _).
    + reflexivity.
    + reflexivity.
    + reflexivity.
    + exists o. split; [exact Hout|]. apply Hgood; [reflexivity|].
      cbn. lia.
  - intros this failed again.
    split; [reflexivity|]. split; [reflexivity|].
    destruct (Sync_restores_the_write_position
                (snd (fst failed)) (mkTempFile [x01] 1 false) (snd failed)
                (fst (fst again)) (snd (fst again)) (snd again))
      as (o & _ & _ & Hbad).
    + reflexivity.
    + reflexivity.
    + reflexivity.
    + destruct (Hbad eq_refl) as (_ & _ & Happend). apply Happend.
Defined.

(** [DeleteDir] of [s3://b/d] while [d/x] exists is refused.  And
    [DeleteDir] of the name ["k"], NUL, ["x"] in a bucket that holds the
    plain file ["k"]: the listing names the prefix ["k"], finds the file
    and the file is deleted. *)
Lemma DeleteDir_deletes_only_the_marker_witness :
  (exists w1,
      DeleteDir "s3://b/d" Scenario.one_child =
      (mkStatus error.INTERNAL "Cannot delete a non-empty directory.", w1)) /\
  (exists w1,
      DeleteDir nul_path plain_file = DeleteFile (push_back_slash nul_path) w1 /\
      fst (DeleteDir nul_path plain_file) = Status_OK /\
      objects (snd (DeleteDir nul_path plain_file)) = []).
Proof.
  split.
  - edestruct (DeleteDir_deletes_only_the_marker
                 "s3://b/d" "b" "d" Scenario.one_child)
      as (_ & _ & Hchild & _).
    + reflexivity.
    + vm_compute. reflexivity.
    + eexists. eapply Hchild.
      * reflexivity.
      * vm_compute. discriminate.
  - edestruct (DeleteDir_deletes_only_the_marker
                 nul_path "b" nul_key plain_file)
      as (_ & Hmarker & _).
    + reflexivity.
    + vm_compute. reflexivity.
    + eexists. split; [|split; reflexivity].
      eapply Hmarker; reflexivity.
Defined.

(** An upload that fails twice and then completes: [Sync] returns [OK]
    after one upload and two retries. *)
Lemma Sync_retries_a_failed_upload_five_times_witness :
  let this := snd (Append (S3WritableFile_new "b" "k") [x01]) in
  fst (fst (Sync this flaky_bucket)) = Status_OK /\
  journal (snd (Sync this flaky_bucket)) =
    [CallUploadFile "b" "k" [x01];
     CallRetryUpload "b" "k" [x01]; CallRetryUpload "b" "k" [x01]] /\
  objects (snd (Sync this flaky_bucket)) =
    [("b", "k", mkBlob [x01] 1700000000001)].
Proof.
  intros this.
  assert (Houtfile : outfile_ this = Some (mkTempFile [x01] 1 true))
    by reflexivity.
  assert (Hneeded : sync_needed_ this = true) by reflexivity.
  assert (Hbucket : bucket_exists (bucket_ this) flaky_bucket = true)
    by reflexivity.
  destruct (Sync_retries_a_failed_upload_five_times
              this (mkTempFile [x01] 1 true) flaky_bucket 2 []
              Houtfile Hneeded Hbucket) as [Hok _].
  apply Hok.
  - lia.
  - reflexivity.
Defined.

(** One byte, a [Sync], one more byte and a [Close]: the object holds
    both bytes. *)
Lemma Append_after_Sync_extends_the_object_witness :
  let run :=
    drive [OpAppend [x01]; OpSync; OpAppend [x02]; OpClose]
          (S3WritableFile_new "b" "k") Scenario.empty_bucket in
  lookup "b" "k" (objects (snd run)) =
    Some (mkBlob ([x01] ++ [x02]) (now Scenario.empty_bucket)) /\
  outfile_ (snd (fst run)) = None.
Proof.
  intros run.
  apply (Append_after_Sync_extends_the_object
           "b" "k" [x01] [x02] Scenario.empty_bucket
           (fst (fst run)) (snd (fst run)) (snd run)).
  - reflexivity.
  - reflexivity.
Defined.

(** A read of 100 bytes from offset 4 of a ten-byte object returns its
    last six bytes. *)
Lemma Read_returns_the_requested_bytes_witness :
  let read :=
    Read (mkS3RandomAccessFile "b" "k") 4 100 (mkStringPiece [] 0) []
         Scenario.ten_byte_object in
  fst (fst (fst read)) = Status_OK /\
  snd (fst (fst read)) =
    mkStringPiece
      (firstn (Z.to_nat 100) (skipn (Z.to_nat 4) Scenario.ten_bytes))
      (Z.min 100 (Z.of_nat (List.length Scenario.ten_bytes) - 4)).
Proof.
  intros read.
  assert (Hoffset : 0 <= 4) by lia.
  assert (Hn : 1 <= 100 < 2 ^ 64) by lia.
  assert (Hend : 4 + 100 <= 2 ^ 64) by lia.
  destruct (Read_returns_the_requested_bytes
              "b" "k" 4 100 (mkStringPiece [] 0) []
              Scenario.ten_byte_object Hoffset Hn Hend)
    as (_ & _ & Hfound).
  destruct (Hfound Scenario.ten_bytes 1700000000001 eq_refl) as [Hinside _].
  apply Hinside. cbn. lia.
Defined.

(** [CreateDir] of [s3://b/dir], twice. *)
Lemma CreateDir_again_changes_nothing_witness :
  let w' := snd (CreateDir "s3://b/dir" Scenario.empty_bucket) in
  CreateDir "s3://b/dir" w' = (Status_OK, w').
Proof.
  intros w'.
  apply (CreateDir_again_changes_nothing
           "s3://b/dir" "b" "dir/" Scenario.empty_bucket
           (fst (CreateDir "s3://b/dir" Scenario.empty_bucket)) w').
  - reflexivity.
  - reflexivity.
  - reflexivity.
  - reflexivity.
  - reflexivity.
Defined.

(** The ten-byte object [s3://b/k], deleted. *)
Lemma DeleteFile_then_Stat_is_not_found_witness :
  let w' := snd (DeleteFile "s3://b/k" Scenario.ten_byte_object) in
  fst (DeleteFile "s3://b/k" Scenario.ten_byte_object) = Status_OK /\
  lookup "b" "k" (objects w') = None /\
  fst (DeleteFile "s3://b/k" w') = Status_OK /\
  Stat "s3://b/k" FileStatistics_default w' =
    ((mkStatus error.NOT_FOUND
        ("Object " ++ "s3://b/k" ++ " does not exist"),
      FileStatistics_default), w') /\
  code (fst (FileExists "s3://b/k" w')) = error.NOT_FOUND.
Proof.
  apply (DeleteFile_then_Stat_is_not_found
           "s3://b/k" "b" "k" FileStatistics_default
           Scenario.ten_byte_object).
  - reflexivity.
  - intros e [<- | []] Hlisted. vm_compute in Hlisted. discriminate Hlisted.
Defined.

(** A delete that is unavailable twice and then succeeds never reports
    [NOT_FOUND]. *)
Lemma DeleteWithRetries_without_not_found_witness :
  DeleteWithRetries Scenario.render (drawn Scenario.no_jitter) logged_sleep
                    (scripted Scenario.flaky_call) 100000
                    [error.UNAVAILABLE] start =
  CallWithRetries Scenario.render (drawn Scenario.no_jitter)
                  (scripted Scenario.flaky_call) 100000 logged_sleep
                  [error.UNAVAILABLE] start.
Proof.
  apply (DeleteWithRetries_without_not_found
           Run Scenario.render (drawn Scenario.no_jitter) logged_sleep
           (scripted Scenario.flaky_call) 100000 [error.UNAVAILABLE] start).
  intros [[|[|k]] d s]; cbn; discriminate.
Defined.

(** The retried [DeleteDir] of [s3://b/d] while [d/x] exists. *)
Lemma DeleteDir_of_a_non_empty_directory_is_aborted_witness :
  exists run',
    RetryingFileSystem.DeleteDir Scenario.render Scenario.no_jitter
      "s3://b/d" (Scenario.one_child, start) =
      Some (mkStatus error.ABORTED
              ("All 10 retry attempts failed. The last failure: " ++
               Scenario.render
                 (mkStatus error.INTERNAL
                           "Cannot delete a non-empty directory.")),
            (Scenario.one_child, run')) /\
    calls run' = (calls start + 11)%nat /\
    List.length (slept run') = (List.length (slept start) + 10)%nat.
Proof.
  apply (DeleteDir_of_a_non_empty_directory_is_aborted
           Scenario.render Scenario.no_jitter "s3://b/d" "b" "d"
           Scenario.one_child start
           ("b", "d/x", mkBlob [x01] 1700000000001)).
  - reflexivity.
  - left. reflexivity.
  - reflexivity.
  - vm_compute. discriminate.
Defined.

(** The ten-byte object [s3://b/k], opened for appending. *)
Lemma NewAppendableFile_holds_the_object_witness :
  NewAppendableFile 11 "s3://b/k" None Scenario.ten_byte_object =
  Some ((Status_OK,
         Some (mkS3WritableFile "b" "k" true
                 (Some (mkTempFile Scenario.ten_bytes
                          (Z.of_nat (List.length Scenario.ten_bytes)) true)))),
        Scenario.ten_byte_object).
Proof.
  assert (Hparse : ParseS3Path "s3://b/k" false "" "" = (Status_OK, ("b", "k")))
    by reflexivity.
  assert (Hfound : lookup "b" "k" (objects Scenario.ten_byte_object) =
                   Some (mkBlob Scenario.ten_bytes 1700000000001))
    by reflexivity.
  assert (Hsize : Z.of_nat (List.length Scenario.ten_bytes) + 2 ^ 21 <= 2 ^ 64)
    by (cbn; lia).
  assert (Hfuel : (List.length Scenario.ten_bytes < 11)%nat) by (cbn; lia).
  destruct (NewAppendableFile_holds_the_object
              "s3://b/k" "b" "k" Scenario.ten_bytes 1700000000001
              Scenario.ten_byte_object 11 Hparse Hfound Hsize Hfuel)
    as [Hfile _].
  exact Hfile.
Defined.

(** The listing of [s3://b/dir] from one page: the marker of the
    directory itself is left out. *)
Lemma GetChildren_lists_the_names_witness :
  GetChildren 1 "s3://b/dir" [] 0%nat =
  Returned ((Status_OK,
             [] ++ filter named ["sub"] ++ filter named [""; "file"]),
            1%nat).
Proof.
  apply (GetChildren_lists_the_names
           0 "s3://b/dir" "b" "dir" [] 0%nat one_page 1%nat
           ["sub"] [""; "file"]).
  - reflexivity.
  - reflexivity.
  - intros x [<- | [<- | [<- | []]]]; reflexivity.
  - reflexivity.
  - reflexivity.
  - reflexivity.
  - reflexivity.
Defined.

(** The path [s3://b/k]. *)
Lemma ParseS3Path_of_a_bucket_and_key_witness :
  ParseS3Path ("s3://" ++ "b" ++ "/" ++ "k") false "" "" =
  (Status_OK, ("b", "k")).
Proof.
  apply (ParseS3Path_of_a_bucket_and_key "b" "k" false "" "").
  - reflexivity.
  - discriminate.
  - discriminate.
  - intros _. discriminate.
Defined.

End FurtherInstances.
